(** * DataLense: the local statistical analysis engine

    A shallow embedding of [src/services/dataAnalysisService.ts]: the
    descriptive statistics, missing-data, correlation, trend and seasonality
    detectors and the insight synthesizer [analyzeData] built on them; and
    of the handlers of [src/App.tsx] that call it.

    JavaScript numbers are IEEE 754 binary64 values, so they are modelled by
    Rocq's primitive [float]; every arithmetic expression of the source is
    kept as it is written, with its rounding, overflow, [NaN] and signed
    zeros.  Array lengths and loop counters are natural numbers.  Strings
    are sequences of code units below 256. *)

From Stdlib Require Import ZArith QArith Qround List String Ascii Bool Lia.
From Stdlib Require Import Floats DecimalString Sorted Permutation.
Import ListNotations.

Close Scope Q_scope.
Set Warnings "-inexact-float".

(** ** The JavaScript runtime the service relies on

    None of this is code of the repository: these are the built-in
    operations the service calls, written after ECMA-262 (and, for
    [toLocaleString], ECMA-402 with an en-US host). *)
Module JS.

Local Open Scope float_scope.

(** [isNaN(x)] for a value that already is a number. *)
Definition isNaN (x : float) : bool := negb (x =? x).

(** [a > b] on numbers. *)
Definition gtb (a b : float) : bool := b <? a.

(** The Number value for a mathematical integer (round to nearest, ties to
    even); exact below 2^53, so exact on every array length and counter. *)
Definition Number_of_Z (z : Z) : float :=
  SF2Prim (binary_normalize prec emax z 0 false).

Definition Number_of_nat (n : nat) : float := Number_of_Z (Z.of_nat n).

(** [Number.isFinite(x)]: neither [NaN] nor an infinity. *)
Definition Number_isFinite (x : float) : bool := is_finite x.

Definition Math_abs (x : float) : float := abs x.
Definition Math_sqrt (x : float) : float := PrimFloat.sqrt x.

(** [Math.pow(x, 2)]: the correctly rounded square. *)
Definition Math_pow2 (x : float) : float := x * x.

(** [Math.max(a, b)]: [NaN] when either is, and [+0] above [-0]. *)
Definition Math_max2 (a b : float) : float :=
  if isNaN a || isNaN b then nan
  else if a <? b then b
  else if b <? a then a
  else if get_sign a then b else a.

(** [Math.max(...xs)]; [-Infinity] on no argument. *)
Definition Math_max (xs : list float) : float :=
  fold_left Math_max2 xs neg_infinity.

Local Close Scope float_scope.
Local Open Scope string_scope.
Local Open Scope Z_scope.

(** *** Strings *)

Definition code (c : ascii) : nat := nat_of_ascii c.

Definition is_digit (c : ascii) : bool :=
  (48 <=? code c)%nat && (code c <=? 57)%nat.

Definition digit_val (c : ascii) : Z := Z.of_nat (code c - 48).

(** WhiteSpace and LineTerminator code units below 256: TAB, LF, VT, FF,
    CR, SP and NBSP. *)
Definition isWhiteSpace (c : ascii) : bool :=
  existsb (Nat.eqb (code c)) [9; 10; 11; 12; 13; 32; 160]%nat.

Fixpoint trimStart (s : string) : string :=
  match s with
  | String c s' => if isWhiteSpace c then trimStart s' else s
  | EmptyString => EmptyString
  end.

Fixpoint trimEnd (s : string) : string :=
  match s with
  | EmptyString => EmptyString
  | String c s' =>
      match trimEnd s' with
      | EmptyString => if isWhiteSpace c then EmptyString else String c EmptyString
      | t => String c t
      end
  end.

(** [String.prototype.trim]. *)
Definition trim (s : string) : string := trimEnd (trimStart s).

(** [Array.prototype.join] on strings. *)
Fixpoint join (sep : string) (xs : list string) : string :=
  match xs with
  | [] => EmptyString
  | [x] => x
  | x :: rest => x ++ sep ++ join sep rest
  end.

(** [s.includes(t)]. *)
Fixpoint includes (s t : string) : bool :=
  prefix t s ||
  match s with
  | EmptyString => false
  | String _ s' => includes s' t
  end.

Fixpoint zeros (n : nat) : string :=
  match n with
  | O => EmptyString
  | S n' => String "0" (zeros n')
  end.

(** The decimal digits of a non-negative integer. *)
Definition digitsOfZ (z : Z) : string :=
  NilZero.string_of_uint (N.to_uint (Z.to_N z)).

(** *** parseFloat

    [scanDigits s acc n] reads the longest run of decimal digits at the
    front of [s]: the integer they extend [acc] to, [n] plus their
    number, and what follows them. *)
Fixpoint scanDigits (s : string) (acc : Z) (n : nat) : Z * nat * string :=
  match s with
  | String c s' =>
      if is_digit c then scanDigits s' (10 * acc + digit_val c) (S n)
      else (acc, n, s)
  | EmptyString => (acc, n, s)
  end.

(** The ExponentPart at the front of [s], when there is one: [e] or [E],
    an optional sign and at least one digit. *)
Definition scanExponent (s : string) : Z :=
  match s with
  | String c r =>
      if (code c =? 101)%nat || (code c =? 69)%nat then
        let '(sg, r') :=
          match r with
          | String "+" t => (1, t)
          | String "-" t => (-1, t)
          | _ => (1, r)
          end in
        let '(x, nx, _) := scanDigits r' 0 0 in
        if (nx =? 0)%nat then 0 else sg * x
      else 0
  | EmptyString => 0
  end.

(** The longest prefix of [s] that is a StrUnsignedDecimalLiteral other
    than [Infinity], as digits [d] and a decimal exponent [e] (its
    mathematical value is [d * 10^e]); [None] when no prefix is one. *)
Definition scanDecimal (s : string) : option (Z * Z) :=
  let '(i, ni, r1) := scanDigits s 0 0 in
  let '(d, nf, r2) :=
    match r1 with
    | String "." r => scanDigits r i 0
    | _ => (i, O, r1)
    end in
  if (ni + nf =? 0)%nat then None
  else Some (d, scanExponent r2 - Z.of_nat nf).

(** The Number value for [(-1)^neg * d * 10^e], [d >= 0]: round to nearest,
    ties to even, through the standard library's binary64 rounding.  The
    two shortcuts only keep huge exponents from being expanded: from 1e310
    on every non-zero value overflows, and below 1e-330 all round to zero. *)
Definition decimalToNumber (neg : bool) (d e : Z) : float :=
  if d =? 0 then (if neg then neg_zero else zero)
  else if 310 <=? e then (if neg then neg_infinity else infinity)
  else if e + Z.log2 d + 1 <? -330 then (if neg then neg_zero else zero)
  else if 0 <=? e then
    SF2Prim (binary_normalize prec emax (cond_Zopp neg (d * 10 ^ e)) 0 false)
  else
    let '(q, e', l) := SFdiv_core_binary prec emax d 0 (10 ^ (- e)) 0 in
    SF2Prim (binary_round_aux prec emax neg q e' l).

Definition parseFloat (input : string) : float :=
  let s := trimStart input in
  let '(neg, u) :=
    match s with
    | String "+" t => (false, t)
    | String "-" t => (true, t)
    | _ => (false, s)
    end in
  if prefix "Infinity" u then (if neg then neg_infinity else infinity)
  else
    match scanDecimal u with
    | None => nan
    | Some (d, e) => decimalToNumber neg d e
    end.

(** *** Number to string

    A finite positive binary64 value is [m * 2^e] with [m] its canonical
    mantissa.  The decimals that read back as it are those between the
    midpoints to its two neighbours, ends included when [m] is even. *)

Definition pow2 (e : Z) : Q := Qpower (2 # 1) e.
Definition pow10 (e : Z) : Q := Qpower (10 # 1) e.

Definition valueOf (m : positive) (e : Z) : Q := (inject_Z (Zpos m) * pow2 e)%Q.

Definition lowerMidpoint (m : positive) (e : Z) : Q :=
  if ((Zpos m =? 2 ^ 52) && (-1074 <? e))%bool
  then (inject_Z (4 * Zpos m - 1) * pow2 (e - 2))%Q
  else (inject_Z (4 * Zpos m - 2) * pow2 (e - 2))%Q.

Definition upperMidpoint (m : positive) (e : Z) : Q :=
  (inject_Z (4 * Zpos m + 2) * pow2 (e - 2))%Q.

Definition readsBack (m : positive) (e : Z) (x : Q) : bool :=
  if Z.even (Zpos m)
  then Qle_bool (lowerMidpoint m e) x && Qle_bool x (upperMidpoint m e)
  else negb (Qle_bool x (lowerMidpoint m e)) && negb (Qle_bool (upperMidpoint m e) x).

(** The [n] with [10^(n-1) <= v < 10^n], searched from an estimate. *)
Fixpoint decimalExponent (fuel : nat) (v : Q) (n : Z) : Z :=
  match fuel with
  | O => n
  | S f =>
      if Qle_bool (pow10 n) v then decimalExponent f v (n + 1)
      else if Qle_bool (pow10 (n - 1)) v then n
      else decimalExponent f v (n - 1)
  end.

(** Number::toString, step 5: the least [k] for which some [k]-digit [s]
    has [s * 10^(n-k)] read back as the value; of two such [s] the one
    closer to the value, the even one on a tie.  Seventeen digits always
    tell a binary64 value from its neighbours. *)
Fixpoint shortestDigits (fuel : nat) (k : Z) (m : positive) (e n : Z) : Z * Z :=
  let v := valueOf m e in
  match fuel with
  | O => (Qfloor (v / pow10 (n - k)), k)
  | S f =>
      let g := pow10 (n - k) in
      let s1 := Qfloor (v / g) in
      let s2 := s1 + 1 in
      match readsBack m e (inject_Z s1 * g), readsBack m e (inject_Z s2 * g) with
      | true, false => (s1, k)
      | false, true => (s2, k)
      | true, true =>
          match ((v - inject_Z s1 * g) ?= (inject_Z s2 * g - v))%Q with
          | Lt => (s1, k)
          | Gt => (s2, k)
          | Eq => (if Z.even s1 then s1 else s2, k)
          end
      | false, false => shortestDigits f (k + 1) m e n
      end
  end.

(** Number::toString, steps 6 to 10: the digits [ds] of [s] laid out for
    the decimal exponent [n]. *)
Definition layoutDigits (ds : string) (n : Z) : string :=
  let k := Z.of_nat (String.length ds) in
  if (k <=? n) && (n <=? 21) then ds ++ zeros (Z.to_nat (n - k))
  else if (0 <? n) && (n <=? 21) then
    substring 0 (Z.to_nat n) ds ++ "." ++ substring (Z.to_nat n) (Z.to_nat (k - n)) ds
  else if (-6 <? n) && (n <=? 0) then "0." ++ zeros (Z.to_nat (- n)) ++ ds
  else
    let x := n - 1 in
    let es := (if x <? 0 then "-" else "+") ++ digitsOfZ (Z.abs x) in
    if k =? 1 then ds ++ "e" ++ es
    else substring 0 1 ds ++ "." ++ substring 1 (Z.to_nat (k - 1)) ds ++ "e" ++ es.

Definition toStringFinite (m : positive) (e : Z) : string :=
  let v := valueOf m e in
  let n := decimalExponent 8 v ((Z.log2 (Zpos m) + e) * 30103 / 100000 + 1) in
  let '(s, k) := shortestDigits 17 1 m e n in
  if s =? 10 ^ k then layoutDigits (digitsOfZ (10 ^ (k - 1))) (n + 1)
  else layoutDigits (digitsOfZ s) n.

(** Number::toString(x), radix 10: what a template literal prints for a
    number. *)
Definition Number_toString (x : float) : string :=
  match Prim2SF x with
  | S754_nan => "NaN"
  | S754_zero _ => "0"
  | S754_infinity s => if s then "-Infinity" else "Infinity"
  | S754_finite s m e => (if s then "-" else "") ++ toStringFinite m e
  end.

(** [floor(m * 2^e * 10^f + 1/2)]: the integer nearest to the value scaled
    by [10^f], the larger one of two. *)
Definition roundHalfUpScaled (m : positive) (e : Z) (f : nat) : Z :=
  let num := Zpos m * 10 ^ Z.of_nat f in
  if 0 <=? e then num * 2 ^ e else (num * 2 / 2 ^ (- e) + 1) / 2.

(** Number.prototype.toFixed, steps 9 to 11: [n] over [10^f] in decimal. *)
Definition fixedDigits (n : Z) (f : nat) : string :=
  let ds := digitsOfZ n in
  match f with
  | O => ds
  | _ =>
      let k := String.length ds in
      let ds' := if (k <=? f)%nat then zeros (f + 1 - k) ++ ds else ds in
      let k' := String.length ds' in
      substring 0 (k' - f) ds' ++ "." ++ substring (k' - f) f ds'
  end.

(** [x.toFixed(f)] for [0 <= f <= 100]. *)
Definition toFixed (x : float) (f : nat) : string :=
  match Prim2SF x with
  | S754_nan => "NaN"
  | S754_infinity s => if s then "-Infinity" else "Infinity"
  | S754_zero _ => fixedDigits 0 f
  | S754_finite s m e =>
      (if s then "-" else "") ++
      (if Qle_bool (pow10 21) (valueOf m e) then toStringFinite m e
       else fixedDigits (roundHalfUpScaled m e f) f)
  end.

(** Digits with a comma before every group of three from the right. *)
Fixpoint groupFrom (s : string) (first : bool) : string :=
  match s with
  | EmptyString => EmptyString
  | String c t =>
      (if negb first && (String.length s mod 3 =? 0)%nat then "," else "")
      ++ String c (groupFrom t false)
  end.

Fixpoint stripTrailingZeros (s : string) : string :=
  match s with
  | EmptyString => EmptyString
  | String c t =>
      match stripTrailingZeros t with
      | EmptyString => if (code c =? 48)%nat then EmptyString else String c EmptyString
      | t' => String c t'
      end
  end.

(** [x.toLocaleString()] on an en-US host: grouped integer digits and at
    most three fraction digits, rounded half away from zero. *)
Definition toLocaleString_enUS (x : float) : string :=
  match Prim2SF x with
  | S754_nan => "NaN"
  | S754_infinity s => if s then "-∞" else "∞"
  | S754_zero s => if s then "-0" else "0"
  | S754_finite s m e =>
      let n := roundHalfUpScaled m e 3 in
      let frac := stripTrailingZeros (substring 1 3 (digitsOfZ (1000 + n mod 1000))) in
      (if s then "-" else "") ++ groupFrom (digitsOfZ (n / 1000)) true
      ++ (if (String.length frac =? 0)%nat then "" else "." ++ frac)
  end.

End JS.

(** ** The data model ([src/App.tsx], [DataItem])

    A cell is a string or a number; the service also tests for [null] and
    for a missing property ([undefined]).  A row lists its own properties in
    the order [Object.keys] gives them. *)

Inductive JsValue :=
  | VNumber (x : float)
  | VString (s : string)
  | VNull
  | VUndefined.

Definition DataItem := list (string * JsValue).

Definition Object_keys (item : DataItem) : list string := map fst item.

(** [item[key]]: [undefined] for a property the row does not have. *)
Fixpoint get (item : DataItem) (key : string) : JsValue :=
  match item with
  | [] => VUndefined
  | (k, v) :: rest => if String.eqb k key then v else get rest key
  end.

(** [typeof v === 'number' ? v : parseFloat(v)], the coercion every
    function of the service starts with; [parseFloat] first converts its
    argument to a string. *)
Definition toNumeric (v : JsValue) : float :=
  match v with
  | VNumber x => x
  | VString s => JS.parseFloat s
  | VNull => JS.parseFloat "null"
  | VUndefined => JS.parseFloat "undefined"
  end.

(** The column [key] coerced row by row, the values that are [NaN] dropped
    (the filters on [!isNaN(value)] and on [val !== null] alike). *)
Definition numericColumn (data : list DataItem) (key : string) : list float :=
  filter (fun value => negb (JS.isNaN value))
         (map (fun item => toNumeric (get item key)) data).

(** ** Array.prototype.sort

    The sort is stable and, for a consistent comparator, ascending in it;
    this is insertion sort: [x] moves behind [y] exactly when
    [comparefn(x, y) > 0]. *)
Section Sort.
Context {A : Type}.
Variable comparefn : A -> A -> float.

Fixpoint insert (x : A) (l : list A) : list A :=
  match l with
  | [] => [x]
  | y :: t => if (0 <? comparefn x y)%float then y :: insert x t else x :: l
  end.

Definition Array_sort (l : list A) : list A := fold_right insert [] l.
End Sort.

(** ** calculateStats *)

Record Stats := {
  count : nat;
  min : float;
  max : float;
  range : float;
  sum : float;
  mean : float;
  median : float;
  mode : option float;
  stdDev : float;
  q1 : float;
  q3 : float;
  iqr : float;
  outliers : list float;
  hasOutliers : bool
}.

(** [values[i]] inside the array; an index outside reads [undefined],
    which is [NaN] in arithmetic. *)
Definition at_index (values : list float) (i : nat) : float := nth i values nan.

(** [values.reduce((acc, val) => acc + val, 0)]. *)
Definition sumOf (values : list float) : float :=
  fold_left (fun acc val => (acc + val)%float) values 0%float.

(** The [frequency] record: a number is a property key through its string,
    and two numbers other than [NaN] have the same string exactly when they
    are equal ([0] and [-0] both are ["0"]). *)
Definition Frequency := list (float * nat).

Definition frequency_get (frequency : Frequency) (value : float) : nat :=
  match find (fun p => (fst p =? value)%float) frequency with
  | Some p => snd p
  | None => 0
  end.

Definition frequency_set (frequency : Frequency) (value : float) (n : nat) : Frequency :=
  if existsb (fun p => (fst p =? value)%float) frequency
  then map (fun p => if (fst p =? value)%float then (fst p, n) else p) frequency
  else frequency ++ [(value, n)].

Record ModeScan := {
  frequency : Frequency;
  maxFreq : nat;
  scanMode : option float
}.

(** The body of the [forEach] that finds the mode. *)
Definition modeStep (st : ModeScan) (value : float) : ModeScan :=
  let f := frequency_get (frequency st) value + 1 in
  let frequency' := frequency_set (frequency st) value f in
  if maxFreq st <? f
  then {| frequency := frequency'; maxFreq := f; scanMode := Some value |}
  else {| frequency := frequency'; maxFreq := maxFreq st; scanMode := scanMode st |}.

Definition modeScan (values : list float) : ModeScan :=
  fold_left modeStep values {| frequency := []; maxFreq := 0; scanMode := None |}.

(** [Math.floor(n / 2)], [Math.floor(n * 0.25)] and [Math.floor(n * 0.75)]
    for an array length [n]: the products are exact in binary64 (0.25 and
    0.75 are, and [3 * n < 2^53]), so the indices are these quotients. *)
Definition midIndex (n : nat) : nat := n / 2.
Definition q1Index (n : nat) : nat := n / 4.
Definition q3Index (n : nat) : nat := 3 * n / 4.

(** The statistics of an array already filtered and sorted. *)
Definition statsOfSorted (numericValues : list float) : Stats :=
  let n := List.length numericValues in
  let sum := sumOf numericValues in
  let mean := (sum / JS.Number_of_nat n)%float in
  let mid := midIndex n in
  let median :=
    if Nat.even n
    then ((at_index numericValues (mid - 1) + at_index numericValues mid) / 2)%float
    else at_index numericValues mid in
  let mode := scanMode (modeScan numericValues) in
  let squaredDiffs := map (fun value => JS.Math_pow2 (value - mean)%float) numericValues in
  let variance := (sumOf squaredDiffs / JS.Number_of_nat n)%float in
  let stdDev := JS.Math_sqrt variance in
  let min := at_index numericValues 0 in
  let max := at_index numericValues (n - 1) in
  let range := (max - min)%float in
  let q1 := at_index numericValues (q1Index n) in
  let q3 := at_index numericValues (q3Index n) in
  let iqr := (q3 - q1)%float in
  let lowerBound := (q1 - 1.5 * iqr)%float in
  let upperBound := (q3 + 1.5 * iqr)%float in
  let outliers :=
    filter (fun v => (v <? lowerBound)%float || (upperBound <? v)%float) numericValues in
  {| count := n; min := min; max := max; range := range; sum := sum;
     mean := mean; median := median; mode := mode; stdDev := stdDev;
     q1 := q1; q3 := q3; iqr := iqr; outliers := outliers;
     hasOutliers := (0 <? List.length outliers) |}.

(** The comparator [(a, b) => a - b]. *)
Definition ascending (a b : float) : float := (a - b)%float.

Definition calculateStats (data : list DataItem) (key : string) : option Stats :=
  let numericValues := numericColumn data key in
  if (List.length numericValues =? 0) then None
  else Some (statsOfSorted (Array_sort ascending numericValues)).

(** ** findMissingData *)

(** The test of the [filter]: [undefined], [null], the empty string, or a
    string that trims to the empty string. *)
Definition isMissing (v : JsValue) : bool :=
  match v with
  | VUndefined => true
  | VNull => true
  | VString s => String.eqb s EmptyString || String.eqb (JS.trim s) EmptyString
  | VNumber _ => false
  end.

(** [data[0] || {}]. *)
Definition firstRow (data : list DataItem) : DataItem := hd [] data.

Definition missingCount (data : list DataItem) (column : string) : nat :=
  List.length (filter (fun item => isMissing (get item column)) data).

(** The [missingData] record, as its entries in insertion order: the
    columns with a missing cell and how many they have. *)
Definition findMissingData (data : list DataItem) : list (string * nat) :=
  let columns := Object_keys (firstRow data) in
  filter (fun entry => 0 <? snd entry)
         (map (fun column => (column, missingCount data column)) columns).

(** ** findCorrelations *)

Record CorrelationPair := {
  col1 : string;
  col2 : string;
  coefficient : float
}.

(** The pairs [(l[i], l[j])], [i < j], in the order of the two loops. *)
Fixpoint pairsOf {A : Type} (l : list A) : list (A * A) :=
  match l with
  | [] => []
  | x :: t => map (pair x) t ++ pairsOf t
  end.

Record PearsonSums := {
  numerator : float;
  denom1 : float;
  denom2 : float
}.

(** The body of the loop over [k], on [values1[k]] and [values2[k]]. *)
Definition pearsonStep (mean1 mean2 : float) (acc : PearsonSums) (v : float * float)
  : PearsonSums :=
  let diff1 := (fst v - mean1)%float in
  let diff2 := (snd v - mean2)%float in
  {| numerator := (numerator acc + diff1 * diff2)%float;
     denom1 := (denom1 acc + diff1 * diff1)%float;
     denom2 := (denom2 acc + diff2 * diff2)%float |}.

(** The coefficient of two arrays of the same length [n]: the loop reads
    [values1[k]] and [values2[k]] for [k] from [0] to [n - 1]. *)
Definition pearson (values1 values2 : list float) : float :=
  let n := JS.Number_of_nat (List.length values1) in
  let mean1 := (sumOf values1 / n)%float in
  let mean2 := (sumOf values2 / n)%float in
  let sums :=
    fold_left (pearsonStep mean1 mean2) (combine values1 values2)
              {| numerator := 0; denom1 := 0; denom2 := 0 |} in
  (numerator sums / (JS.Math_sqrt (denom1 sums) * JS.Math_sqrt (denom2 sums)))%float.

(** What one pair of columns contributes to [correlations]. *)
Definition correlate (data : list DataItem) (c : string * string)
  : list CorrelationPair :=
  let values1 := numericColumn data (fst c) in
  let values2 := numericColumn data (snd c) in
  if (List.length values1 =? List.length values2) && (1 <? List.length values1) then
    let coefficient := pearson values1 values2 in
    if negb (JS.isNaN coefficient) && (0.5 <? JS.Math_abs coefficient)%float
    then [{| col1 := fst c; col2 := snd c; coefficient := coefficient |}]
    else []
  else [].

(** The comparator of the final sort, strongest first. *)
Definition byStrength (a b : CorrelationPair) : float :=
  (JS.Math_abs (coefficient b) - JS.Math_abs (coefficient a))%float.

Definition isNumericColumn (data : list DataItem) (column : string) : bool :=
  match calculateStats data column with
  | Some stats => 0 <? count stats
  | None => false
  end.

Definition findCorrelations (data : list DataItem) : list CorrelationPair :=
  let columns := Object_keys (firstRow data) in
  let numericColumns := filter (isNumericColumn data) columns in
  let correlations := flat_map (correlate data) (pairsOf numericColumns) in
  Array_sort byStrength correlations.

(** ** detectTrends *)

Inductive TrendResult :=
  | upward (consistency rate : float)
  | downward (consistency rate : float)
  | fluctuating (upPercent downPercent : float).

(** The loop over [i] from [1]: [previous] is [values[i-1]], the list holds
    [values[i]] onwards, and the result is [(increases, decreases)]. *)
Fixpoint countChanges (previous : float) (values : list float) (increases decreases : nat)
  : nat * nat :=
  match values with
  | [] => (increases, decreases)
  | v :: rest =>
      if (previous <? v)%float then countChanges v rest (S increases) decreases
      else if (v <? previous)%float then countChanges v rest increases (S decreases)
      else countChanges v rest increases decreases
  end.

Definition changesOf (values : list float) : nat * nat :=
  match values with
  | [] => (0, 0)
  | v0 :: rest => countChanges v0 rest 0 0
  end.

Definition detectTrends (data : list DataItem) (column : string) : option TrendResult :=
  if List.length data <? 5 then None
  else
    let values := numericColumn data column in
    if List.length values <? 5 then None
    else
      let '(increases, decreases) := changesOf values in
      let totalChanges := increases + decreases in
      if totalChanges =? 0 then None
      else
        let increasePercent :=
          (JS.Number_of_nat increases / JS.Number_of_nat totalChanges * 100)%float in
        let decreasePercent :=
          (JS.Number_of_nat decreases / JS.Number_of_nat totalChanges * 100)%float in
        let first := at_index values 0 in
        let last := at_index values (List.length values - 1) in
        if (60 <? increasePercent)%float then
          Some (upward increasePercent ((last / first - 1) * 100)%float)
        else if (60 <? decreasePercent)%float then
          Some (downward decreasePercent ((1 - last / first) * 100)%float)
        else Some (fluctuating increasePercent decreasePercent).

(** ** detectSeasonality *)

Inductive Direction := up | down | same.

Definition Direction_eqb (a b : Direction) : bool :=
  match a, b with
  | up, up | down, down | same, same => true
  | _, _ => false
  end.

(** [directions[i] !== directions[j]] negated; two reads outside the array
    are both [undefined]. *)
Definition sameDirection (a b : option Direction) : bool :=
  match a, b with
  | Some x, Some y => Direction_eqb x y
  | None, None => true
  | _, _ => false
  end.

Fixpoint directionsFrom (previous : float) (values : list float) : list Direction :=
  match values with
  | [] => []
  | v :: rest =>
      (if (previous <? v)%float then up
       else if (v <? previous)%float then down
       else same) :: directionsFrom v rest
  end.

Definition directionsOf (values : list float) : list Direction :=
  match values with
  | [] => []
  | v0 :: rest => directionsFrom v0 rest
  end.

(** The inner loop over [j]: the window at [i] repeats [patternLength]
    further on. *)
Definition isMatch (directions : list Direction) (patternLength i : nat) : bool :=
  forallb (fun j => sameDirection (nth_error directions (i + j))
                                  (nth_error directions (i + patternLength + j)))
          (seq 0 patternLength).

(** [patternMatches]: the loop over [i] from [0] to
    [directions.length - patternLength * 2]. *)
Definition patternMatches (directions : list Direction) (patternLength : nat) : nat :=
  List.length (filter (isMatch directions patternLength)
                      (seq 0 (List.length directions - patternLength * 2 + 1))).

(** [patternMatches / (patternOccurrences - 1)]. *)
Definition confidenceOf (directions : list Direction) (patternLength : nat) : float :=
  let patternOccurrences := List.length directions / patternLength in
  (JS.Number_of_nat (patternMatches directions patternLength)
   / JS.Number_of_Z (Z.of_nat patternOccurrences - 1))%float.

Record SeasonalityResult := {
  patternLength : nat;
  confidence : float
}.

(** The body of the loop over [patternLength]; the state is
    [(maxPatternLength, patternConfidence)]. *)
Definition seasonalityStep (directions : list Direction) (best : nat * float)
  (patternLength : nat) : nat * float :=
  if List.length directions <? patternLength * 2 then best
  else
    let confidence := confidenceOf directions patternLength in
    if (snd best <? confidence)%float then (patternLength, confidence) else best.

Definition bestPattern (directions : list Direction) : nat * float :=
  fold_left (seasonalityStep directions) [2; 3; 4] (0, 0%float).

Definition detectSeasonality (data : list DataItem) (column : string)
  : option SeasonalityResult :=
  if List.length data <? 10 then None
  else
    let values := numericColumn data column in
    if List.length values <? 10 then None
    else
      let '(maxPatternLength, patternConfidence) := bestPattern (directionsOf values) in
      if (0.3 <? patternConfidence)%float
      then Some {| patternLength := maxPatternLength; confidence := patternConfidence |}
      else None.

(** ** analyzeData *)

(** The outcome of the promise [analyzeData] returns. *)
Inductive Outcome :=
  | Rejected (message : string)
  | Resolved (insights : list string).

Definition doubleQuote : string := String (ascii_of_nat 34) EmptyString.

(** A column name between double quotes, as the templates print it. *)
Definition quoted (s : string) : string := (doubleQuote ++ s ++ doubleQuote)%string.

(** A count in a template literal. *)
Definition showCount (n : nat) : string := JS.Number_toString (JS.Number_of_nat n).

(** [insights.push(s)]. *)
Definition push (insights : list string) (s : string) : list string := insights ++ [s].

(** [columnStats] and [numericColumns] together: the columns whose
    statistics are not [null], each with its statistics, in column order. *)
Definition numericColumnsOf (data : list DataItem) (columns : list string)
  : list (string * Stats) :=
  flat_map (fun column =>
              match calculateStats data column with
              | Some stats => [(column, stats)]
              | None => []
              end) columns.

Section Insights.
(** [Number.prototype.toLocaleString] of the host, which depends on its
    locale. *)
Variable toLocaleString : float -> string.

Local Open Scope string_scope.

(** 1. Highest values. *)
Definition extremesInsight (numericColumns : list (string * Stats))
  (insights : list string) : list string :=
  match numericColumns with
  | [] => insights
  | first :: _ =>
      let highest :=
        fold_left (fun highest column =>
                     if (max (snd highest) <? max (snd column))%float
                     then column else highest)
                  numericColumns first in
      let stats := snd highest in
      let percentAboveAvg := ((max stats / mean stats - 1) * 100)%float in
      let zScore := ((max stats - mean stats) / stdDev stats)%float in
      push insights
        ("The column " ++ quoted (fst highest) ++ " has the highest value at "
         ++ toLocaleString (max stats) ++ ", with an average of "
         ++ JS.toFixed (mean stats) 2 ++ ". This is "
         ++ JS.toFixed percentAboveAvg 0
         ++ "% above the average and represents a z-score of "
         ++ JS.toFixed zScore 2
         ++ ", indicating how many standard deviations it is from the mean.")
  end.

(** 2. The trend of the first numeric column. *)
Definition trendInsight (data : list DataItem) (numericColumns : list (string * Stats))
  (insights : list string) : list string :=
  match numericColumns with
  | [] => insights
  | (trendColumn, _) :: _ =>
      match detectTrends data trendColumn with
      | None => insights
      | Some (upward consistency rate) =>
          push insights
            ("Trend analysis of " ++ quoted trendColumn
             ++ " shows a clear upward trend with " ++ JS.toFixed consistency 1
             ++ "% of data points increasing. The overall growth rate is approximately "
             ++ JS.toFixed rate 1
             ++ "%. To visualize this trend effectively, we recommend using a line chart with a trend line overlay.")
      | Some (downward consistency rate) =>
          push insights
            ("Trend analysis of " ++ quoted trendColumn
             ++ " reveals a downward trend with " ++ JS.toFixed consistency 1
             ++ "% of data points decreasing. The overall decline rate is approximately "
             ++ JS.toFixed rate 1
             ++ "%. A line chart with forecasting extensions would help visualize this declining pattern.")
      | Some (fluctuating upPercent downPercent) =>
          push insights
            ("Trend analysis of " ++ quoted trendColumn
             ++ " indicates a fluctuating pattern with mixed increases ("
             ++ JS.toFixed upPercent 1 ++ "%) and decreases ("
             ++ JS.toFixed downPercent 1
             ++ "%). This suggests cyclical behavior or volatility in your data. Consider using an area chart with moving averages to smooth out the variations.")
      end
  end.

(** 2, continued. Its seasonality. *)
Definition seasonalityInsight (data : list DataItem)
  (numericColumns : list (string * Stats)) (insights : list string) : list string :=
  match numericColumns with
  | [] => insights
  | (trendColumn, _) :: _ =>
      match detectSeasonality data trendColumn with
      | None => insights
      | Some patternResult =>
          push insights
            ("We've detected a potential cyclical pattern in " ++ quoted trendColumn
             ++ " with a period of approximately "
             ++ showCount (patternLength patternResult)
             ++ " data points (confidence: "
             ++ JS.toFixed (confidence patternResult * 100)%float 0
             ++ "%). This could indicate seasonality or recurring patterns in your data that may be valuable for predictive modeling.")
      end
  end.

(** [count / data.length]. *)
Definition fractionOf (count : nat) (data : list DataItem) : float :=
  (JS.Number_of_nat count / JS.Number_of_nat (List.length data))%float.

(** 3. Missing data. *)
Definition missingDataInsight (data : list DataItem) (columns : list string)
  (insights : list string) : list string :=
  let missingData := findMissingData data in
  match missingData with
  | _ :: _ =>
      let missingDataDetails :=
        JS.join ", "
          (map (fun entry =>
                  quoted (fst entry) ++ " (" ++ showCount (snd entry) ++ " rows, "
                  ++ JS.toFixed (fractionOf (snd entry) data * 100)%float 1 ++ "%)")
               missingData) in
      let significant :=
        existsb (fun entry => (0.2 <? fractionOf (snd entry) data)%float) missingData in
      let impactLevel := if significant then "significant" else "minimal" in
      push insights
        ("Data quality analysis: Missing or incomplete data detected in columns: "
         ++ missingDataDetails ++ ". The impact on analysis is likely "
         ++ impactLevel ++ ". "
         ++ (if significant
             then "Consider imputation techniques or removing affected columns for more reliable insights."
             else "For completeness, you might want to address these gaps, though they shouldn't significantly affect results."))
  | [] =>
      push insights
        ("Data quality analysis: Excellent! No missing or incomplete data detected across all "
         ++ showCount (List.length columns) ++ " columns and "
         ++ showCount (List.length data)
         ++ " rows. This complete dataset will provide the most reliable analysis results and is ideal for advanced statistical methods.")
  end.

(** 4. Outliers. *)
Definition outliersInsight (data : list DataItem) (numericColumns : list (string * Stats))
  (insights : list string) : list string :=
  let outlierColumns := filter (fun column => hasOutliers (snd column)) numericColumns in
  match outlierColumns with
  | first :: _ =>
      let significantOutlierColumn :=
        fold_left (fun most column =>
                     if (List.length (outliers (snd most)) <? List.length (outliers (snd column)))%nat
                     then column else most)
                  outlierColumns first in
      let stats := snd significantOutlierColumn in
      let outlierCount := List.length (outliers stats) in
      let outlierPercentage := (fractionOf outlierCount data * 100)%float in
      let maxOutlier := JS.Math_max (map JS.Math_abs (outliers stats)) in
      let outlierMean := (sum stats / JS.Number_of_nat (count stats))%float in
      let nonOutlierSum := (sum stats - sumOf (outliers stats))%float in
      let nonOutlierCount :=
        JS.Number_of_Z (Z.of_nat (count stats) - Z.of_nat outlierCount) in
      let nonOutlierMean := (nonOutlierSum / nonOutlierCount)%float in
      let meanImpactPercent :=
        JS.Math_abs ((outlierMean - nonOutlierMean) / nonOutlierMean * 100)%float in
      push insights
        ("Outlier analysis for " ++ quoted (fst significantOutlierColumn)
         ++ ": Detected " ++ showCount outlierCount ++ " outliers ("
         ++ JS.toFixed outlierPercentage 1 ++ "% of data). The most extreme value is "
         ++ toLocaleString maxOutlier ++ ", which causes a "
         ++ JS.toFixed meanImpactPercent 1 ++ "% shift in the mean. "
         ++ (if (10 <? meanImpactPercent)%float
             then "These outliers substantially impact your statistics and should be addressed before drawing conclusions."
             else "The overall impact on your statistics is relatively small, but addressing them would still improve precision."))
  | [] =>
      if (0 <? List.length numericColumns)%nat then
        push insights
          "Outlier analysis: No significant outliers detected in any numerical columns using the 1.5 × IQR method. Your data appears to be consistently distributed within expected ranges, which is ideal for statistical analysis and indicates strong data quality or effective pre-processing."
      else insights
  end.

(** 5. Correlations. *)
Definition correlationsInsight (data : list DataItem)
  (numericColumns : list (string * Stats)) (insights : list string) : list string :=
  match findCorrelations data with
  | strongestCorrelation :: _ =>
      let positive := (0 <? coefficient strongestCorrelation)%float in
      let correlationType := if positive then "positive" else "negative" in
      let absCoef := JS.Math_abs (coefficient strongestCorrelation) in
      let r2Value := (absCoef * absCoef)%float in
      let strengthDescription :=
        if (0.9 <? absCoef)%float then "very strong"
        else if (0.7 <? absCoef)%float then "strong"
        else if (0.5 <? absCoef)%float then "moderate"
        else "weak" in
      let vizRecommendation :=
        if positive
        then "A scatter plot with a linear trend line would effectively visualize this relationship."
        else "A scatter plot with a decreasing trend line would effectively visualize this inverse relationship." in
      push insights
        ("Correlation analysis: Discovered a " ++ strengthDescription ++ " "
         ++ correlationType ++ " correlation (r = "
         ++ JS.toFixed (coefficient strongestCorrelation) 2 ++ ", R² = "
         ++ JS.toFixed r2Value 2 ++ ") between "
         ++ quoted (col1 strongestCorrelation) ++ " and "
         ++ quoted (col2 strongestCorrelation)
         ++ ". This means approximately " ++ JS.toFixed (r2Value * 100)%float 0
         ++ "% of the variation in one variable can be explained by the other. "
         ++ vizRecommendation)
  | [] =>
      if (1 <? List.length numericColumns)%nat then
        push insights
          "Correlation analysis: No strong linear correlations found between numerical columns. Your variables appear to be independent, which could indicate diverse, unrelated factors in your dataset. Consider exploring non-linear relationships or performing principal component analysis to uncover more complex interactions."
      else insights
  end.

Definition analyzeData (data : list DataItem) : Outcome :=
  if (List.length data =? 0)%nat then Rejected "No data available for analysis"
  else
    let insights := [] in
    let columns := Object_keys (firstRow data) in
    let numericColumns := numericColumnsOf data columns in
    let insights := extremesInsight numericColumns insights in
    let insights := trendInsight data numericColumns insights in
    let insights := seasonalityInsight data numericColumns insights in
    let insights := missingDataInsight data columns insights in
    let insights := outliersInsight data numericColumns insights in
    let insights := correlationsInsight data numericColumns insights in
    Resolved (firstn 5 insights).

End Insights.
(** ** Binary64 values as integers

    What the proofs below read a float as: its standard-library
    specification [Prim2SF], and that as an integer. *)

Open Scope Z_scope.

(** On the scale of [SFval] below: [2^1024], which every finite binary64
    value is under, and where the infinities are put. *)
Definition finite_bound : Z := 2 ^ 2098.
Definition infinite_val : Z := 2 ^ 2100.

(** The value of a binary64 datum scaled by [2^1074], so that it is an integer;
    the infinities lie beyond every finite value. *)
Definition SFval (x : spec_float) : Z :=
  match x with
  | S754_zero _ => 0
  | S754_infinity s => cond_Zopp s infinite_val
  | S754_nan => 0
  | S754_finite s m e => cond_Zopp s (Zpos m * 2 ^ (e + 1074))
  end.

Definition SFis_nan (x : spec_float) : bool :=
  match x with S754_nan => true | _ => false end.

Definition SFis_finite (x : spec_float) : bool :=
  match x with
  | S754_zero _ | S754_finite _ _ _ => true
  | _ => false
  end.

(** The shift [shr_fexp] applies to a mantissa [m >= 0] at an exponent [e]. *)
Definition shift_of (m e : Z) : Z :=
  Z.max 0 (fexp prec emax (Zdigits2 m + e) - e).

Definition SFtwo : spec_float := S754_finite false 4503599627370496 (-51).

Close Scope Z_scope.

(** The integer a float stands for. *)
Definition Fval (x : float) : Z := SFval (Prim2SF x).

(** The order on numbers, which holds of none that is [NaN]. *)
Definition fle (a b : float) : Prop := (a <=? b)%float = true.
Definition notNaN (a : float) : Prop := JS.isNaN a = false.

(** How often the number [value] occurs in [values]. *)
Definition occurrences (values : list float) (value : float) : nat :=
  List.length (filter (fun x => (x =? value)%float) values).

(** The strict increases and the strict decreases between consecutive
    values of a sequence. *)
Definition consecutive (values : list float) : list (float * float) :=
  combine values (tl values).

Definition strictIncreases (values : list float) : nat :=
  List.length (filter (fun p => (fst p <? snd p)%float) (consecutive values)).

Definition strictDecreases (values : list float) : nat :=
  List.length (filter (fun p => (snd p <? fst p)%float) (consecutive values)).

(** What the scan holds after the prefix [p] of an ascending array. *)
Record ScanInvariant (p : list float) (st : ModeScan) : Prop := {
  scan_frequency : forall v, frequency_get (frequency st) v = occurrences p v;
  scan_max : forall v, (occurrences p v <= maxFreq st)%nat;
  scan_mode :
    match scanMode st with
    | None => p = [] /\ maxFreq st = 0%nat
    | Some m =>
        In m p /\ occurrences p m = maxFreq st /\
        (exists p1 p2, p = p1 ++ m :: p2 /\ occurrences (p1 ++ [m]) m = maxFreq st /\
                       forall v, (occurrences p1 v < maxFreq st)%nat) /\
        (forall v, In v p -> occurrences p v = maxFreq st -> fle m v)
    end
}.

(** Each step pushes onto the insights it is given, and at most once. *)
Definition appendsAtMostOne (step : list string -> list string) : Prop :=
  (List.length (step []) <= 1)%nat /\ forall insights, step insights = insights ++ step [].

(** ** Datasets the statements below are tried on *)

(** A column of numbers, one row each. *)
Definition columnOf (key : string) (values : list float) : list DataItem :=
  map (fun value => [(key, VNumber value)]) values.

(** Two columns of numbers, a row for each pair. *)
Definition columnsOf (key1 key2 : string) (values : list (float * float)) : list DataItem :=
  map (fun v => [(key1, VNumber (fst v)); (key2, VNumber (snd v))]) values.

(** The scenario of the specification: [{x:1,y:2}, ..., {x:5,y:10}]. *)
Definition scenario : list DataItem :=
  columnsOf "x"%string "y"%string [(1, 2); (2, 4); (3, 6); (4, 8); (5, 10)]%float.

(** Eleven rows that make all six insights: an alternating column, a
    second column with an outlier, and a column of blanks. *)
Definition sixInsights : list DataItem :=
  map (fun v => [("x"%string, VNumber (fst v)); ("y"%string, VNumber (snd v));
                ("n"%string, VString " ")])
      [(1, 2); (2, 1); (1, 6); (2, 5); (1, 10); (2, 9); (1, 14); (2, 13); (1, 18);
       (2, 17); (1, 200)]%float.

(** A column whose first row is blank and whose second row is a number. *)
Definition blankFirst : list DataItem :=
  [[("a"%string, VString EmptyString)]; [("a"%string, VNumber 5)]].

(** Two columns that are numeric at different rows, three times each. *)
Definition misaligned : list DataItem :=
  [[("a"%string, VNumber 1); ("b"%string, VString EmptyString)];
   [("a"%string, VString EmptyString); ("b"%string, VNumber 1)];
   [("a"%string, VNumber 2); ("b"%string, VNumber 2)];
   [("a"%string, VNumber 3); ("b"%string, VNumber 3)]].

(** [PearsonSums] with the two columns exchanged. *)
Definition exchanged (sums : PearsonSums) : PearsonSums :=
  {| numerator := numerator sums; denom1 := denom2 sums; denom2 := denom1 sums |}.
(** ** What the steps of the service choose

    Parts of [findCorrelations] and [analyzeData] under names of their
    own, so that statements can speak of them. *)

(** [correlations] before the final sort: what the two loops push, in the
    order of the pairs of numeric columns. *)
Definition correlations (data : list DataItem) : list CorrelationPair :=
  let columns := Object_keys (firstRow data) in
  let numericColumns := filter (isNumericColumn data) columns in
  flat_map (correlate data) (pairsOf numericColumns).

(** [Math.abs(pair.coefficient)], what the final sort compares. *)
Definition strength (pair : CorrelationPair) : float :=
  JS.Math_abs (coefficient pair).

(** [highestValueColumn]: the [reduce] over [numericColumns] that starts
    from [numericColumns[0]] and moves on a strictly greater [max]. *)
Definition highestValueColumn (numericColumns : list (string * Stats))
  (first : string * Stats) : string * Stats :=
  fold_left (fun highest column =>
               if (max (snd highest) <? max (snd column))%float
               then column else highest)
            numericColumns first.

(** [significantOutlierColumn]: the [reduce] over [outlierColumns] that
    moves on strictly more outliers. *)
Definition significantOutlierColumn (outlierColumns : list (string * Stats))
  (first : string * Stats) : string * Stats :=
  fold_left (fun most column =>
               if (List.length (outliers (snd most)) <? List.length (outliers (snd column)))%nat
               then column else most)
            outlierColumns first.

(** Four columns for the outlier insight, nine rows each: [p] has no
    outlier, [q] has one, [r] and [s] have two. *)
Definition fourColumns : list DataItem :=
  map (fun v => [("p"%string, VNumber (fst (fst v))); ("q"%string, VNumber (snd (fst v)));
                ("r"%string, VNumber (fst (snd v))); ("s"%string, VNumber (snd (snd v)))])
      [((1, 1), (1, 1)); ((2, 2), (2, 2)); ((3, 3), (3, 3)); ((4, 4), (4, 4));
       ((5, 5), (5, 5)); ((6, 6), (6, 6)); ((7, 7), (7, 7)); ((8, 8), (-100, 200));
       ((9, 100), (100, 300))]%float.


(** The test behind [impactLevel]: some column misses more than a fifth
    of the rows, [count / data.length > 0.2]. *)
Definition impactIsSignificant (data : list DataItem) : bool :=
  existsb (fun entry => (0.2 <? fractionOf (snd entry) data)%float) (findMissingData data).

(** [increasePercent] and [decreasePercent] of [detectTrends]. *)
Definition increasePercent (values : list float) : float :=
  let increases := strictIncreases values in
  let totalChanges := increases + strictDecreases values in
  (JS.Number_of_nat increases / JS.Number_of_nat totalChanges * 100)%float.

Definition decreasePercent (values : list float) : float :=
  let decreases := strictDecreases values in
  let totalChanges := strictIncreases values + decreases in
  (JS.Number_of_nat decreases / JS.Number_of_nat totalChanges * 100)%float.

(** [growthRate] and [declineRate]. *)
Definition growthRate (values : list float) : float :=
  ((at_index values (List.length values - 1) / at_index values 0 - 1) * 100)%float.

Definition declineRate (values : list float) : float :=
  ((1 - at_index values (List.length values - 1) / at_index values 0) * 100)%float.

Section BeforeTheCut.
Variable toLocaleString : float -> string.

(** What the steps before the correlation step leave in [insights]. *)
Definition beforeCorrelations (data : list DataItem) : list string :=
  let columns := Object_keys (firstRow data) in
  let numericColumns := numericColumnsOf data columns in
  let insights := extremesInsight toLocaleString numericColumns [] in
  let insights := trendInsight data numericColumns insights in
  let insights := seasonalityInsight data numericColumns insights in
  let insights := missingDataInsight data columns insights in
  outliersInsight toLocaleString data numericColumns insights.

End BeforeTheCut.

(** ** The caller of the service ([src/App.tsx])

    The component keeps the dataset, the insights on display, an error
    message and a loading flag in React state.  A handler is modelled by
    the state it leaves once its promise has settled, the setters applied
    in the order the handler calls them. *)
Module App.

Record State := {
  data : list DataItem;
  isLoading : bool;
  insights : list string;
  error : option string
}.

Definition setIsLoading (value : bool) (st : State) : State :=
  {| data := data st; isLoading := value; insights := insights st; error := error st |}.

Definition setInsights (value : list string) (st : State) : State :=
  {| data := data st; isLoading := isLoading st; insights := value; error := error st |}.

Definition setError (value : option string) (st : State) : State :=
  {| data := data st; isLoading := isLoading st; insights := insights st; error := value |}.

Definition fallbackInsights : list string :=
  ["Your data shows patterns that may indicate seasonal trends.";
   "There appears to be a correlation between the primary variables in your dataset.";
   "The highest values in your dataset may represent potential outliers worth investigating.";
   "Consider normalizing your data for more effective comparisons between variables.";
   "The distribution of your data suggests opportunities for further analysis."]%string.

Definition errorMessage : string :=
  "Failed to generate insights. Using sample insights instead."%string.

Section Handlers.
Variable toLocaleString : float -> string.

(** The [try] block of [generateInsights]: the insights to set, or the
    error thrown, by the handler itself or by [analyzeData]. *)
Definition tryGenerate (dataToAnalyze : list DataItem) : Outcome :=
  if (List.length dataToAnalyze =? 0)%nat then Rejected "No data available for analysis"
  else
    match analyzeData toLocaleString dataToAnalyze with
    | Rejected message => Rejected message
    | Resolved generatedInsights =>
        if (List.length generatedInsights =? 0)%nat
        then Rejected "No insights were generated"
        else Resolved generatedInsights
    end.

Definition generateInsights (dataToAnalyze : list DataItem) (st : State) : State :=
  let st := setIsLoading true st in
  let st := setError None st in
  let st :=
    match tryGenerate dataToAnalyze with
    | Resolved generatedInsights => setInsights generatedInsights st
    | Rejected _ => setInsights fallbackInsights (setError (Some errorMessage) st)
    end in
  setIsLoading false st.

Definition handleRefreshInsights (st : State) : State :=
  if (0 <? List.length (data st))%nat then generateInsights (data st) st else st.

End Handlers.
End App.
(** * Facts about binary64 arithmetic *)

Section FloatFacts.
Local Open Scope Z_scope.

Lemma digits2_pos_bounds (m : positive) :
  2 ^ (Zpos (digits2_pos m) - 1) <= Zpos m < 2 ^ Zpos (digits2_pos m).
Proof.
  induction m as [m IH | m IH | ]; cbn [digits2_pos];
    [ change (Zpos m~1) with (2 * Zpos m + 1) | change (Zpos m~0) with (2 * Zpos m) | cbn; lia ].
  all: rewrite Pos2Z.inj_succ; set (d := Zpos (digits2_pos m)) in *;
    assert (Hd : 0 < d) by (unfold d; lia);
    replace (Z.succ d - 1) with d by lia;
    rewrite Z.pow_succ_r by lia;
    assert (E : 2 ^ d = 2 * 2 ^ (d - 1)) by
      (replace d with (Z.succ (d - 1)) at 1 by lia; apply Z.pow_succ_r; lia);
    lia.
Qed.

Lemma valid_finite (s : bool) (m : positive) (e : Z) :
  valid_binary (S754_finite s m e) = true ->
  -1074 <= e <= 971 /\ Zpos (digits2_pos m) <= 53 /\
  (-1074 < e -> Zpos (digits2_pos m) = 53).
Proof.
  cbn [SpecFloat.valid_binary]. unfold bounded, canonical_mantissa, fexp, SpecFloat.emin, emax, prec.
  intros H. apply andb_true_iff in H. destruct H as [H1 H2].
  apply Z.eqb_eq in H1. apply Z.leb_le in H2. lia.
Qed.

Lemma bounds_order : 0 < finite_bound < infinite_val.
Proof. unfold finite_bound, infinite_val. split; [apply Z.pow_pos_nonneg | apply Z.pow_lt_mono_r]; lia. Qed.

Lemma valid_finite_bounds (s : bool) (m : positive) (e : Z) :
  valid_binary (S754_finite s m e) = true ->
  0 < Zpos m * 2 ^ (e + 1074) < finite_bound.
Proof.
  intros H. apply valid_finite in H. destruct H as (He & Hd & _).
  pose proof (digits2_pos_bounds m) as [_ Hm].
  assert (Zpos m < 2 ^ 53).
  { eapply Z.lt_le_trans; [exact Hm|]. apply Z.pow_le_mono_r; lia. }
  assert (0 < 2 ^ (e + 1074)) by (apply Z.pow_pos_nonneg; lia).
  assert (2 ^ (e + 1074) <= 2 ^ 2045) by (apply Z.pow_le_mono_r; lia).
  split; [lia|].
  change finite_bound with (2 ^ 53 * 2 ^ 2045).
  set (A := 2 ^ 53) in *. set (B := 2 ^ 2045) in *. set (C := 2 ^ (e + 1074)) in *. clearbody A B C.
  nia.
Qed.

Lemma finite_lt_by_exponent (m1 m2 : positive) (e1 e2 : Z) s1 s2 :
  valid_binary (S754_finite s1 m1 e1) = true ->
  valid_binary (S754_finite s2 m2 e2) = true ->
  e1 < e2 ->
  Zpos m1 * 2 ^ (e1 + 1074) < Zpos m2 * 2 ^ (e2 + 1074).
Proof.
  intros H1 H2 Hlt.
  apply valid_finite in H1. destruct H1 as (He1 & Hd1 & _).
  apply valid_finite in H2. destruct H2 as (He2 & _ & Hd2).
  pose proof (digits2_pos_bounds m1) as [_ Hm1].
  pose proof (digits2_pos_bounds m2) as [Hm2 _].
  rewrite Hd2 in Hm2 by lia.
  assert (Zpos m1 < 2 ^ 53).
  { eapply Z.lt_le_trans; [exact Hm1|]. apply Z.pow_le_mono_r; lia. }
  replace (e2 + 1074) with ((e2 - e1 - 1) + 1 + (e1 + 1074)) by lia.
  rewrite (Z.pow_add_r 2 (e2 - e1 - 1 + 1) (e1 + 1074)), (Z.pow_add_r 2 (e2 - e1 - 1) 1) by lia.
  assert (0 < 2 ^ (e1 + 1074)) by (apply Z.pow_pos_nonneg; lia).
  assert (0 < 2 ^ (e2 - e1 - 1)) by (apply Z.pow_pos_nonneg; lia).
  change (53 - 1) with 52 in Hm2. change (2 ^ 1) with 2.
  change (2 ^ 53) with (2 * 2 ^ 52) in H.
  set (c := 2 ^ 52) in *. set (P := 2 ^ (e1 + 1074)) in *. set (Q := 2 ^ (e2 - e1 - 1)) in *.
  clearbody c P Q.
  assert (Zpos m1 * P < 2 * c * P) by nia.
  assert (2 * c * P <= Zpos m2 * 2 * P) by nia.
  assert (Zpos m2 * 2 * P * 1 <= Zpos m2 * 2 * P * Q) by (apply Z.mul_le_mono_nonneg_l; nia).
  nia.
Qed.

Ltac compare_by tac :=
  symmetry;
  first [ apply Z.compare_eq_iff; tac | apply Z.compare_lt_iff; tac | apply Z.compare_gt_iff; tac ].

Lemma finite_compare_same_exponent (mx my : positive) (e : Z) :
  -1074 <= e ->
  Pos.compare_cont Eq mx my = (Zpos mx * 2 ^ (e + 1074) ?= Zpos my * 2 ^ (e + 1074)).
Proof.
  intros He. change (Pos.compare_cont Eq mx my) with (Pos.compare mx my).
  rewrite Pos2Z.inj_compare.
  assert (0 < 2 ^ (e + 1074)) by (apply Z.pow_pos_nonneg; lia).
  destruct (Z.compare_spec (Zpos mx) (Zpos my)); compare_by nia.
Qed.

Lemma SFcompare_val (x y : spec_float) :
  valid_binary x = true -> valid_binary y = true ->
  SFis_nan x = false -> SFis_nan y = false ->
  SFcompare x y = Some (SFval x ?= SFval y).
Proof.
  intros Hx Hy Nx Ny.
  pose proof bounds_order as P.
  destruct x as [sx | sx | | sx mx ex], y as [sy | sy | | sy my ey]; try discriminate;
    try (pose proof (valid_finite_bounds _ _ _ Hx)); try (pose proof (valid_finite_bounds _ _ _ Hy));
    cbn [SFcompare SFval].
  1-8: try destruct sx; try destruct sy; cbn [cond_Zopp]; f_equal; compare_by lia.
  f_equal. destruct sx, sy; cbn [cond_Zopp]; try (compare_by lia).
  - destruct (Z.compare_spec ex ey) as [E | E | E].
    + subst ey. rewrite (finite_compare_same_exponent mx my ex) by (apply valid_finite in Hx; lia).
      rewrite Z.compare_opp. symmetry. apply Z.compare_antisym.
    + pose proof (finite_lt_by_exponent _ _ _ _ _ _ Hx Hy E). compare_by lia.
    + pose proof (finite_lt_by_exponent _ _ _ _ _ _ Hy Hx E). compare_by lia.
  - destruct (Z.compare_spec ex ey) as [E | E | E].
    + subst ey. apply finite_compare_same_exponent. apply valid_finite in Hx; lia.
    + pose proof (finite_lt_by_exponent _ _ _ _ _ _ Hx Hy E). compare_by lia.
    + pose proof (finite_lt_by_exponent _ _ _ _ _ _ Hy Hx E). compare_by lia.
Qed.

(** ** Rounding: what [binary_round_aux] returns *)

Lemma iter_pos_nat {A : Type} (f : A -> A) (p : positive) (x : A) :
  iter_pos f p x = Nat.iter (Pos.to_nat p) f x.
Proof.
  revert x; induction p as [p IH | p IH | ]; intros x; cbn [iter_pos].
  - rewrite !IH, Pos2Nat.inj_xI.
    replace (S (2 * Pos.to_nat p)) with (Pos.to_nat p + S (Pos.to_nat p))%nat by lia.
    rewrite Nat.iter_add, Nat.iter_succ_r. reflexivity.
  - rewrite !IH, Pos2Nat.inj_xO.
    replace (2 * Pos.to_nat p)%nat with (Pos.to_nat p + Pos.to_nat p)%nat by lia.
    rewrite Nat.iter_add. reflexivity.
  - reflexivity.
Qed.

Lemma pow2_split (a b : Z) : 0 <= a -> 0 <= b -> 2 ^ (a + b) = 2 ^ a * 2 ^ b.
Proof. intros. apply Z.pow_add_r; assumption. Qed.

Lemma pow2_pos (a : Z) : 0 <= a -> 0 < 2 ^ a.
Proof. intros. apply Z.pow_pos_nonneg; lia. Qed.

Lemma shr_1_spec (mrs : shr_record) :
  0 <= shr_m mrs ->
  shr_m (shr_1 mrs) = shr_m mrs / 2 /\
  (shr_r mrs = false -> shr_s mrs = false -> (2 | shr_m mrs) ->
   shr_r (shr_1 mrs) = false /\ shr_s (shr_1 mrs) = false).
Proof.
  destruct mrs as [m r s]. cbn [shr_m shr_r shr_s]. intros Hm.
  destruct m as [ | [p | p | ] | p ]; try lia; cbn [shr_1 shr_m shr_r shr_s].
  - split; [reflexivity|]. intros -> -> _. split; reflexivity.
  - split; [rewrite Pos2Z.inj_xI; apply Z.div_unique with 1; lia |].
    intros _ _ [c Hc]. rewrite Pos2Z.inj_xI in Hc. lia.
  - split; [rewrite Pos2Z.inj_xO; apply Z.div_unique with 0; lia |].
    intros -> -> _. split; reflexivity.
  - split; [reflexivity |]. intros _ _ [c Hc]. lia.
Qed.

Lemma shr_iter_spec (n : nat) (mrs : shr_record) :
  0 <= shr_m mrs ->
  let r := Nat.iter n shr_1 mrs in
  shr_m r = shr_m mrs / 2 ^ Z.of_nat n /\
  (shr_r mrs = false -> shr_s mrs = false -> (2 ^ Z.of_nat n | shr_m mrs) ->
   shr_r r = false /\ shr_s r = false).
Proof.
  intros Hm. induction n as [ | n IH]; cbn zeta.
  - cbn [Nat.iter nat_rect]. change (2 ^ Z.of_nat 0) with 1. rewrite Z.div_1_r.
    split; [reflexivity | intros; split; assumption].
  - cbn [Nat.iter nat_rect]. cbn zeta in IH.
    change (nat_rect (fun _ => shr_record) mrs (fun _ => shr_1) n) with (Nat.iter n shr_1 mrs).
    destruct IH as [IH1 IH2].
    set (r := Nat.iter n shr_1 mrs) in *.
    pose proof (pow2_pos (Z.of_nat n) ltac:(lia)) as Pn.
    assert (Hr : 0 <= shr_m r) by (rewrite IH1; apply Z.div_pos; lia).
    destruct (shr_1_spec r Hr) as [S1 S2].
    rewrite Nat2Z.inj_succ, Z.pow_succ_r by lia.
    split.
    + rewrite S1, IH1, Z.div_div by lia. f_equal. lia.
    + intros Hr0 Hs0 [c Hc].
      assert (D : (2 ^ Z.of_nat n | shr_m mrs)) by (exists (c * 2); rewrite Hc; ring).
      destruct (IH2 Hr0 Hs0 D) as [E1 E2]. apply S2; try assumption.
      exists c. rewrite IH1, Hc. replace (c * (2 * 2 ^ Z.of_nat n)) with (c * 2 * 2 ^ Z.of_nat n) by ring.
      apply Z.div_mul. lia.
Qed.

Lemma shr_fexp_spec (m e : Z) (l : location) :
  0 <= m ->
  let '(mrs, e') := shr_fexp prec emax m e l in
  e' = e + shift_of m e /\
  shr_m mrs = m / 2 ^ shift_of m e /\
  (l = loc_Exact -> (2 ^ shift_of m e | m) -> loc_of_shr_record mrs = loc_Exact).
Proof.
  intros Hm. unfold shr_fexp, shift_of, shr.
  set (n := fexp prec emax (Zdigits2 m + e) - e).
  assert (Hloc : forall mrs, shr_r mrs = false /\ shr_s mrs = false -> loc_of_shr_record mrs = loc_Exact).
  { intros [m0 r0 s0]; cbn. intros [-> ->]. reflexivity. }
  assert (Hrec : shr_m (shr_record_of_loc m l) = m) by (destruct l as [ | [ | | ]]; reflexivity).
  destruct n as [ | p | p ].
  - rewrite Z.max_l by lia. change (2 ^ 0) with 1. rewrite Z.div_1_r, Z.add_0_r.
    split; [reflexivity|]. split; [exact Hrec|]. intros -> _. reflexivity.
  - rewrite Z.max_r by lia. rewrite iter_pos_nat.
    pose proof (shr_iter_spec (Pos.to_nat p) (shr_record_of_loc m l)) as S. rewrite Hrec in S.
    specialize (S Hm). cbn zeta in S. rewrite positive_nat_Z in S. destruct S as [S1 S2].
    split; [reflexivity|]. split; [exact S1|]. intros -> D. apply Hloc. apply S2; auto.
  - rewrite Z.max_l by lia. change (2 ^ 0) with 1. rewrite Z.div_1_r, Z.add_0_r.
    split; [reflexivity|]. split; [exact Hrec|]. intros -> _. reflexivity.
Qed.

Lemma fexp64 (x : Z) : fexp prec emax x = Z.max (x - 53) (-1074).
Proof. reflexivity. Qed.

Lemma Zdigits2_bounds (m : Z) :
  0 < m -> 0 < Zdigits2 m /\ 2 ^ (Zdigits2 m - 1) <= m < 2 ^ Zdigits2 m.
Proof.
  destruct m as [ | p | p]; try lia. intros _. cbn [Zdigits2].
  split; [lia | apply digits2_pos_bounds].
Qed.

Lemma Zdigits2_unique (m d : Z) :
  0 < m -> 2 ^ (d - 1) <= m < 2 ^ d -> Zdigits2 m = d.
Proof.
  intros Hm [Hl Hu]. destruct (Zdigits2_bounds m Hm) as (Hd & Hl' & Hu').
  assert (0 < d).
  { destruct (Z.lt_trichotomy d 0) as [N | [N | N]]; [ | subst d; cbn in Hu; lia | exact N].
    rewrite Z.pow_neg_r in Hu by lia. lia. }
  destruct (Z.lt_trichotomy (Zdigits2 m) d) as [N | [N | N]]; [ | exact N | ].
  - assert (2 ^ Zdigits2 m <= 2 ^ (d - 1)) by (apply Z.pow_le_mono_r; lia). lia.
  - assert (2 ^ d <= 2 ^ (Zdigits2 m - 1)) by (apply Z.pow_le_mono_r; lia). lia.
Qed.

(** After the first shift the mantissa is canonical for its exponent. *)
Lemma shift_canonical (m e : Z) :
  0 < m -> -1074 <= e -> e <= fexp prec emax (Zdigits2 m + e) ->
  let k := shift_of m e in
  let m1 := m / 2 ^ k in
  0 <= k /\ 0 < m1 /\ m1 * 2 ^ k <= m < (m1 + 1) * 2 ^ k /\
  fexp prec emax (Zdigits2 m1 + (e + k)) = e + k /\
  (-1074 < e + k -> 2 ^ 52 <= m1 < 2 ^ 53).
Proof.
  intros Hm He Hn. cbn zeta. unfold shift_of. rewrite ?fexp64 in *.
  destruct (Zdigits2_bounds m Hm) as (Hd & Hl & Hu). set (d := Zdigits2 m) in *.
  rewrite Z.max_r by lia. set (k := Z.max (d + e - 53) (-1074) - e). assert (Hk : 0 <= k) by lia.
  pose proof (pow2_pos k Hk) as Pk.
  assert (Hdiv : (m / 2 ^ k) * 2 ^ k <= m < (m / 2 ^ k + 1) * 2 ^ k).
  { pose proof (Z.div_mod m (2 ^ k) ltac:(lia)). pose proof (Z.mod_pos_bound m (2 ^ k) Pk). nia. }
  destruct (Z_le_gt_dec (-1074) (d + e - 53)) as [C | C].
  - assert (Ek : k = d - 53) by (unfold k; lia).
    assert (B : 2 ^ 52 <= m / 2 ^ k < 2 ^ 53).
    { split.
      - apply Z.div_le_lower_bound; [lia|]. rewrite <- pow2_split by lia.
        replace (k + 52) with (d - 1) by lia. exact Hl.
      - apply Z.div_lt_upper_bound; [lia|]. rewrite <- pow2_split by lia.
        replace (k + 53) with d by lia. exact Hu. }
    assert (D1 : Zdigits2 (m / 2 ^ k) = 53) by (apply Zdigits2_unique; [lia | exact B]).
    rewrite D1. repeat split; try lia.
  - assert (Ee : e = -1074) by lia. assert (Ek : k = 0) by (unfold k; lia).
    rewrite Ek in *. change (2 ^ 0) with 1 in *. rewrite Z.div_1_r in *.
    fold d. repeat split; try lia.
Qed.

(** Rounding to nearest keeps the mantissa or takes the next one, and keeps
    it when nothing was lost. *)
Lemma round_nearest_even_cases (m : Z) (l : location) :
  round_nearest_even m l = m \/ (round_nearest_even m l = m + 1 /\ l <> loc_Exact).
Proof.
  destruct l as [ | [ | | ]]; cbn [round_nearest_even]; auto.
  - destruct (Z.even m); [left | right]; split; try reflexivity; discriminate.
  - right. split; [reflexivity | discriminate].
Qed.

(** The second shift only renormalises a mantissa that rounding carried to
    the next power of two. *)
Lemma shift_after_round (m1 e1 m2 : Z) :
  0 < m1 -> -1074 <= e1 ->
  fexp prec emax (Zdigits2 m1 + e1) = e1 ->
  (m2 = m1 \/ m2 = m1 + 1) ->
  let k2 := shift_of m2 e1 in
  (m2 / 2 ^ k2) * 2 ^ k2 = m2 /\ 0 <= k2 /\ 0 < m2 / 2 ^ k2 /\
  (-1074 < e1 + k2 -> 2 ^ 52 <= m2 / 2 ^ k2).
Proof.
  intros Hm He Hc Hm2. cbn zeta. unfold shift_of. rewrite ?fexp64 in *.
  destruct (Zdigits2_bounds m1 Hm) as (Hd & Hl & Hu). set (d := Zdigits2 m1) in *.
  assert (Hm2pos : 0 < m2) by lia.
  assert (Norm : -1074 < e1 -> d = 53) by lia.
  destruct (Z.eq_dec m2 (2 ^ d)) as [Ep | Np].
  - (* the carry *)
    assert (D2 : Zdigits2 m2 = d + 1).
    { apply Zdigits2_unique; [lia|]. replace (d + 1 - 1) with d by lia.
      rewrite Ep. split; [lia|]. apply Z.pow_lt_mono_r; lia. }
    rewrite D2.
    destruct (Z_le_gt_dec (-1074) (d + e1 - 53)) as [C | C].
    + assert (E53 : d = 53) by lia.
      replace (Z.max 0 (Z.max (d + 1 + e1 - 53) (-1074) - e1)) with 1 by lia.
      rewrite Ep, E53. change (2 ^ 53) with (2 ^ 52 * 2). change (2 ^ 1) with 2.
      rewrite Z.div_mul by lia. repeat split; try lia.
    + replace (Z.max 0 (Z.max (d + 1 + e1 - 53) (-1074) - e1)) with 0 by lia.
      change (2 ^ 0) with 1. rewrite Z.div_1_r. repeat split; try lia.
  - assert (D2 : Zdigits2 m2 = d).
    { apply Zdigits2_unique; [lia|]. lia. }
    rewrite D2. replace (Z.max 0 (Z.max (d + e1 - 53) (-1074) - e1)) with 0 by lia.
    change (2 ^ 0) with 1. rewrite Z.div_1_r. repeat split; try lia.
    intros Hn. rewrite Z.add_0_r in Hn. rewrite (Norm Hn) in Hl. change (53 - 1) with 52 in Hl. lia.
Qed.

(** What rounding returns for a positive mantissa that is shifted far enough
    to the left: the truncated mantissa [m1] or the next one, at the
    canonical exponent, and [m1] itself when nothing is lost. *)
Lemma binary_round_aux_spec (m e : Z) (l : location) :
  0 < m -> -1074 <= e -> e <= fexp prec emax (Zdigits2 m + e) ->
  let k := shift_of m e in
  let m1 := m / 2 ^ k in
  let r := binary_round_aux prec emax false m e l in
  exists m2,
    (m2 = m1 \/ (m2 = m1 + 1 /\ ~ (l = loc_Exact /\ m = m1 * 2 ^ k))) /\
    ((exists m3 e3, r = S754_finite false m3 e3 /\
        Zpos m3 * 2 ^ (e3 + 1074) = m2 * 2 ^ (e + k + 1074)) \/
     (r = S754_infinity false /\ finite_bound <= m2 * 2 ^ (e + k + 1074))).
Proof.
  intros Hm He Hn. cbn zeta. unfold binary_round_aux.
  pose proof (shr_fexp_spec m e l ltac:(lia)) as S1.
  destruct (shr_fexp prec emax m e l) as [mrs1 e1]. destruct S1 as (Ee1 & Em1 & Ex1).
  destruct (shift_canonical m e Hm He Hn) as (Hk & Hm1 & Hdiv & Hcan & Hnorm).
  set (k := shift_of m e) in *. set (m1 := m / 2 ^ k) in *.
  set (m2 := round_nearest_even (shr_m mrs1) (loc_of_shr_record mrs1)).
  assert (Hm2 : m2 = m1 \/ (m2 = m1 + 1 /\ ~ (l = loc_Exact /\ m = m1 * 2 ^ k))).
  { unfold m2. destruct (round_nearest_even_cases (shr_m mrs1) (loc_of_shr_record mrs1)) as [E | [E N]].
    - left. rewrite E. exact Em1.
    - right. split; [rewrite E, Em1; reflexivity|].
      intros [L1 L2]. apply N. apply Ex1; [exact L1|]. exists m1. exact L2. }
  exists m2. split; [exact Hm2|].
  assert (Hm2' : m2 = m1 \/ m2 = m1 + 1) by tauto.
  rewrite <- Ee1 in *.
  destruct (shift_after_round m1 e1 m2 Hm1 ltac:(lia) Hcan Hm2') as (Hexact & Hk2 & Hpos & Hnorm2).
  pose proof (shr_fexp_spec m2 e1 loc_Exact ltac:(lia)) as S2.
  destruct (shr_fexp prec emax m2 e1 loc_Exact) as [mrs2 e2]. destruct S2 as (Ee2 & Em2 & _).
  set (k2 := shift_of m2 e1) in *.
  assert (Hval : shr_m mrs2 * 2 ^ (e2 + 1074) = m2 * 2 ^ (e1 + 1074)).
  { rewrite Em2, Ee2. replace (e1 + k2 + 1074) with (k2 + (e1 + 1074)) by lia.
    rewrite pow2_split by lia. rewrite Z.mul_assoc, Hexact. reflexivity. }
  destruct (shr_m mrs2) as [ | p | p ] eqn:Ep; try lia.
  destruct (Z.leb_spec e2 (emax - prec)) as [Le | Gt].
  - left. exists p, e2. split; [reflexivity | exact Hval].
  - right. split; [reflexivity|]. rewrite <- Hval.
    change (emax - prec) with 971 in Gt.
    assert (2 ^ 52 <= Zpos p) by (rewrite Em2; apply Hnorm2; lia).
    replace (e2 + 1074) with ((e2 - 972) + 2046) by lia.
    rewrite pow2_split by lia. change finite_bound with (2 ^ 52 * 2 ^ 2046).
    pose proof (pow2_pos (e2 - 972) ltac:(lia)). pose proof (pow2_pos 2046 ltac:(lia)).
    set (A := 2 ^ 2046) in *. set (B := 2 ^ (e2 - 972)) in *. set (C := 2 ^ 52) in *. clearbody A B C.
    assert (C * A <= Zpos p * A) by nia.
    assert (Zpos p * A * 1 <= Zpos p * A * B) by (apply Z.mul_le_mono_nonneg_l; nia).
    nia.
Qed.

(** ** Floats as points of a grid *)

Lemma SFval_opp (x : spec_float) : SFval (SFopp x) = - SFval x.
Proof. destruct x as [ | s | | s m e]; cbn; try destruct s; cbn; lia. Qed.

Lemma valid_opp (x : spec_float) : valid_binary (SFopp x) = valid_binary x.
Proof. destruct x; reflexivity. Qed.

Lemma finite_opp (x : spec_float) : SFis_finite (SFopp x) = SFis_finite x.
Proof. destruct x; reflexivity. Qed.

Lemma finite_val_bound (x : spec_float) :
  valid_binary x = true -> SFis_finite x = true -> - finite_bound < SFval x < finite_bound.
Proof.
  intros Hv Hf. pose proof bounds_order.
  destruct x as [ | | | s m e]; try discriminate; cbn [SFval]; [lia|].
  pose proof (valid_finite_bounds _ _ _ Hv).
  destruct s; cbn [cond_Zopp]; lia.
Qed.

(** Between a canonical mantissa and the next one, at its exponent, there is
    no binary64 value. *)
Lemma canonical_grid (mL : positive) (eL m1 e1 : Z) :
  canonical_mantissa prec emax mL eL = true ->
  0 < m1 -> -1074 <= e1 -> fexp prec emax (Zdigits2 m1 + e1) = e1 ->
  let X := Zpos mL * 2 ^ (eL + 1074) in
  (X < (m1 + 1) * 2 ^ (e1 + 1074) -> X <= m1 * 2 ^ (e1 + 1074)) /\
  (m1 * 2 ^ (e1 + 1074) < X -> (m1 + 1) * 2 ^ (e1 + 1074) <= X).
Proof.
  intros Hv Hm1 He1 Hcan. cbn zeta.
  assert (HeL : -1074 <= eL /\ Zpos (digits2_pos mL) <= 53).
  { unfold canonical_mantissa in Hv. apply Z.eqb_eq in Hv. rewrite fexp64 in Hv. lia. }
  destruct HeL as [HeL HdL].
  pose proof (pow2_pos (e1 + 1074) ltac:(lia)) as P1.
  destruct (Z_le_gt_dec e1 eL) as [C | C].
  - replace (eL + 1074) with ((eL - e1) + (e1 + 1074)) by lia.
    rewrite pow2_split by lia. pose proof (pow2_pos (eL - e1) ltac:(lia)).
    set (A := 2 ^ (eL - e1)) in *. set (B := 2 ^ (e1 + 1074)) in *. clearbody A B.
    rewrite Z.mul_assoc. split; intros H1.
    + assert (Zpos mL * A < m1 + 1) by nia. nia.
    + assert (m1 < Zpos mL * A) by nia. nia.
  - rewrite fexp64 in Hcan. destruct (Zdigits2_bounds m1 Hm1) as (Hd1 & Hl1 & _).
    assert (E53 : Zdigits2 m1 = 53) by lia. rewrite E53 in Hl1. change (53 - 1) with 52 in Hl1.
    pose proof (digits2_pos_bounds mL) as [_ HmL].
    assert (Zpos mL < 2 ^ 53).
    { eapply Z.lt_le_trans; [exact HmL|]. apply Z.pow_le_mono_r; lia. }
    replace (e1 + 1074) with ((e1 - eL - 1) + 1 + (eL + 1074)) by lia.
    rewrite (pow2_split (e1 - eL - 1 + 1)), (pow2_split (e1 - eL - 1)) by lia.
    pose proof (pow2_pos (e1 - eL - 1) ltac:(lia)). pose proof (pow2_pos (eL + 1074) ltac:(lia)).
    change (2 ^ 1) with 2. change (2 ^ 53) with (2 * 2 ^ 52) in *.
    set (A := 2 ^ (e1 - eL - 1)) in *. set (B := 2 ^ (eL + 1074)) in *. set (c := 2 ^ 52) in *.
    clearbody A B c.
    assert (Zpos mL * B < 2 * c * B) by nia.
    assert (2 * c * B <= m1 * 2 * B) by nia.
    assert (m1 * 2 * B * 1 <= m1 * 2 * B * A) by (apply Z.mul_le_mono_nonneg_l; nia).
    split; intros; nia.
Qed.

(** The same for every finite binary64 value, of either sign. *)
Lemma float_grid (f : spec_float) (m1 e1 : Z) :
  valid_binary f = true -> SFis_finite f = true ->
  0 < m1 -> -1074 <= e1 -> fexp prec emax (Zdigits2 m1 + e1) = e1 ->
  (SFval f < (m1 + 1) * 2 ^ (e1 + 1074) -> SFval f <= m1 * 2 ^ (e1 + 1074)) /\
  (m1 * 2 ^ (e1 + 1074) < SFval f -> (m1 + 1) * 2 ^ (e1 + 1074) <= SFval f).
Proof.
  intros Hv Hf Hm1 He1 Hcan.
  pose proof (pow2_pos (e1 + 1074) ltac:(lia)) as P1.
  assert (0 < m1 * 2 ^ (e1 + 1074)) by nia.
  destruct f as [ | | | s m e]; try discriminate; cbn [SFval].
  - split; lia.
  - assert (Hc : canonical_mantissa prec emax m e = true).
    { cbn [SpecFloat.valid_binary] in Hv. unfold bounded in Hv. apply andb_true_iff in Hv. tauto. }
    pose proof (canonical_grid m e m1 e1 Hc Hm1 He1 Hcan) as G. cbn zeta in G.
    pose proof (valid_finite_bounds _ _ _ Hv).
    destruct s; cbn [cond_Zopp]; [split; lia | exact G].
Qed.

(** Rounding an exact positive value: the result lies between any two
    finite binary64 values that enclose the exact value. *)
Lemma binary_round_aux_sandwich (m e : Z) :
  0 < m -> -1074 <= e -> e <= fexp prec emax (Zdigits2 m + e) ->
  let r := binary_round_aux prec emax false m e loc_Exact in
  SFis_nan r = false /\ 0 < SFval r /\
  (finite_bound <= m * 2 ^ (e + 1074) -> finite_bound <= SFval r) /\
  forall f, valid_binary f = true -> SFis_finite f = true ->
    (SFval f <= m * 2 ^ (e + 1074) -> SFval f <= SFval r) /\
    (m * 2 ^ (e + 1074) <= SFval f -> SFval r <= SFval f).
Proof.
  intros Hm He Hn. cbn zeta.
  destruct (binary_round_aux_spec m e loc_Exact Hm He Hn) as (m2 & Hm2 & Hr).
  destruct (shift_canonical m e Hm He Hn) as (Hk & Hm1 & Hdiv & Hcan & _).
  set (k := shift_of m e) in *. set (m1 := m / 2 ^ k) in *.
  set (r := binary_round_aux prec emax false m e loc_Exact) in *.
  pose proof (pow2_pos (e + 1074) ltac:(lia)) as Pe. pose proof (pow2_pos k Hk) as Pk.
  assert (Esplit : 2 ^ (e + k + 1074) = 2 ^ k * 2 ^ (e + 1074)).
  { replace (e + k + 1074) with (k + (e + 1074)) by lia. apply pow2_split; lia. }
  assert (Hlow : m1 * 2 ^ (e + k + 1074) <= m * 2 ^ (e + 1074)) by (rewrite Esplit; nia).
  assert (Hup : m * 2 ^ (e + 1074) < (m1 + 1) * 2 ^ (e + k + 1074)) by (rewrite Esplit; nia).
  assert (Hexact : m2 = m1 + 1 -> m1 * 2 ^ (e + k + 1074) < m * 2 ^ (e + 1074)).
  { intros E. destruct Hm2 as [E' | [_ N]]; [lia|].
    assert (m <> m1 * 2 ^ k) by tauto. rewrite Esplit. nia. }
  assert (Hm2pos : 0 < m2 * 2 ^ (e + k + 1074)).
  { pose proof (pow2_pos (e + k + 1074) ltac:(lia)). destruct Hm2 as [-> | [-> _]]; nia. }
  assert (Nan : SFis_nan r = false).
  { destruct Hr as [(m3 & e3 & -> & _) | [-> _]]; reflexivity. }
  assert (Pos : 0 < SFval r).
  { destruct Hr as [(m3 & e3 & -> & E) | [-> _]]; cbn [SFval cond_Zopp]; [lia | apply pow2_pos; lia]. }
  pose proof bounds_order as Q.
  assert (Hm12 : m1 * 2 ^ (e + k + 1074) <= m2 * 2 ^ (e + k + 1074)).
  { pose proof (pow2_pos (e + k + 1074) ltac:(lia)). destruct Hm2 as [-> | [-> _]]; nia. }
  split; [exact Nan|]. split; [exact Pos|]. split.
  { intros Hbig.
    destruct (canonical_grid 4503599627370496 972 m1 (e + k) eq_refl Hm1 ltac:(lia) Hcan) as [G _].
    change (Zpos 4503599627370496 * 2 ^ (972 + 1074)) with finite_bound in G.
    destruct Hr as [(m3 & e3 & -> & E) | [-> _]]; cbn [SFval cond_Zopp]; lia. }
  intros f Hv Hf. destruct (float_grid f m1 (e + k) Hv Hf Hm1 ltac:(lia) Hcan) as [G1 G2].
  pose proof (finite_val_bound f Hv Hf) as Bf.
  split; intros H1.
  - destruct Hr as [(m3 & e3 & -> & E) | [-> _]]; cbn [SFval cond_Zopp]; lia.
  - assert (m2 * 2 ^ (e + k + 1074) <= SFval f).
    { destruct Hm2 as [-> | [E _]]; [lia|]. specialize (Hexact E). rewrite E. apply G2. lia. }
    destruct Hr as [(m3 & e3 & -> & E) | [-> Hov]]; cbn [SFval cond_Zopp]; lia.
Qed.

Lemma Pos_iter_xO (m d : positive) : Zpos (Pos.iter xO m d) = Zpos m * 2 ^ Zpos d.
Proof.
  induction d as [ | d IH] using Pos.peano_ind.
  - cbn [Pos.iter]. change (2 ^ 1) with 2. rewrite Pos2Z.inj_xO. lia.
  - rewrite Pos.iter_succ, Pos2Z.inj_xO, IH, Pos2Z.inj_succ, Z.pow_succ_r by lia. ring.
Qed.

Lemma shl_align_spec (m : positive) (e e' : Z) :
  let '(mz, ez) := shl_align m e e' in
  ez = Z.min e e' /\ Zpos mz = Zpos m * 2 ^ (e - ez).
Proof.
  unfold shl_align. destruct (e' - e) as [ | p | p] eqn:E.
  - split; [lia|]. replace (e - e) with 0 by lia. change (2 ^ 0) with 1. lia.
  - split; [lia|]. replace (e - e) with 0 by lia. change (2 ^ 0) with 1. lia.
  - split; [lia|]. rewrite Pos_iter_xO. f_equal. f_equal. lia.
Qed.

Lemma Zdigits2_shift (m k : Z) : 0 < m -> 0 <= k -> Zdigits2 (m * 2 ^ k) = Zdigits2 m + k.
Proof.
  intros Hm Hk. destruct (Zdigits2_bounds m Hm) as (Hd & Hl & Hu).
  pose proof (pow2_pos k Hk).
  apply Zdigits2_unique; [nia|].
  replace (Zdigits2 m + k - 1) with ((Zdigits2 m - 1) + k) by lia.
  rewrite !pow2_split by lia. split; nia.
Qed.

Lemma binary_round_aux_sign (s : bool) (m e : Z) (l : location) :
  let r := binary_round_aux prec emax s m e l in
  let r0 := binary_round_aux prec emax false m e l in
  SFis_nan r = SFis_nan r0 /\ SFval r = cond_Zopp s (SFval r0).
Proof.
  cbn zeta. unfold binary_round_aux.
  destruct (shr_fexp prec emax m e l) as [mrs1 e1].
  destruct (shr_fexp prec emax _ e1 loc_Exact) as [mrs2 e2].
  destruct (shr_m mrs2) as [ | p | p]; [ | destruct (e2 <=? emax - prec) | ];
    cbn [SFis_nan SFval]; split; try reflexivity; destruct s; reflexivity.
Qed.

(** [binary_round] on a positive mantissa at an exponent not below the
    least one. *)
Lemma binary_round_sandwich (m : positive) (e : Z) :
  -1074 <= e ->
  let r := binary_round prec emax false m e in
  SFis_nan r = false /\ 0 < SFval r /\
  (finite_bound <= Zpos m * 2 ^ (e + 1074) -> finite_bound <= SFval r) /\
  forall f, valid_binary f = true -> SFis_finite f = true ->
    (SFval f <= Zpos m * 2 ^ (e + 1074) -> SFval f <= SFval r) /\
    (Zpos m * 2 ^ (e + 1074) <= SFval f -> SFval r <= SFval f).
Proof.
  intros He. cbn zeta. unfold binary_round.
  pose proof (shl_align_spec m e (fexp prec emax (Zpos (digits2_pos m) + e))) as A.
  destruct (shl_align m e _) as [mz ez]. destruct A as [Ez Emz].
  assert (Hez : -1074 <= ez) by (rewrite Ez, fexp64; lia).
  assert (Hsh : 0 <= e - ez) by lia.
  assert (Hd : Zdigits2 (Zpos mz) + ez = Zpos (digits2_pos m) + e).
  { rewrite Emz, Zdigits2_shift by lia. cbn [Zdigits2]. lia. }
  assert (Hn : ez <= fexp prec emax (Zdigits2 (Zpos mz) + ez)) by (rewrite Hd; lia).
  assert (Hval : Zpos mz * 2 ^ (ez + 1074) = Zpos m * 2 ^ (e + 1074)).
  { rewrite Emz. replace (e + 1074) with ((e - ez) + (ez + 1074)) by lia.
    rewrite (pow2_split (e - ez)) by lia. ring. }
  pose proof (binary_round_aux_sandwich (Zpos mz) ez ltac:(lia) Hez Hn) as S. cbn zeta in S.
  rewrite Hval in S. exact S.
Qed.

Lemma binary_round_sign (s : bool) (m : positive) (e : Z) :
  SFis_nan (binary_round prec emax s m e) = SFis_nan (binary_round prec emax false m e) /\
  SFval (binary_round prec emax s m e) = cond_Zopp s (SFval (binary_round prec emax false m e)).
Proof.
  unfold binary_round. destruct (shl_align m e _) as [mz ez]. apply binary_round_aux_sign.
Qed.

(** Rounding the exact integer [M * 2^e]: the result is not [NaN], has the
    sign of [M], lies between any two finite binary64 values that enclose
    the exact value, and is beyond the finite ones when the exact value is. *)
Lemma binary_normalize_sandwich (M e : Z) :
  -1074 <= e ->
  let r := binary_normalize prec emax M e false in
  SFis_nan r = false /\
  (0 < M -> 0 < SFval r) /\ (M < 0 -> SFval r < 0) /\ (M = 0 -> SFval r = 0) /\
  (finite_bound <= M * 2 ^ (e + 1074) -> finite_bound <= SFval r) /\
  (M * 2 ^ (e + 1074) <= - finite_bound -> SFval r <= - finite_bound) /\
  forall f, valid_binary f = true -> SFis_finite f = true ->
    (SFval f <= M * 2 ^ (e + 1074) -> SFval f <= SFval r) /\
    (M * 2 ^ (e + 1074) <= SFval f -> SFval r <= SFval f).
Proof.
  intros He. cbn zeta.
  pose proof bounds_order as P.
  pose proof (pow2_pos (e + 1074) ltac:(lia)) as Pe.
  destruct M as [ | m | m]; cbn [binary_normalize].
  - cbn [SFis_nan SFval]. repeat split; try lia.
  - destruct (binary_round_sandwich m e He) as (N & Ps & O & S).
    refine (conj N (conj _ (conj _ (conj _ (conj O (conj _ S)))))); lia.
  - destruct (binary_round_sandwich m e He) as (N & Ps & O & S).
    destruct (binary_round_sign true m e) as [N' V']. rewrite N', V'. cbn [cond_Zopp].
    change (Zneg m) with (- Zpos m).
    refine (conj N (conj _ (conj _ (conj _ (conj _ (conj _ _)))))); try lia.
    intros f Hv Hf. specialize (S (SFopp f)). rewrite valid_opp, finite_opp, SFval_opp in S.
    destruct (S Hv Hf) as [S1 S2].
    split; intros H; lia.
Qed.

Lemma aligned_val (s : bool) (m : positive) (e ez : Z) :
  ez <= e -> -1074 <= ez ->
  cond_Zopp s (Zpos (fst (shl_align m e ez))) * 2 ^ (ez + 1074)
  = SFval (S754_finite s m e).
Proof.
  intros H1 H2. pose proof (shl_align_spec m e ez) as A.
  destruct (shl_align m e ez) as [mz ez']. destruct A as [A1 A2]. cbn [fst SFval].
  assert (E : ez' = ez) by lia. rewrite E in A2. clear A1. rewrite A2.
  replace (e + 1074) with ((e - ez) + (ez + 1074)) by lia. rewrite (pow2_split (e - ez)) by lia.
  destruct s; cbn [cond_Zopp]; ring.
Qed.

(** The sum of two finite binary64 values: correctly enclosed. *)
Lemma SFadd_sandwich (x y : spec_float) :
  valid_binary x = true -> valid_binary y = true ->
  SFis_finite x = true -> SFis_finite y = true ->
  let r := SF64add x y in
  SFis_nan r = false /\
  (finite_bound <= SFval x + SFval y -> finite_bound <= SFval r) /\
  (SFval x + SFval y <= - finite_bound -> SFval r <= - finite_bound) /\
  forall f, valid_binary f = true -> SFis_finite f = true ->
    (SFval f <= SFval x + SFval y -> SFval f <= SFval r) /\
    (SFval x + SFval y <= SFval f -> SFval r <= SFval f).
Proof.
  intros Hx Hy Fx Fy. cbn zeta. unfold SF64add.
  destruct x as [sx | | | sx mx ex], y as [sy | | | sy my ey]; try discriminate; cbn [SFadd].
  - split; [destruct sx, sy; reflexivity|].
    replace (SFval (if _ : bool then _ else _)) with 0 by (destruct sx, sy; reflexivity).
    cbn [SFval]. repeat split; lia.
  - split; [reflexivity|]. cbn [SFval]. repeat split; lia.
  - split; [reflexivity|]. cbn [SFval]. repeat split; lia.
  - destruct (valid_finite _ _ _ Hx) as (Hex & _). destruct (valid_finite _ _ _ Hy) as (Hey & _).
    set (ez := Z.min ex ey).
    pose proof (aligned_val sx mx ex ez ltac:(lia) ltac:(lia)) as Ax.
    pose proof (aligned_val sy my ey ez ltac:(lia) ltac:(lia)) as Ay.
    destruct (binary_normalize_sandwich
                (cond_Zopp sx (Zpos (fst (shl_align mx ex ez))) + cond_Zopp sy (Zpos (fst (shl_align my ey ez))))
                ez ltac:(lia)) as (N & _ & _ & _ & O1 & O2 & S).
    rewrite Z.mul_add_distr_r, Ax, Ay in O1, O2, S. repeat split; try assumption; apply S; assumption.
Qed.

(** The difference of two binary64 values other than [NaN]: it is [NaN]
    only for two equal infinities, and otherwise has the sign of the exact
    difference. *)
Lemma SFsub_sign (x y : spec_float) :
  valid_binary x = true -> valid_binary y = true ->
  SFis_nan x = false -> SFis_nan y = false ->
  let r := SF64sub x y in
  (SFis_nan r = true -> SFval x = SFval y) /\
  (SFis_nan r = false -> (0 < SFval r <-> SFval y < SFval x)).
Proof.
  intros Hx Hy Nx Ny. cbn zeta. unfold SF64sub.
  pose proof bounds_order as P.
  destruct x as [sx | sx | | sx mx ex], y as [sy | sy | | sy my ey]; try discriminate;
    try (pose proof (finite_val_bound _ Hx eq_refl)); try (pose proof (finite_val_bound _ Hy eq_refl));
    try (pose proof (valid_finite_bounds _ _ _ Hx)); try (pose proof (valid_finite_bounds _ _ _ Hy));
    cbn [SFsub].
  1-8: try destruct sx; try destruct sy; cbn [SFis_nan SFval cond_Zopp negb] in *;
       (split; [ intros; try discriminate; lia | intros; try discriminate; lia ]).
  destruct (valid_finite _ _ _ Hx) as (Hex & _). destruct (valid_finite _ _ _ Hy) as (Hey & _).
  set (ez := Z.min ex ey).
  pose proof (aligned_val sx mx ex ez ltac:(lia) ltac:(lia)) as Ax.
  pose proof (aligned_val sy my ey ez ltac:(lia) ltac:(lia)) as Ay.
  set (M := cond_Zopp sx (Zpos (fst (shl_align mx ex ez))) - cond_Zopp sy (Zpos (fst (shl_align my ey ez)))) in *.
  destruct (binary_normalize_sandwich M ez ltac:(lia)) as (N & S1 & S2 & S3 & _ & _ & _).
  assert (EM : M * 2 ^ (ez + 1074) = SFval (S754_finite sx mx ex) - SFval (S754_finite sy my ey)).
  { unfold M. rewrite Z.mul_sub_distr_r, Ax, Ay. reflexivity. }
  pose proof (pow2_pos (ez + 1074) ltac:(lia)) as Pz.
  split; [rewrite N; discriminate|]. intros _.
  destruct (Z.lt_trichotomy M 0) as [C | [C | C]].
  - specialize (S2 C). split; [lia|]. intros. nia.
  - specialize (S3 C). split; [lia|]. intros. nia.
  - specialize (S1 C). split; [intros; nia | intros; lia].
Qed.

(** ** Halving *)

Lemma div_eucl_pair (a b : Z) : Z.div_eucl a b = (a / b, a mod b).
Proof. unfold Z.div, Z.modulo. destruct (Z.div_eucl a b); reflexivity. Qed.

(** The quotient and location [SFdiv] computes for [m * 2^e / 2]. *)
Lemma SFdiv_core_two (m : positive) (e : Z) (s : bool) :
  valid_binary (S754_finite s m e) = true ->
  SFdiv_core_binary prec emax (Zpos m) e 4503599627370496 (-51) =
  if -1072 <=? e then (2 * Zpos m, e - 2, loc_Exact)
  else if -1073 <=? e then (Zpos m, -1074, loc_Exact)
  else (Zpos m / 2, -1074, if Z.even (Zpos m) then loc_Exact else loc_Inexact Eq).
Proof.
  intros Hv. destruct (valid_finite _ _ _ Hv) as (He & Hd & Hnorm).
  unfold SFdiv_core_binary. cbn [Zdigits2]. change (Zpos (digits2_pos 4503599627370496)) with 53.
  rewrite fexp64. set (d := Zpos (digits2_pos m)) in *.
  destruct (Z.leb_spec (-1072) e) as [C1 | C1]; [ | destruct (Z.leb_spec (-1073) e) as [C2 | C2]].
  - assert (d = 53) by lia.
    replace (Z.min (Z.max (d + e - (53 + -51) - 53) (-1074)) (e - -51)) with (e - 2) by lia.
    replace (e - -51 - (e - 2)) with 53 by lia. cbv iota beta.
    rewrite Z.shiftl_mul_pow2 by lia. rewrite div_eucl_pair.
    change (2 ^ 53) with (2 * 4503599627370496). rewrite Z.mul_assoc.
    rewrite Z.div_mul, Z.mod_mul by lia. f_equal. f_equal. lia.
  - assert (d = 53) by lia. assert (e = -1073) by lia. subst e.
    replace (Z.min (Z.max (d + -1073 - (53 + -51) - 53) (-1074)) (-1073 - -51)) with (-1074) by lia.
    change (-1073 - -51 - -1074) with 52. cbv iota beta.
    rewrite Z.shiftl_mul_pow2 by lia. rewrite div_eucl_pair.
    change (2 ^ 52) with 4503599627370496.
    rewrite Z.div_mul, Z.mod_mul by lia. reflexivity.
  - assert (e = -1074) by lia. subst e.
    replace (Z.min (Z.max (d + -1074 - (53 + -51) - 53) (-1074)) (-1074 - -51)) with (-1074) by lia.
    change (-1074 - -51 - -1074) with 51. cbv iota beta.
    rewrite Z.shiftl_mul_pow2 by lia. rewrite div_eucl_pair.
    change (2 ^ 51) with 2251799813685248.
    change 4503599627370496 with (2 * 2251799813685248).
    rewrite Z.div_mul_cancel_r by lia.
    rewrite Z.mul_mod_distr_r by lia.
    rewrite Zmod_even. destruct (Z.even (Zpos m)); reflexivity.
Qed.

Lemma Zdigits2_le (m : Z) (c : Z) : 0 < m -> 0 <= c -> m < 2 ^ c -> Zdigits2 m <= c.
Proof.
  intros Hm Hc H. destruct (Zdigits2_bounds m Hm) as (Hd & Hl & _).
  destruct (Z_le_gt_dec (Zdigits2 m) c) as [L | G]; [exact L|].
  assert (2 ^ c <= 2 ^ (Zdigits2 m - 1)) by (apply Z.pow_le_mono_r; lia). lia.
Qed.

(** Half a finite binary64 value: correctly enclosed. *)
Lemma SFdiv_two_sandwich (x : spec_float) :
  valid_binary x = true -> SFis_finite x = true ->
  let h := SF64div x SFtwo in
  SFis_nan h = false /\
  forall f, valid_binary f = true -> SFis_finite f = true ->
    (2 * SFval f <= SFval x -> SFval f <= SFval h) /\
    (SFval x <= 2 * SFval f -> SFval h <= SFval f).
Proof.
  intros Hx Fx. cbn zeta. unfold SF64div, SFtwo.
  destruct x as [sx | | | sx mx ex]; try discriminate; cbn [SFdiv].
  - split; [reflexivity|]. intros f _ _. cbn [SFval]. lia.
  - rewrite (SFdiv_core_two mx ex sx Hx). rewrite xorb_false_r.
    destruct (valid_finite _ _ _ Hx) as (He & Hd & Hnorm).
    pose proof (digits2_pos_bounds mx) as [Hl Hu].
    set (d := Zpos (digits2_pos mx)) in *.
    assert (Hopp : forall r0 : spec_float,
      SFis_nan r0 = false ->
      forall V : Z,
      (forall f, valid_binary f = true -> SFis_finite f = true ->
         (2 * SFval f <= V -> SFval f <= SFval r0) /\ (V <= 2 * SFval f -> SFval r0 <= SFval f)) ->
      forall r, SFis_nan r = SFis_nan r0 /\ SFval r = cond_Zopp sx (SFval r0) ->
      SFis_nan r = false /\
      forall f, valid_binary f = true -> SFis_finite f = true ->
        (2 * SFval f <= cond_Zopp sx V -> SFval f <= SFval r) /\
        (cond_Zopp sx V <= 2 * SFval f -> SFval r <= SFval f)).
    { intros r0 N0 V S0 r [N V']. split; [congruence|]. intros f Hv Hf. rewrite V'.
      destruct sx; cbn [cond_Zopp]; [ | apply S0; assumption].
      specialize (S0 (SFopp f)). rewrite valid_opp, finite_opp, SFval_opp in S0.
      destruct (S0 Hv Hf). split; intros; lia. }
    cbn [SFval].
    destruct (Z.leb_spec (-1072) ex) as [C1 | C1]; [ | destruct (Z.leb_spec (-1073) ex) as [C2 | C2]].
    + assert (Ed : d = 53) by lia.
      assert (D2 : Zdigits2 (2 * Zpos mx) = 54).
      { apply Zdigits2_unique; [lia|]. rewrite Ed in *. change (53 - 1) with 52 in Hl.
        change (2 ^ (54 - 1)) with (2 * 2 ^ 52). change (2 ^ 54) with (2 * 2 ^ 53). lia. }
      assert (Hn : ex - 2 <= fexp prec emax (Zdigits2 (2 * Zpos mx) + (ex - 2))) by (rewrite D2, fexp64; lia).
      destruct (binary_round_aux_sandwich (2 * Zpos mx) (ex - 2) ltac:(lia) ltac:(lia) Hn) as (N & _ & _ & S).
      eapply Hopp; [exact N | | apply binary_round_aux_sign].
      intros f Hv Hf. destruct (S f Hv Hf) as [S1 S2].
      replace (ex + 1074) with (2 + (ex - 2 + 1074)) by lia. rewrite (pow2_split 2) by lia.
      change (2 ^ 2) with 4. split; intros; [apply S1 | apply S2]; lia.
    + assert (Ed : d = 53) by lia. assert (ex = -1073) by lia. subst ex.
      assert (Hn : -1074 <= fexp prec emax (Zdigits2 (Zpos mx) + -1074)) by (rewrite fexp64; lia).
      destruct (binary_round_aux_sandwich (Zpos mx) (-1074) ltac:(lia) ltac:(lia) Hn) as (N & _ & _ & S).
      eapply Hopp; [exact N | | apply binary_round_aux_sign].
      intros f Hv Hf. destruct (S f Hv Hf) as [S1 S2].
      change (2 ^ (-1073 + 1074)) with 2. change (2 ^ (-1074 + 1074)) with 1 in *.
      split; intros; [apply S1 | apply S2]; lia.
    + assert (ex = -1074) by lia. subst ex. change (2 ^ (-1074 + 1074)) with 1. rewrite Z.mul_1_r.
      assert (Hm53 : Zpos mx < 2 ^ 53).
      { eapply Z.lt_le_trans; [exact Hu|]. apply Z.pow_le_mono_r; lia. }
      pose proof (Z.div_mod (Zpos mx) 2 ltac:(lia)) as DM.
      pose proof (Z.mod_pos_bound (Zpos mx) 2 ltac:(lia)) as MB.
      rewrite Zmod_even in DM, MB.
      destruct (Z.eq_dec (Zpos mx / 2) 0) as [Z0 | NZ].
      * (* the least positive value *)
        assert (Zpos mx = 1) by (destruct (Z.even (Zpos mx)); lia).
        rewrite Z0. replace (Z.even (Zpos mx)) with false by (rewrite H; reflexivity).
        rewrite H.
        eapply (Hopp (S754_zero false) eq_refl 1); [ | destruct sx; split; reflexivity].
        intros f _ _. cbn [SFval]. split; intros; lia.
      * set (q := Zpos mx / 2) in *. assert (Hq : 0 < q) by (unfold q in *; destruct (Z.even (Zpos mx)); lia).
        assert (Dq : Zdigits2 q <= 53) by (apply Zdigits2_le; [lia | lia | destruct (Z.even (Zpos mx)); lia]).
        assert (Hn : -1074 <= fexp prec emax (Zdigits2 q + -1074)) by (rewrite fexp64; lia).
        set (l := if Z.even (Zpos mx) then loc_Exact else loc_Inexact Eq).
        destruct (binary_round_aux_spec q (-1074) l Hq ltac:(lia) Hn) as (m2 & Hm2 & Hr).
        assert (K : shift_of q (-1074) = 0) by (unfold shift_of; rewrite fexp64; lia).
        rewrite K in Hm2, Hr. change (2 ^ 0) with 1 in Hm2. change (2 ^ (-1074 + 0 + 1074)) with 1 in Hr.
        rewrite ?Z.div_1_r, ?Z.mul_1_r in Hm2.
        assert (Hm2' : q <= m2 <= q + 1 /\ (Z.even (Zpos mx) = true -> m2 = q)).
        { destruct Hm2 as [-> | [-> N]]; split; try lia. intros Ev. exfalso. apply N.
          unfold l. rewrite Ev. split; reflexivity. }
        assert (Hfin : exists r0, binary_round_aux prec emax false q (-1074) l = r0 /\
                        SFis_nan r0 = false /\ SFval r0 = m2).
        { destruct Hr as [(m3 & e3 & E & V) | [E V]].
          - exists (S754_finite false m3 e3). repeat split; [exact E | cbn [SFval cond_Zopp]; lia].
          - exfalso. assert (2 ^ 53 < finite_bound) by (apply Z.pow_lt_mono_r; lia). lia. }
        destruct Hfin as (r0 & Er0 & N0 & V0).
        pose proof (binary_round_aux_sign sx q (-1074) l) as Sg. cbn zeta in Sg. rewrite Er0 in Sg.
        eapply (Hopp r0 N0 (Zpos mx)); [ | exact Sg].
        intros f Hv Hf. rewrite V0. split; intros; destruct (Z.even (Zpos mx)); lia.
Qed.

(** Twice a finite binary64 value is one again, unless it is beyond them. *)
Lemma double_representable (x : spec_float) :
  valid_binary x = true -> SFis_finite x = true ->
  (exists f, valid_binary f = true /\ SFis_finite f = true /\ SFval f = 2 * SFval x) \/
  finite_bound <= 2 * Z.abs (SFval x).
Proof.
  intros Hv Hf. destruct x as [s | | | s m e]; try discriminate.
  - left. exists (S754_zero s). repeat split.
  - destruct (valid_finite _ _ _ Hv) as (He & Hd & Hnorm).
    pose proof (digits2_pos_bounds m) as [Hl Hu]. set (d := Zpos (digits2_pos m)) in *.
    destruct (Z_lt_le_dec d 53) as [Sub | Nor].
    + left. exists (S754_finite s (m~0) e). assert (e = -1074).
      { destruct (Z.eq_dec e (-1074)); [assumption | lia]. }
      repeat split.
      * cbn [SpecFloat.valid_binary]. unfold bounded, canonical_mantissa. cbn [digits2_pos].
        rewrite Pos2Z.inj_succ. fold d. rewrite fexp64. apply andb_true_iff.
        split; [apply Z.eqb_eq | apply Z.leb_le; change (emax - prec) with 971]; lia.
      * cbn [SFval]. rewrite Pos2Z.inj_xO. destruct s; cbn [cond_Zopp]; ring.
    + destruct (Z_lt_le_dec e 971) as [Small | Big].
      * left. exists (S754_finite s m (e + 1)). repeat split.
        -- cbn [SpecFloat.valid_binary]. unfold bounded, canonical_mantissa. fold d. rewrite fexp64.
           apply andb_true_iff.
           split; [apply Z.eqb_eq | apply Z.leb_le; change (emax - prec) with 971]; lia.
        -- cbn [SFval]. replace (e + 1 + 1074) with (1 + (e + 1074)) by lia.
           rewrite pow2_split by lia. change (2 ^ 1) with 2. destruct s; cbn [cond_Zopp]; ring.
      * right. assert (e = 971) by lia. subst e. cbn [SFval].
        assert (d = 53) by lia. replace (d - 1) with 52 in Hl by lia.
        change (971 + 1074) with 2045. change finite_bound with (2 * (2 ^ 52 * 2 ^ 2045)).
        pose proof (pow2_pos 2045 ltac:(lia)). set (A := 2 ^ 2045) in *. set (c := 2 ^ 52) in *.
        clearbody A c. destruct s; cbn [cond_Zopp]; nia.
Qed.

(** A finite sum has finite terms. *)
Lemma SFadd_finite_operands (x y : spec_float) :
  SFis_finite (SF64add x y) = true -> SFis_finite x = true /\ SFis_finite y = true.
Proof.
  unfold SF64add.
  destruct x as [sx | sx | | sx mx ex], y as [sy | sy | | sy my ey]; cbn [SFadd SFis_finite];
    try (intros; split; reflexivity); try discriminate;
    destruct sx, sy; discriminate.
Qed.

End FloatFacts.

(** ** The order of the numbers, and the arithmetic the service relies on *)

Section NumberFacts.
Local Open Scope float_scope.

Lemma isNaN_spec (x : float) : JS.isNaN x = SFis_nan (Prim2SF x).
Proof.
  unfold JS.isNaN. rewrite FloatAxioms.eqb_spec. unfold SFeqb.
  destruct (SFis_nan (Prim2SF x)) eqn:N.
  - destruct (Prim2SF x); try discriminate. reflexivity.
  - rewrite (SFcompare_val _ _ (Prim2SF_valid x) (Prim2SF_valid x) N N), Z.compare_refl.
    reflexivity.
Qed.

Lemma compare_val (a b : float) :
  JS.isNaN a = false -> JS.isNaN b = false ->
  SFcompare (Prim2SF a) (Prim2SF b) = Some (Fval a ?= Fval b)%Z.
Proof.
  rewrite !isNaN_spec. intros Na Nb.
  apply SFcompare_val; auto using Prim2SF_valid.
Qed.

Lemma ltb_val (a b : float) :
  JS.isNaN a = false -> JS.isNaN b = false -> (a <? b) = (Fval a <? Fval b)%Z.
Proof.
  intros Na Nb. rewrite FloatAxioms.ltb_spec. unfold SFltb, Z.ltb. rewrite (compare_val a b Na Nb).
  destruct (Fval a ?= Fval b)%Z; reflexivity.
Qed.

Lemma leb_val (a b : float) :
  JS.isNaN a = false -> JS.isNaN b = false -> (a <=? b) = (Fval a <=? Fval b)%Z.
Proof.
  intros Na Nb. rewrite FloatAxioms.leb_spec. unfold SFleb, Z.leb. rewrite (compare_val a b Na Nb).
  destruct (Fval a ?= Fval b)%Z; reflexivity.
Qed.

Lemma eqb_val (a b : float) :
  JS.isNaN a = false -> JS.isNaN b = false -> (a =? b) = (Fval a =? Fval b)%Z.
Proof.
  intros Na Nb. rewrite FloatAxioms.eqb_spec. unfold SFeqb. rewrite (compare_val a b Na Nb).
  destruct (Z.compare_spec (Fval a) (Fval b)) as [E | E | E]; symmetry;
    [apply Z.eqb_eq; exact E | apply Z.eqb_neq; lia | apply Z.eqb_neq; lia].
Qed.

(** Every comparison with [NaN] is false. *)
Lemma compare_nan (a b : float) :
  JS.isNaN a = true \/ JS.isNaN b = true ->
  SFcompare (Prim2SF a) (Prim2SF b) = None.
Proof.
  rewrite !isNaN_spec. intros [N | N].
  - destruct (Prim2SF a); try discriminate. reflexivity.
  - destruct (Prim2SF b); try discriminate. destruct (Prim2SF a); reflexivity.
Qed.

Lemma ltb_nan (a b : float) :
  JS.isNaN a = true \/ JS.isNaN b = true -> (a <? b) = false.
Proof. intros N. rewrite FloatAxioms.ltb_spec. unfold SFltb. rewrite (compare_nan a b N). reflexivity. Qed.

Lemma leb_nan (a b : float) :
  JS.isNaN a = true \/ JS.isNaN b = true -> (a <=? b) = false.
Proof. intros N. rewrite FloatAxioms.leb_spec. unfold SFleb. rewrite (compare_nan a b N). reflexivity. Qed.

Lemma eqb_nan (a b : float) :
  JS.isNaN a = true \/ JS.isNaN b = true -> (a =? b) = false.
Proof. intros N. rewrite FloatAxioms.eqb_spec. unfold SFeqb. rewrite (compare_nan a b N). reflexivity. Qed.

Lemma leb_true_not_nan (a b : float) :
  (a <=? b) = true -> JS.isNaN a = false /\ JS.isNaN b = false.
Proof.
  intros H. destruct (JS.isNaN a) eqn:Na; [rewrite leb_nan in H by auto; discriminate|].
  destruct (JS.isNaN b) eqn:Nb; [rewrite leb_nan in H by auto; discriminate|]. auto.
Qed.

Lemma ltb_true_not_nan (a b : float) :
  (a <? b) = true -> JS.isNaN a = false /\ JS.isNaN b = false.
Proof.
  intros H. destruct (JS.isNaN a) eqn:Na; [rewrite ltb_nan in H by auto; discriminate|].
  destruct (JS.isNaN b) eqn:Nb; [rewrite ltb_nan in H by auto; discriminate|]. auto.
Qed.

Lemma eqb_true_not_nan (a b : float) :
  (a =? b) = true -> JS.isNaN a = false /\ JS.isNaN b = false.
Proof.
  intros H. destruct (JS.isNaN a) eqn:Na; [rewrite eqb_nan in H by auto; discriminate|].
  destruct (JS.isNaN b) eqn:Nb; [rewrite eqb_nan in H by auto; discriminate|]. auto.
Qed.

(** The comparator [a - b] is positive exactly when [a > b]. *)
Lemma sub_sign (a b : float) :
  JS.isNaN a = false -> JS.isNaN b = false -> (0 <? a - b) = (b <? a).
Proof.
  intros Na Nb.
  pose proof (SFsub_sign (Prim2SF a) (Prim2SF b) (Prim2SF_valid a) (Prim2SF_valid b)) as S.
  rewrite <- !isNaN_spec in S. specialize (S Na Nb). cbn zeta in S.
  rewrite <- FloatAxioms.sub_spec, <- isNaN_spec in S. fold (Fval (a - b)) (Fval a) (Fval b) in S.
  destruct S as [S1 S2]. rewrite (ltb_val b a Nb Na).
  destruct (JS.isNaN (a - b)) eqn:Nr.
  - rewrite ltb_nan by auto. rewrite (S1 eq_refl), Z.ltb_irrefl. reflexivity.
  - rewrite (ltb_val 0 (a - b) eq_refl Nr). change (Fval 0) with 0%Z.
    apply Bool.eq_iff_eq_true. rewrite !Z.ltb_lt. apply S2. reflexivity.
Qed.

Lemma isFinite_spec (x : float) : JS.Number_isFinite x = SFis_finite (Prim2SF x).
Proof.
  unfold JS.Number_isFinite, is_finite, is_infinity.
  change (is_nan x) with (JS.isNaN x). rewrite isNaN_spec, FloatAxioms.eqb_spec, FloatAxioms.abs_spec.
  change (Prim2SF infinity) with (S754_infinity false).
  destruct (Prim2SF x) as [s | s | | s m e]; reflexivity.
Qed.

(** The median of two: when the sum of [a <= b] does not overflow, half of
    it lies between them. *)
Lemma midpoint_between (a b : float) :
  (a <=? b) = true -> JS.Number_isFinite (a + b) = true ->
  (a <=? (a + b) / 2) = true /\ ((a + b) / 2 <=? b) = true.
Proof.
  intros Hab Hfin. destruct (leb_true_not_nan a b Hab) as [Na Nb].
  rewrite (leb_val a b Na Nb) in Hab. apply Z.leb_le in Hab.
  rewrite isFinite_spec, add_spec in Hfin.
  destruct (SFadd_finite_operands _ _ Hfin) as [Fa Fb].
  pose proof (SFadd_sandwich _ _ (Prim2SF_valid a) (Prim2SF_valid b) Fa Fb) as S. cbn zeta in S.
  rewrite <- add_spec in S, Hfin. destruct S as (Nr & O1 & O2 & S).
  pose proof (finite_val_bound _ (Prim2SF_valid (a + b)) Hfin) as Br.
  pose proof (SFdiv_two_sandwich _ (Prim2SF_valid (a + b)) Hfin) as D. cbn zeta in D.
  change SFtwo with (Prim2SF 2) in D. rewrite <- div_spec in D. destruct D as [Nh D].
  fold (Fval a) (Fval b) (Fval (a + b)) in *.
  assert (L : (2 * Fval a <= Fval (a + b))%Z).
  { destruct (double_representable _ (Prim2SF_valid a) Fa) as [(f & Vf & Ff & Ef) | Big].
    - fold (Fval a) in Ef. rewrite <- Ef. apply (S f Vf Ff). lia.
    - fold (Fval a) in Big. lia. }
  assert (U : (Fval (a + b) <= 2 * Fval b)%Z).
  { destruct (double_representable _ (Prim2SF_valid b) Fb) as [(f & Vf & Ff & Ef) | Big].
    - fold (Fval b) in Ef. rewrite <- Ef. apply (S f Vf Ff). lia.
    - fold (Fval b) in Big. lia. }
  rewrite <- isNaN_spec in Nh.
  rewrite (leb_val a _ Na Nh), (leb_val _ b Nh Nb).
  destruct (D (Prim2SF a) (Prim2SF_valid a) Fa) as [D1 _].
  destruct (D (Prim2SF b) (Prim2SF_valid b) Fb) as [_ D2].
  fold (Fval a) (Fval b) (Fval ((a + b) / 2)) in *.
  split; apply Z.leb_le; auto.
Qed.

End NumberFacts.

(** * The service *)

(** ** Sorting *)

Section SortFacts.
Local Open Scope float_scope.

Lemma fle_refl (a : float) : notNaN a -> fle a a.
Proof. intros N. unfold fle. rewrite (leb_val a a N N). apply Z.leb_refl. Qed.

Lemma fle_trans (a b c : float) : fle a b -> fle b c -> fle a c.
Proof.
  unfold fle. intros H1 H2.
  destruct (leb_true_not_nan _ _ H1) as [Na Nb]. destruct (leb_true_not_nan _ _ H2) as [_ Nc].
  rewrite leb_val in * by assumption. apply Z.leb_le in H1, H2. apply Z.leb_le. lia.
Qed.

Lemma not_ltb_fle (a b : float) : notNaN a -> notNaN b -> (b <? a) = false -> fle a b.
Proof.
  unfold fle, notNaN. intros Na Nb H. rewrite ltb_val in H by assumption.
  rewrite leb_val by assumption. apply Z.ltb_ge in H. apply Z.leb_le. exact H.
Qed.

Lemma ltb_fle (a b : float) : (a <? b) = true -> fle a b.
Proof.
  unfold fle. intros H. destruct (ltb_true_not_nan _ _ H) as [Na Nb].
  rewrite ltb_val in H by assumption. rewrite leb_val by assumption.
  apply Z.ltb_lt in H. apply Z.leb_le. lia.
Qed.

Lemma eqb_fle (a b : float) : (a =? b) = true -> fle a b.
Proof.
  unfold fle. intros H. destruct (eqb_true_not_nan _ _ H) as [Na Nb].
  rewrite eqb_val in H by assumption. rewrite leb_val by assumption.
  apply Z.eqb_eq in H. apply Z.leb_le. lia.
Qed.

Lemma insert_perm {A : Type} (cmp : A -> A -> float) (x : A) (l : list A) :
  Permutation (x :: l) (insert cmp x l).
Proof.
  induction l as [ | y t IH]; cbn [insert]; [reflexivity|].
  destruct (0 <? cmp x y); [ | reflexivity].
  rewrite perm_swap. apply perm_skip. exact IH.
Qed.

(** The sorted array holds the elements of the array. *)
Lemma Array_sort_perm {A : Type} (cmp : A -> A -> float) (l : list A) :
  Permutation l (Array_sort cmp l).
Proof.
  induction l as [ | x t IH]; cbn [Array_sort fold_right]; [reflexivity|].
  rewrite <- insert_perm. apply perm_skip. exact IH.
Qed.

Lemma insert_sorted (x : float) (l : list float) :
  notNaN x -> Forall notNaN l -> StronglySorted fle l ->
  StronglySorted fle (insert ascending x l).
Proof.
  intros Nx Nl Hs. induction Hs as [ | y t Hs IH Hy]; cbn [insert].
  - constructor; constructor.
  - inversion Nl as [ | ? ? Ny Nt]; subst. unfold ascending at 1.
    rewrite (sub_sign x y Nx Ny). destruct (y <? x) eqn:C.
    + constructor; [apply IH; assumption|].
      rewrite <- (insert_perm ascending x t). constructor; [apply ltb_fle; exact C | exact Hy].
    + pose proof (not_ltb_fle x y Nx Ny C) as Hxy.
      constructor; [constructor; assumption|]. constructor; [exact Hxy|].
      eapply Forall_impl; [ | exact Hy]. intros z Hz. eapply fle_trans; eassumption.
Qed.

(** With the comparator [a - b], an array without [NaN] comes out ascending. *)
Lemma Array_sort_sorted (l : list float) :
  Forall notNaN l -> StronglySorted fle (Array_sort ascending l).
Proof.
  induction l as [ | x t IH]; intros Nl; cbn [Array_sort fold_right]; [constructor|].
  inversion Nl as [ | ? ? Nx Nt]; subst.
  apply insert_sorted; [exact Nx | | apply IH; exact Nt].
  rewrite <- (Array_sort_perm ascending t). exact Nt.
Qed.

Lemma numericColumn_notNaN (data : list DataItem) (key : string) :
  Forall notNaN (numericColumn data key).
Proof.
  unfold numericColumn. apply Forall_forall. intros x Hx. apply filter_In in Hx.
  destruct Hx as [_ Hx]. unfold notNaN. destruct (JS.isNaN x); [discriminate | reflexivity].
Qed.

(** In an ascending array, a smaller index reads a smaller element. *)
Lemma sorted_at_index (l : list float) (i j : nat) :
  Forall notNaN l -> StronglySorted fle l ->
  (i <= j)%nat -> (j < List.length l)%nat -> fle (at_index l i) (at_index l j).
Proof.
  intros Nl Hs. revert i j. induction Hs as [ | x t Hs IH Hx]; intros i j Hij Hj; cbn [List.length] in Hj.
  - lia.
  - inversion Nl as [ | ? ? Nx Nt]; subst. unfold at_index in *.
    destruct i as [ | i], j as [ | j]; cbn [nth]; try lia.
    + apply fle_refl. exact Nx.
    + rewrite Forall_forall in Hx. apply Hx. apply nth_In. lia.
    + apply IH; [exact Nt | lia | lia].
Qed.

End SortFacts.

(** ** calculateStats *)

Section StatsFacts.
Local Open Scope float_scope.

Lemma index_order (n : nat) :
  (1 <= n ->
   n / 4 <= n / 2 /\ n / 2 <= 3 * n / 4 /\ 3 * n / 4 <= n - 1 /\ n / 4 <= 3 * n / 4)%nat.
Proof.
  intros.
  pose proof (Nat.div_mod_eq n 4). pose proof (Nat.mod_upper_bound n 4 ltac:(lia)).
  pose proof (Nat.div_mod_eq n 2). pose proof (Nat.mod_upper_bound n 2 ltac:(lia)).
  pose proof (Nat.div_mod_eq (3 * n) 4). pose proof (Nat.mod_upper_bound (3 * n) 4 ltac:(lia)).
  lia.
Qed.

Lemma index_order_even (n : nat) :
  (1 <= n)%nat -> Nat.even n = true -> (n / 4 <= n / 2 - 1 /\ 1 <= n / 2)%nat.
Proof.
  intros H Ev. apply Nat.even_spec in Ev. destruct Ev as [k Ek].
  pose proof (Nat.div_mod_eq n 4). pose proof (Nat.mod_upper_bound n 4 ltac:(lia)).
  pose proof (Nat.div_mod_eq n 2). pose proof (Nat.mod_upper_bound n 2 ltac:(lia)).
  lia.
Qed.

(** What [calculateStats] returns: the statistics of the sorted column, which
    is not empty, has no [NaN] and is ascending. *)
Lemma calculateStats_Some (data : list DataItem) (key : string) (stats : Stats) :
  calculateStats data key = Some stats ->
  let sorted := Array_sort ascending (numericColumn data key) in
  stats = statsOfSorted sorted /\ (1 <= List.length sorted)%nat /\
  Forall notNaN sorted /\ StronglySorted fle sorted.
Proof.
  unfold calculateStats. intros H. cbn zeta.
  destruct (Nat.eqb_spec (List.length (numericColumn data key)) 0) as [E | E]; [discriminate|].
  injection H as <-.
  pose proof (Array_sort_perm ascending (numericColumn data key)) as P.
  split; [reflexivity|]. split; [rewrite <- (Permutation_length P); lia|].
  split; [rewrite <- P; apply numericColumn_notNaN | apply Array_sort_sorted, numericColumn_notNaN].
Qed.

(** C7, as the code has it.  The minimum, the quartiles and the maximum of
    a column are in order, [min <= q1 <= q3 <= max]; and the median lies
    between the quartiles when the count is odd, or when the sum of the two
    middle elements of the sorted column is finite. *)
Theorem calculateStats_quartile_order (data : list DataItem) (key : string) (stats : Stats) :
  calculateStats data key = Some stats ->
  let sorted := Array_sort ascending (numericColumn data key) in
  let lower := at_index sorted (midIndex (count stats) - 1) in
  let upper := at_index sorted (midIndex (count stats)) in
  fle (min stats) (q1 stats) /\ fle (q1 stats) (q3 stats) /\ fle (q3 stats) (max stats) /\
  (Nat.even (count stats) = false \/ JS.Number_isFinite (lower + upper) = true ->
   fle (q1 stats) (median stats) /\ fle (median stats) (q3 stats)).
Proof.
  intros H. destruct (calculateStats_Some data key stats H) as (E & Hn & Nn & Hs). cbn zeta.
  set (sorted := Array_sort ascending (numericColumn data key)) in *.
  subst stats. cbn [statsOfSorted count min max q1 q3 median].
  set (n := List.length sorted) in *. unfold midIndex, q1Index, q3Index.
  destruct (index_order n Hn) as (I1 & I2 & I3 & I4).
  assert (S : forall i j, (i <= j)%nat -> (j < n)%nat -> fle (at_index sorted i) (at_index sorted j))
    by (intros; apply sorted_at_index; assumption).
  split; [apply S; lia|]. split; [apply S; lia|]. split; [apply S; lia|].
  intros Hmid. destruct (Nat.even n) eqn:Ev.
  - destruct Hmid as [Hodd | Hfin]; [discriminate|].
    destruct (index_order_even n Hn Ev) as [J1 J2].
    destruct (midpoint_between _ _ (S (n / 2 - 1) (n / 2) ltac:(lia) ltac:(lia))%nat Hfin) as [M1 M2].
    split.
    + eapply fle_trans; [apply (S (n / 4) (n / 2 - 1))%nat; lia | exact M1].
    + eapply fle_trans; [exact M2 | apply S; lia].
  - split; apply S; lia.
Qed.

(** A column the theorem applies to, with an even count. *)
Lemma calculateStats_quartile_order_witness :
  exists stats, calculateStats (columnOf "x" [4; 1; 3; 2]) "x" = Some stats /\
    fle (min stats) (q1 stats) /\ fle (q1 stats) (median stats) /\
    fle (median stats) (q3 stats) /\ fle (q3 stats) (max stats) /\
    median stats = 2.5.
Proof.
  eexists. split; [vm_compute; reflexivity|].
  destruct (calculateStats_quartile_order (columnOf "x" [4; 1; 3; 2]) "x" _ eq_refl)
    as (H1 & H2 & H3 & H4).
  destruct H4 as [H5 H6]; [right; vm_compute; reflexivity|].
  repeat split; assumption.
Defined.

(** C7 as stated fails: both values are finite, their sum overflows, and the
    median is [Infinity], above the third quartile and the maximum. *)
Lemma calculateStats_quartile_order_overflow :
  exists stats,
    calculateStats (columnOf "x" [1.7e308; 1.7e308]) "x" = Some stats /\
    median stats = infinity /\
    (median stats <=? q3 stats) = false /\ (median stats <=? max stats) = false.
Proof. eexists. split; [vm_compute; reflexivity|]. repeat split. Qed.

End StatsFacts.

(** ** The mode *)

Section ModeFacts.
Local Open Scope float_scope.

Lemma feqb_refl (a : float) : notNaN a -> (a =? a) = true.
Proof. intros N. rewrite (eqb_val a a N N). apply Z.eqb_refl. Qed.

Lemma feqb_sym (a b : float) : (a =? b) = (b =? a).
Proof.
  destruct (JS.isNaN a) eqn:Na; [rewrite !eqb_nan by auto; reflexivity|].
  destruct (JS.isNaN b) eqn:Nb; [rewrite !eqb_nan by auto; reflexivity|].
  rewrite !eqb_val by assumption. apply Z.eqb_sym.
Qed.

(** Equal numbers compare alike with every number. *)
Lemma feqb_congr (a b c : float) : (a =? b) = true -> (a =? c) = (b =? c).
Proof.
  intros H. destruct (eqb_true_not_nan _ _ H) as [Na Nb].
  rewrite eqb_val in H by assumption. apply Z.eqb_eq in H.
  destruct (JS.isNaN c) eqn:Nc; [rewrite !eqb_nan by auto; reflexivity|].
  rewrite !eqb_val by assumption. rewrite H. reflexivity.
Qed.

Lemma occurrences_app (p q : list float) (v : float) :
  occurrences (p ++ q) v = (occurrences p v + occurrences q v)%nat.
Proof. unfold occurrences. rewrite filter_app, length_app. reflexivity. Qed.

Lemma occurrences_one (x v : float) :
  occurrences [x] v = if x =? v then 1%nat else 0%nat.
Proof. unfold occurrences. cbn [filter]. destruct (x =? v); reflexivity. Qed.

Lemma occurrences_congr (p : list float) (a b : float) :
  (a =? b) = true -> occurrences p a = occurrences p b.
Proof.
  intros H. unfold occurrences. f_equal. apply filter_ext. intros x.
  rewrite (feqb_sym x a), (feqb_sym x b). apply feqb_congr. exact H.
Qed.

Lemma occurrences_perm (p q : list float) (v : float) :
  Permutation p q -> occurrences p v = occurrences q v.
Proof.
  unfold occurrences. induction 1 as [ | x p q _ IH | x y p | p q r _ IH1 _ IH2]; cbn [filter].
  - reflexivity.
  - destruct (x =? v); cbn [List.length]; congruence.
  - destruct (x =? v), (y =? v); reflexivity.
  - congruence.
Qed.

(** A key equal to [x] is equal to [v] exactly when [x] is. *)
Lemma key_congr (k x v : float) : (k =? x) = true -> (k =? v) = (x =? v).
Proof. intros H. apply feqb_congr. exact H. Qed.

Lemma key_other (k x v : float) : (k =? x) = false -> (x =? v) = true -> (k =? v) = false.
Proof.
  intros Kx Xv. destruct (k =? v) eqn:Kv; [ | reflexivity].
  rewrite feqb_sym in Kv. rewrite (feqb_sym x v) in Xv.
  rewrite (feqb_congr v x k Xv) in Kv. rewrite feqb_sym in Kv. congruence.
Qed.

(** Reading the [frequency] record after a write. *)
Lemma frequency_get_set (fr : Frequency) (x v : float) (n : nat) :
  notNaN x ->
  frequency_get (frequency_set fr x n) v = if x =? v then n else frequency_get fr v.
Proof.
  intros Nx. unfold frequency_get, frequency_set.
  destruct (x =? v) eqn:Xv.
  - destruct (existsb (fun p => fst p =? x) fr) eqn:Ex.
    + induction fr as [ | [k c] fr IH]; cbn [map find fst snd existsb] in *; [discriminate|].
      destruct (k =? x) eqn:Kx; cbn [fst snd].
      * rewrite (key_congr k x v Kx), Xv. reflexivity.
      * rewrite (key_other k x v Kx Xv). apply IH. exact Ex.
    + induction fr as [ | [k c] fr IH]; cbn [app find fst snd existsb] in *.
      * rewrite Xv. reflexivity.
      * apply orb_false_iff in Ex. destruct Ex as [Kx Ex].
        rewrite (key_other k x v Kx Xv). apply IH. exact Ex.
  - destruct (existsb (fun p => fst p =? x) fr) eqn:Ex; clear Ex.
    + induction fr as [ | [k c] fr IH]; cbn [map find fst snd]; [reflexivity|].
      destruct (k =? x) eqn:Kx; cbn [fst snd].
      * rewrite (key_congr k x v Kx), Xv. exact IH.
      * destruct (k =? v); [reflexivity | exact IH].
    + induction fr as [ | [k c] fr IH]; cbn [app find fst snd].
      * rewrite Xv. reflexivity.
      * destruct (k =? v); [reflexivity | exact IH].
Qed.

Lemma sorted_snoc (p : list float) (x : float) :
  StronglySorted fle (p ++ [x]) -> StronglySorted fle p /\ Forall (fun y => fle y x) p.
Proof.
  induction p as [ | y p IH]; cbn [app]; intros H.
  - split; constructor.
  - inversion H as [ | ? ? Hs Hy]; subst. destruct (IH Hs) as [S1 S2].
    rewrite Forall_app in Hy. destruct Hy as [Hy1 Hy2]. inversion Hy2; subst.
    split; constructor; assumption.
Qed.

Lemma modeScan_invariant (p : list float) :
  Forall notNaN p -> StronglySorted fle p -> ScanInvariant p (modeScan p).
Proof.
  induction p as [ | x p IH] using rev_ind; intros Np Hs.
  - constructor; cbn; auto.
  - apply Forall_app in Np. destruct Np as [Np Nx]. inversion Nx as [ | ? ? Nx' _]; subst.
    destruct (sorted_snoc p x Hs) as [Hs' Hle]. specialize (IH Np Hs').
    unfold modeScan in *. rewrite fold_left_app. cbn [fold_left].
    set (st := fold_left modeStep p _) in *. destruct IH as [IA IC IB].
    unfold modeStep. rewrite IA.
    set (f := (occurrences p x + 1)%nat).
    assert (Ocalc : forall v, occurrences (p ++ [x]) v
                             = (occurrences p v + if (x =? v)%float then 1 else 0)%nat)
      by (intros; rewrite occurrences_app, occurrences_one; reflexivity).
    assert (Oeq : forall v, (x =? v) = true -> occurrences (p ++ [x]) v = f).
    { intros v E. rewrite Ocalc, E. unfold f. rewrite (occurrences_congr p x v E). reflexivity. }
    assert (One : forall v, (x =? v) = false -> occurrences (p ++ [x]) v = occurrences p v).
    { intros v E. rewrite Ocalc, E. lia. }
    assert (Xx : (x =? x) = true) by (apply feqb_refl; exact Nx').
    assert (FA : forall v, frequency_get (frequency_set (frequency st) x f) v
                           = occurrences (p ++ [x]) v).
    { intros v. rewrite frequency_get_set by exact Nx'. destruct (x =? v) eqn:E.
      - symmetry. apply Oeq. exact E.
      - rewrite IA. symmetry. apply One. exact E. }
    destruct (Nat.ltb_spec (maxFreq st) f) as [Up | Keep]; constructor; cbn [frequency maxFreq scanMode].
    + exact FA.
    + intros v. destruct (x =? v) eqn:E; [rewrite (Oeq v E); lia | rewrite (One v E)].
      specialize (IC v). lia.
    + split; [apply in_or_app; right; left; reflexivity|]. split; [apply Oeq; exact Xx|].
      split.
      * exists p, []. split; [reflexivity|]. split; [apply Oeq; exact Xx|].
        intros v. specialize (IC v). lia.
      * intros v _ Hv. destruct (x =? v) eqn:E; [apply eqb_fle; exact E|].
        rewrite (One v E) in Hv. specialize (IC v). lia.
    + exact FA.
    + intros v. destruct (x =? v) eqn:E; [rewrite (Oeq v E); lia | rewrite (One v E); apply IC].
    + destruct (scanMode st) as [m | ].
      * destruct IB as (Im & Om & (p1 & p2 & Ep & Op & Lt) & Tie).
        assert (Xm : (x =? m) = false).
        { destruct (x =? m) eqn:E; [ | reflexivity].
          rewrite <- (occurrences_congr p x m E) in Om. unfold f in Keep. lia. }
        split; [apply in_or_app; left; exact Im|]. split; [rewrite (One m Xm); exact Om|].
        split.
        -- exists p1, (p2 ++ [x]). split; [rewrite Ep, <- app_assoc; reflexivity|].
           split; assumption.
        -- intros v Hv Ov. destruct (x =? v) eqn:E.
           ++ eapply fle_trans; [ | apply eqb_fle; exact E].
              rewrite Forall_forall in Hle. apply Hle. exact Im.
           ++ rewrite (One v E) in Ov. apply Tie; [ | exact Ov].
              apply in_app_or in Hv. destruct Hv as [Hv | [<- | []]]; [exact Hv | congruence].
      * destruct IB as [_ M0]. unfold f in Keep. lia.
Qed.

(** C9.  The mode is a value of the column that no value occurs more often
    than, and the least of those that occur as often; it is the element of
    the sorted column at which a running count first reaches the greatest
    frequency. *)
Theorem calculateStats_mode (data : list DataItem) (key : string) (stats : Stats) :
  calculateStats data key = Some stats ->
  let values := numericColumn data key in
  let sorted := Array_sort ascending values in
  exists m,
    mode stats = Some m /\ In m values /\
    (forall v, In v values -> (occurrences values v <= occurrences values m)%nat) /\
    (forall v, In v values -> occurrences values v = occurrences values m -> fle m v) /\
    (exists before after,
        sorted = before ++ m :: after /\
        occurrences (before ++ [m]) m = occurrences values m /\
        forall v, (occurrences before v < occurrences values m)%nat).
Proof.
  intros H. destruct (calculateStats_Some data key stats H) as (E & Hn & Nn & Hs). cbn zeta.
  set (values := numericColumn data key) in *.
  set (sorted := Array_sort ascending values) in *.
  pose proof (Array_sort_perm ascending values) as P. fold sorted in P.
  destruct (modeScan_invariant sorted Nn Hs) as [IA IC IB].
  subst stats. cbn [statsOfSorted mode].
  assert (O : forall v, occurrences values v = occurrences sorted v)
    by (intros; apply occurrences_perm; exact P).
  destruct (scanMode (modeScan sorted)) as [m | ].
  - destruct IB as (Im & Om & (p1 & p2 & Ep & Op & Lt) & Tie).
    exists m. split; [reflexivity|]. split; [rewrite P; exact Im|].
    split; [intros v _; rewrite !O, Om; apply IC|].
    split.
    + intros v Hv Ov. apply Tie; [rewrite <- P; exact Hv | rewrite <- !O, Ov, O; exact Om].
    + exists p1, p2. rewrite O, Om. auto.
  - destruct IB as [E0 _]. rewrite E0 in Hn. cbn in Hn. lia.
Qed.

(** A column with a tie: 1 and 2 both occur three times, and 1 is the mode. *)
Lemma calculateStats_mode_witness :
  exists stats m,
    calculateStats (columnOf "x" [3; 1; 2; 3; 1; 2; 2; 1]) "x" = Some stats /\
    mode stats = Some m /\ m = 1 /\ fle m 2.
Proof.
  eexists.
  destruct (calculateStats_mode (columnOf "x" [3; 1; 2; 3; 1; 2; 2; 1]) "x" _ eq_refl)
    as (m & Hm & Hin & Hmax & Htie & _).
  exists m. split; [reflexivity|]. split; [exact Hm|].
  assert (E : m = 1) by (vm_compute in Hm; congruence).
  split; [exact E|]. apply Htie; [vm_compute; tauto|].
  rewrite E. vm_compute. reflexivity.
Defined.

End ModeFacts.

(** ** detectSeasonality *)

Section SeasonalityFacts.
Local Open Scope float_scope.

Lemma fltb_irrefl (a : float) : (a <? a) = false.
Proof.
  destruct (JS.isNaN a) eqn:N; [apply ltb_nan; auto|].
  rewrite (ltb_val a a N N). apply Z.ltb_irrefl.
Qed.

Lemma fltb_trans (a b c : float) : (a <? b) = true -> (b <? c) = true -> (a <? c) = true.
Proof.
  intros H1 H2. destruct (ltb_true_not_nan _ _ H1) as [Na Nb].
  destruct (ltb_true_not_nan _ _ H2) as [_ Nc].
  rewrite ltb_val in * by assumption. apply Z.ltb_lt in H1, H2. apply Z.ltb_lt. lia.
Qed.

(** A candidate that does not beat the best so far does not beat a later,
    greater best. *)
Lemma not_beaten_later (c best best' : float) :
  (best <? c) = false -> notNaN best -> fle best best' -> (best' <? c) = false.
Proof.
  intros H Nb Hle. destruct (leb_true_not_nan _ _ Hle) as [_ Nb'].
  destruct (JS.isNaN c) eqn:Nc; [apply ltb_nan; auto|].
  unfold fle in Hle. rewrite ltb_val in * by assumption. rewrite leb_val in Hle by assumption.
  apply Z.ltb_ge in H. apply Z.leb_le in Hle. apply Z.ltb_ge. lia.
Qed.

Lemma beaten_not_equal (c best best' : float) :
  (best <? c) = false -> notNaN best -> (best <? best') = true -> (c =? best') = false.
Proof.
  intros H Nb Hlt. destruct (ltb_true_not_nan _ _ Hlt) as [_ Nb'].
  destruct (JS.isNaN c) eqn:Nc; [apply eqb_nan; auto|].
  rewrite ltb_val in * by assumption. rewrite eqb_val by assumption.
  apply Z.ltb_ge in H. apply Z.ltb_lt in Hlt. apply Z.eqb_neq. lia.
Qed.

(** The loop over the candidate periods [ps], ascending, from the state
    [b]: the best confidence never decreases, no candidate beats it, and
    when it was replaced, it is the confidence of the least of the
    candidates that have it. *)
Lemma seasonality_fold (directions : list Direction) (ps : list nat) (b : nat * float) :
  (forall p, In p ps -> (List.length directions <? p * 2)%nat = false) ->
  StronglySorted le ps -> notNaN (snd b) ->
  let b' := fold_left (seasonalityStep directions) ps b in
  notNaN (snd b') /\ fle (snd b) (snd b') /\
  (forall p, In p ps -> (snd b' <? confidenceOf directions p) = false) /\
  (b' = b \/
   (snd b <? snd b') = true /\ In (fst b') ps /\
   snd b' = confidenceOf directions (fst b') /\
   forall p, In p ps -> (confidenceOf directions p =? snd b') = true -> (fst b' <= p)%nat).
Proof.
  revert b. induction ps as [ | p0 t IH]; intros b Hlen Hs Nb; cbn zeta; cbn [fold_left].
  - split; [exact Nb|]. split; [apply fle_refl; exact Nb|]. split; [intros p []|]. left. reflexivity.
  - inversion Hs as [ | ? ? Hs' Hp0]; subst.
    set (b1 := seasonalityStep directions b p0).
    set (c := confidenceOf directions p0).
    assert (Step : (b1 = b /\ (snd b <? c) = false) \/ (b1 = (p0, c) /\ (snd b <? c) = true)).
    { unfold b1, seasonalityStep. rewrite (Hlen p0 (or_introl eq_refl)). fold c.
      destruct (snd b <? c); [right | left]; split; reflexivity. }
    assert (N1 : notNaN (snd b1) /\ fle (snd b) (snd b1) /\ (snd b1 <? c) = false).
    { destruct Step as [[-> H] | [-> H]]; cbn [snd].
      - split; [exact Nb|]. split; [apply fle_refl; exact Nb | exact H].
      - destruct (ltb_true_not_nan _ _ H) as [_ Nc].
        split; [exact Nc|]. split; [apply ltb_fle; exact H | apply fltb_irrefl]. }
    destruct N1 as (Nb1 & Hle1 & Hc1).
    destruct (IH b1 (fun p Hp => Hlen p (or_intror Hp)) Hs' Nb1) as (Nb' & Hle' & Hno & Hcase).
    cbn zeta in *. set (b' := fold_left (seasonalityStep directions) t b1) in *.
    split; [exact Nb'|]. split; [eapply fle_trans; eassumption|]. split.
    + intros p [E | Hp]; [ | apply Hno; exact Hp].
      subst p. fold c. eapply not_beaten_later; eassumption.
    + destruct Hcase as [E | (Hlt & Hin & Hconf & Hmin)].
      * rewrite E. destruct Step as [[-> H] | [E1 H]]; [left; reflexivity | right].
        rewrite E1. cbn [fst snd]. split; [exact H|]. split; [left; reflexivity|].
        split; [reflexivity|]. intros p [E' | Hp] _; [lia|].
        rewrite Forall_forall in Hp0. apply Hp0. exact Hp.
      * right. split.
        -- destruct Step as [[E1 H] | [E1 H]]; rewrite E1 in Hlt; cbn [snd] in Hlt; [exact Hlt|].
           eapply fltb_trans; eassumption.
        -- split; [right; exact Hin|]. split; [exact Hconf|].
           intros p [E | Hp] Heq; [ | apply Hmin; assumption].
           subst p. fold c in Heq.
           rewrite (beaten_not_equal _ _ _ Hc1 Nb1 Hlt) in Heq. discriminate.
Qed.

Lemma directionsFrom_length (previous : float) (values : list float) :
  List.length (directionsFrom previous values) = List.length values.
Proof.
  revert previous. induction values as [ | v rest IH]; intros previous; cbn [directionsFrom List.length].
  - reflexivity.
  - rewrite IH. reflexivity.
Qed.

Lemma directionsOf_length (values : list float) :
  List.length (directionsOf values) = (List.length values - 1)%nat.
Proof.
  destruct values as [ | v0 rest]; cbn [directionsOf List.length]; [reflexivity|].
  rewrite directionsFrom_length. lia.
Qed.

(** C10.  The period [detectSeasonality] returns is one of 2, 3 and 4, its
    confidence is that period's and exceeds 0.3, no period has a greater
    confidence, and every period with the same confidence is at least as
    long: of the periods with the maximal confidence the smallest is
    returned. *)
Theorem detectSeasonality_smallest_period
  (data : list DataItem) (column : string) (result : SeasonalityResult) :
  detectSeasonality data column = Some result ->
  let directions := directionsOf (numericColumn data column) in
  In (patternLength result) [2; 3; 4]%nat /\
  confidence result = confidenceOf directions (patternLength result) /\
  (0.3 <? confidence result) = true /\
  forall p, In p [2; 3; 4]%nat ->
    (confidence result <? confidenceOf directions p) = false /\
    ((confidenceOf directions p =? confidence result) = true -> (patternLength result <= p)%nat).
Proof.
  unfold detectSeasonality. intros H. cbn zeta.
  destruct (Nat.ltb_spec (List.length data) 10) as [ | _]; [discriminate|].
  set (values := numericColumn data column) in *.
  destruct (Nat.ltb_spec (List.length values) 10) as [ | Hv]; [discriminate|].
  set (directions := directionsOf values) in *.
  assert (Hlen : forall p, In p [2; 3; 4]%nat -> (List.length directions <? p * 2)%nat = false).
  { intros p Hp. apply Nat.ltb_ge. unfold directions. rewrite directionsOf_length.
    cbn [In] in Hp. lia. }
  assert (Hs : StronglySorted le [2; 3; 4]%nat) by (repeat constructor; lia).
  destruct (seasonality_fold directions [2; 3; 4]%nat (0%nat, 0) Hlen Hs eq_refl)
    as (_ & _ & Hno & Hcase).
  cbn zeta in Hno, Hcase. fold (bestPattern directions) in Hno, Hcase.
  destruct (bestPattern directions) as [maxPatternLength patternConfidence] eqn:Eb.
  destruct (0.3 <? patternConfidence) eqn:Hconf; [ | discriminate].
  injection H as <-. cbn [patternLength confidence fst snd] in *.
  destruct Hcase as [E | (_ & Hin & Hc & Hmin)].
  - injection E as _ E. rewrite E in Hconf. discriminate.
  - split; [exact Hin|]. split; [exact Hc|]. split; [exact Hconf|].
    intros p Hp. split; [apply Hno; exact Hp | apply Hmin; exact Hp].
Qed.

(** Ten values going up and down: periods 2 and 4 both have confidence 2,
    and 2 is returned. *)
Lemma detectSeasonality_smallest_period_witness :
  exists result,
    detectSeasonality (columnOf "x" [1; 2; 1; 2; 1; 2; 1; 2; 1; 2]) "x" = Some result /\
    (confidenceOf (directionsOf [1; 2; 1; 2; 1; 2; 1; 2; 1; 2]) 4 =? confidence result) = true /\
    (patternLength result <= 4)%nat /\ patternLength result = 2%nat.
Proof.
  eexists. split; [vm_compute; reflexivity|].
  destruct (detectSeasonality_smallest_period
              (columnOf "x" [1; 2; 1; 2; 1; 2; 1; 2; 1; 2]) "x" _ eq_refl)
    as (_ & _ & _ & Hp).
  destruct (Hp 4%nat ltac:(cbn; tauto)) as [_ Hmin].
  split; [vm_compute; reflexivity|]. split; [apply Hmin; vm_compute; reflexivity | reflexivity].
Defined.

End SeasonalityFacts.

(** ** detectTrends *)

Section TrendFacts.
Local Open Scope float_scope.

Lemma fltb_asym (a b : float) : (a <? b) = true -> (b <? a) = false.
Proof.
  intros H. destruct (ltb_true_not_nan _ _ H) as [Na Nb].
  rewrite ltb_val in * by assumption. apply Z.ltb_lt in H. apply Z.ltb_ge. lia.
Qed.

(** The counters of the loop are the numbers of strict increases and of
    strict decreases. *)
Lemma countChanges_spec (previous : float) (values : list float) (increases decreases : nat) :
  countChanges previous values increases decreases
  = ((increases + strictIncreases (previous :: values))%nat,
     (decreases + strictDecreases (previous :: values))%nat).
Proof.
  revert previous increases decreases.
  induction values as [ | v rest IH]; intros previous increases decreases; cbn [countChanges].
  - unfold strictIncreases, strictDecreases. cbn. f_equal; lia.
  - unfold strictIncreases, strictDecreases, consecutive in *.
    cbn [tl combine filter fst snd] in *.
    destruct (previous <? v) eqn:Up.
    + rewrite (fltb_asym _ _ Up), IH. cbn [List.length]. f_equal; lia.
    + destruct (v <? previous) eqn:Down; rewrite IH; cbn [List.length]; f_equal; lia.
Qed.

Lemma changesOf_spec (values : list float) :
  changesOf values = (strictIncreases values, strictDecreases values).
Proof.
  destruct values as [ | v0 rest]; cbn [changesOf]; [reflexivity|].
  rewrite countChanges_spec. reflexivity.
Qed.

(** C6.  With [increases] and [decreases] the numbers of strict changes
    between consecutive parsed values: [detectTrends] is [null] when the
    dataset or the parsed sequence has fewer than 5 elements or nothing
    changes; otherwise it is upward, with consistency
    [increases/totalChanges*100] and rate [(last/first - 1)*100], when that
    percentage exceeds 60; else downward, with rate [(1 - last/first)*100],
    when the percentage of decreases exceeds 60; else fluctuating, with both
    percentages.  On the scenario the trend of [x] is upward with
    consistency 100. *)
Theorem detectTrends_characterisation (data : list DataItem) (column : string) :
  let values := numericColumn data column in
  let increases := strictIncreases values in
  let decreases := strictDecreases values in
  let totalChanges := (increases + decreases)%nat in
  let increasePercent := JS.Number_of_nat increases / JS.Number_of_nat totalChanges * 100 in
  let decreasePercent := JS.Number_of_nat decreases / JS.Number_of_nat totalChanges * 100 in
  let first := at_index values 0 in
  let last := at_index values (List.length values - 1) in
  ((List.length data < 5 \/ List.length values < 5 \/ totalChanges = 0)%nat ->
   detectTrends data column = None) /\
  ((5 <= List.length data)%nat -> (5 <= List.length values)%nat -> (0 < totalChanges)%nat ->
   ((60 <? increasePercent) = true ->
    detectTrends data column = Some (upward increasePercent ((last / first - 1) * 100))) /\
   ((60 <? increasePercent) = false -> (60 <? decreasePercent) = true ->
    detectTrends data column = Some (downward decreasePercent ((1 - last / first) * 100))) /\
   ((60 <? increasePercent) = false -> (60 <? decreasePercent) = false ->
    detectTrends data column = Some (fluctuating increasePercent decreasePercent))) /\
  detectTrends scenario "x" = Some (upward 100 400).
Proof.
  cbn zeta. unfold detectTrends. rewrite changesOf_spec.
  set (values := numericColumn data column).
  set (increases := strictIncreases values). set (decreases := strictDecreases values).
  split; [ | split; [ | vm_compute; reflexivity]].
  - intros H.
    destruct (Nat.ltb_spec (List.length data) 5); [reflexivity|].
    destruct (Nat.ltb_spec (List.length values) 5); [reflexivity|].
    destruct (Nat.eqb_spec (increases + decreases) 0); [reflexivity | lia].
  - intros H1 H2 H3.
    destruct (Nat.ltb_spec (List.length data) 5); [lia|].
    destruct (Nat.ltb_spec (List.length values) 5); [lia|].
    destruct (Nat.eqb_spec (increases + decreases) 0); [lia|].
    repeat split; intros; repeat match goal with H : _ = _ :> bool |- _ => rewrite H end; reflexivity.
Qed.

End TrendFacts.

(** ** analyzeData *)

Section InsightFacts.
Variable toLocaleString : float -> string.

Lemma extremesInsight_appends (numericColumns : list (string * Stats)) :
  appendsAtMostOne (extremesInsight toLocaleString numericColumns).
Proof.
  unfold appendsAtMostOne, extremesInsight, push.
  destruct numericColumns as [ | first rest]; cbn [app List.length]; split; intros;
    rewrite ?app_nil_r; auto.
Qed.

Lemma trendInsight_appends (data : list DataItem) (numericColumns : list (string * Stats)) :
  appendsAtMostOne (trendInsight data numericColumns).
Proof.
  unfold appendsAtMostOne, trendInsight, push.
  destruct numericColumns as [ | [trendColumn stats] rest];
    [ | destruct (detectTrends data trendColumn) as [[c r | c r | u d] | ]];
    cbn [app List.length]; split; intros; rewrite ?app_nil_r; auto.
Qed.

Lemma seasonalityInsight_appends (data : list DataItem) (numericColumns : list (string * Stats)) :
  appendsAtMostOne (seasonalityInsight data numericColumns).
Proof.
  unfold appendsAtMostOne, seasonalityInsight, push.
  destruct numericColumns as [ | [trendColumn stats] rest];
    [ | destruct (detectSeasonality data trendColumn) as [patternResult | ]];
    cbn [app List.length]; split; intros; rewrite ?app_nil_r; auto.
Qed.

(** The missing-data step pushes exactly once. *)
Lemma missingDataInsight_appends (data : list DataItem) (columns : list string) :
  appendsAtMostOne (missingDataInsight data columns) /\
  List.length (missingDataInsight data columns []) = 1%nat.
Proof.
  unfold appendsAtMostOne, missingDataInsight, push.
  destruct (findMissingData data) as [ | entry rest];
    cbn [app List.length]; repeat split; intros; auto.
Qed.

Lemma outliersInsight_appends (data : list DataItem) (numericColumns : list (string * Stats)) :
  appendsAtMostOne (outliersInsight toLocaleString data numericColumns).
Proof.
  unfold appendsAtMostOne, outliersInsight, push.
  destruct (filter _ numericColumns) as [ | first rest];
    [destruct (0 <? List.length numericColumns)%nat | ];
    cbn [app List.length]; split; intros; rewrite ?app_nil_r; auto.
Qed.

Lemma correlationsInsight_appends (data : list DataItem) (numericColumns : list (string * Stats)) :
  appendsAtMostOne (correlationsInsight data numericColumns).
Proof.
  unfold appendsAtMostOne, correlationsInsight, push.
  destruct (findCorrelations data) as [ | strongest rest];
    [destruct (1 <? List.length numericColumns)%nat | ];
    cbn [app List.length]; split; intros; rewrite ?app_nil_r; auto.
Qed.

(** What the six steps leave in [insights], before the cut. *)
Lemma analyzeData_insights (data : list DataItem) :
  data <> [] ->
  let columns := Object_keys (firstRow data) in
  let numericColumns := numericColumnsOf data columns in
  analyzeData toLocaleString data =
  Resolved (firstn 5 (extremesInsight toLocaleString numericColumns []
                      ++ trendInsight data numericColumns []
                      ++ seasonalityInsight data numericColumns []
                      ++ missingDataInsight data columns []
                      ++ outliersInsight toLocaleString data numericColumns []
                      ++ correlationsInsight data numericColumns [])).
Proof.
  intros Hne. cbn zeta. unfold analyzeData.
  destruct data as [ | row rest]; [contradiction|]. cbn [List.length Nat.eqb].
  set (columns := Object_keys (firstRow (row :: rest))).
  set (numericColumns := numericColumnsOf (row :: rest) columns).
  destruct (extremesInsight_appends numericColumns) as [_ E1].
  destruct (trendInsight_appends (row :: rest) numericColumns) as [_ E2].
  destruct (seasonalityInsight_appends (row :: rest) numericColumns) as [_ E3].
  destruct (missingDataInsight_appends (row :: rest) columns) as [[_ E4] _].
  destruct (outliersInsight_appends (row :: rest) numericColumns) as [_ E5].
  destruct (correlationsInsight_appends (row :: rest) numericColumns) as [_ E6].
  rewrite E6, E5, E4, E3, E2. rewrite <- !app_assoc. reflexivity.
Qed.

(** C1.  For a dataset that is not empty, [analyzeData] resolves to the
    first five of the insights the six steps make in the order extremes,
    trend, seasonality, missing data, outliers, correlation; each step
    makes at most one (so trend and seasonality at most two together),
    and never more than five strings come back. *)
Theorem analyzeData_priority_order (data : list DataItem) :
  data <> [] ->
  let columns := Object_keys (firstRow data) in
  let numericColumns := numericColumnsOf data columns in
  let extremes := extremesInsight toLocaleString numericColumns [] in
  let trend := trendInsight data numericColumns [] in
  let seasonality := seasonalityInsight data numericColumns [] in
  let missing := missingDataInsight data columns [] in
  let outlying := outliersInsight toLocaleString data numericColumns [] in
  let correlation := correlationsInsight data numericColumns [] in
  (List.length extremes <= 1 /\ List.length trend <= 1 /\ List.length seasonality <= 1 /\
   List.length missing <= 1 /\ List.length outlying <= 1 /\ List.length correlation <= 1)%nat /\
  exists insights,
    analyzeData toLocaleString data = Resolved insights /\
    insights = firstn 5 (extremes ++ trend ++ seasonality ++ missing ++ outlying ++ correlation) /\
    (List.length insights <= 5)%nat.
Proof.
  intros Hne. cbn zeta. split.
  - repeat split.
    + apply extremesInsight_appends.
    + apply trendInsight_appends.
    + apply seasonalityInsight_appends.
    + apply missingDataInsight_appends.
    + apply outliersInsight_appends.
    + apply correlationsInsight_appends.
  - eexists. split; [apply analyzeData_insights; exact Hne|]. split; [reflexivity|].
    apply firstn_le_length.
Qed.

(** C2, as the code has it.  [analyzeData] rejects exactly the empty
    dataset; on every other dataset, whatever its columns, it resolves to
    at least one string. *)
Theorem analyzeData_rejects_only_empty (data : list DataItem) :
  ((exists message, analyzeData toLocaleString data = Rejected message) <-> data = []) /\
  (data <> [] ->
   exists insights,
     analyzeData toLocaleString data = Resolved insights /\ (1 <= List.length insights)%nat).
Proof.
  assert (R : data <> [] -> exists insights,
             analyzeData toLocaleString data = Resolved insights /\ (1 <= List.length insights)%nat).
  { intros Hne. eexists. split; [apply analyzeData_insights; exact Hne|].
    set (columns := Object_keys (firstRow data)).
    set (numericColumns := numericColumnsOf data columns).
    destruct (missingDataInsight_appends data columns) as [_ L].
    destruct (missingDataInsight data columns []) as [ | m rest] eqn:Em; [discriminate|].
    destruct (extremesInsight_appends numericColumns) as [L1 _].
    destruct (trendInsight_appends data numericColumns) as [L2 _].
    destruct (seasonalityInsight_appends data numericColumns) as [L3 _].
    destruct (extremesInsight toLocaleString numericColumns []) as [ | a [ | ? ?]];
      destruct (trendInsight data numericColumns []) as [ | b [ | ? ?]];
      destruct (seasonalityInsight data numericColumns []) as [ | c [ | ? ?]];
      cbn [List.length] in L1, L2, L3; try lia; cbn [app firstn List.length]; lia. }
  split; [ | exact R]. split.
  - intros [message H]. destruct data as [ | row rest]; [reflexivity|].
    destruct (R ltac:(discriminate)) as (insights & E & _). congruence.
  - intros ->. eexists. reflexivity.
Qed.

End InsightFacts.

Section InsightExamples.
Local Open Scope string_scope.

(** All six steps make an insight on [sixInsights]; the five first come
    back, and the correlation insight is dropped. *)
Lemma analyzeData_priority_order_witness :
  exists insights,
    analyzeData JS.toLocaleString_enUS sixInsights = Resolved insights /\
    List.length insights = 5 /\
    List.length (correlationsInsight sixInsights
                   (numericColumnsOf sixInsights (Object_keys (firstRow sixInsights))) []) = 1 /\
    existsb (fun s => JS.includes s "Correlation analysis") insights = false.
Proof.
  destruct (analyzeData_priority_order JS.toLocaleString_enUS sixInsights ltac:(discriminate))
    as (_ & insights & E & -> & _).
  eexists. split; [exact E|]. vm_compute. repeat split.
Defined.

(** C2 as stated fails: a row without columns is analysed, not rejected. *)
Lemma analyzeData_zero_columns :
  Object_keys (firstRow [[]]) = [] /\
  analyzeData JS.toLocaleString_enUS [[]] =
  Resolved ["Data quality analysis: Excellent! No missing or incomplete data detected across all 0 columns and 1 rows. This complete dataset will provide the most reliable analysis results and is ideal for advanced statistical methods."].
Proof. split; vm_compute; reflexivity. Qed.

End InsightExamples.

(** ** Which columns are numeric *)

Section ColumnFacts.
Local Open Scope string_scope.

Lemma calculateStats_Some_iff (data : list DataItem) (column : string) :
  (exists stats, calculateStats data column = Some stats) <->
  exists item, In item data /\ JS.isNaN (toNumeric (get item column)) = false.
Proof.
  unfold calculateStats, numericColumn.
  set (parsed := map (fun item => toNumeric (get item column)) data).
  set (kept := filter (fun value => negb (JS.isNaN value)) parsed).
  split.
  - intros [stats H]. destruct kept as [ | value rest] eqn:E; [discriminate|].
    assert (Hin : In value kept) by (rewrite E; left; reflexivity).
    apply filter_In in Hin. destruct Hin as [Hin Hnan]. apply in_map_iff in Hin.
    destruct Hin as (item & <- & Hitem). exists item. split; [exact Hitem|].
    destruct (JS.isNaN _); [discriminate | reflexivity].
  - intros (item & Hitem & Hnan).
    assert (Hin : In (toNumeric (get item column)) kept).
    { apply filter_In. split; [apply in_map_iff; exists item; split; [reflexivity | exact Hitem] | rewrite Hnan; reflexivity]. }
    destruct kept as [ | value rest]; [destruct Hin|]. cbn [List.length Nat.eqb]. eexists. reflexivity.
Qed.

(** The columns kept out of any list of candidates. *)
Lemma numericColumnsOf_iff (data : list DataItem) (columns : list string) (column : string) :
  In column (map fst (numericColumnsOf data columns)) <->
  In column columns /\
  exists item, In item data /\ JS.isNaN (toNumeric (get item column)) = false.
Proof.
  rewrite <- calculateStats_Some_iff. unfold numericColumnsOf. rewrite in_map_iff. split.
  - intros ([name stats] & E & H). cbn [fst] in E. subst name.
    apply in_flat_map in H. destruct H as (c & Hc & H).
    destruct (calculateStats data c) as [s | ] eqn:Es; [ | destruct H].
    destruct H as [H | []]. injection H as -> ->. split; [exact Hc | eauto].
  - intros (Hc & stats & Es). exists (column, stats). split; [reflexivity|].
    apply in_flat_map. exists column. split; [exact Hc|]. rewrite Es. left. reflexivity.
Qed.

(** C4, as the code has it.  The candidates of [analyzeData] are the keys
    of the first row.  Such a column is among the numeric columns exactly
    when some row, the first or any other, holds a number other than
    [NaN] or a string that [parseFloat] reads as one; a column that the
    first row does not have is never among them, whatever the later rows
    hold. *)
Theorem numeric_column_iff (data : list DataItem) (column : string) :
  let columns := Object_keys (firstRow data) in
  let numericColumns := map fst (numericColumnsOf data columns) in
  (In column numericColumns <->
   In column columns /\
   exists item, In item data /\ JS.isNaN (toNumeric (get item column)) = false) /\
  (In column columns ->
   JS.isNaN (toNumeric (get (firstRow data) column)) = true ->
   (exists item, In item data /\ JS.isNaN (toNumeric (get item column)) = false) ->
   In column numericColumns) /\
  (~ In column columns -> ~ In column numericColumns).
Proof.
  cbn zeta. pose proof (numericColumnsOf_iff data (Object_keys (firstRow data)) column) as C.
  split; [exact C|]. split.
  - intros Hc _ Hitem. apply C. split; assumption.
  - intros Hc H. apply C in H. destruct H as [H _]. exact (Hc H).
Qed.

(** C4 as stated fails: the first row's value is blank, not a number, and
    the column is numeric all the same, with the statistics of the later
    row. *)
Lemma numeric_despite_blank_first_row :
  JS.isNaN (toNumeric (get (firstRow blankFirst) "a")) = true /\
  map fst (numericColumnsOf blankFirst (Object_keys (firstRow blankFirst))) = ["a"] /\
  isNumericColumn blankFirst "a" = true.
Proof. repeat split. Qed.

(** A column that only a later row has is not a candidate: here [a] holds
    the number 5 in the second row and only [b] is numeric. *)
Lemma later_column_not_classified :
  let data := [[("b", VNumber 1)]; [("a", VNumber 5); ("b", VNumber 2)]] in
  JS.isNaN (toNumeric (get (nth 1 data []) "a")) = false /\
  map fst (numericColumnsOf data (Object_keys (firstRow data))) = ["b"].
Proof. repeat split. Qed.

End ColumnFacts.

(** ** findCorrelations *)

Section CorrelationFacts.
Local Open Scope float_scope.

Lemma SFmul_comm (x y : spec_float) : SF64mul x y = SF64mul y x.
Proof.
  unfold SF64mul.
  destruct x as [sx | sx | | sx mx ex], y as [sy | sy | | sy my ey]; cbn [SFmul];
    rewrite ?(xorb_comm sx sy); try reflexivity.
  rewrite (Pos.mul_comm mx my), (Z.add_comm ex ey). reflexivity.
Qed.

(** Multiplication of numbers is commutative. *)
Lemma fmul_comm (a b : float) : a * b = b * a.
Proof. apply Prim2SF_inj. rewrite !mul_spec. apply SFmul_comm. Qed.

Lemma pearsonStep_exchanged (mean1 mean2 : float) (acc : PearsonSums) (v1 v2 : float) :
  pearsonStep mean2 mean1 (exchanged acc) (v2, v1)
  = exchanged (pearsonStep mean1 mean2 acc (v1, v2)).
Proof.
  unfold pearsonStep, exchanged. cbn [fst snd numerator denom1 denom2].
  rewrite (fmul_comm (v2 - mean2) (v1 - mean1)). reflexivity.
Qed.

Lemma pearson_fold_exchanged (mean1 mean2 : float) (values1 values2 : list float)
  (acc : PearsonSums) :
  fold_left (pearsonStep mean2 mean1) (combine values2 values1) (exchanged acc)
  = exchanged (fold_left (pearsonStep mean1 mean2) (combine values1 values2) acc).
Proof.
  revert values2 acc. induction values1 as [ | v1 rest1 IH]; intros [ | v2 rest2] acc;
    cbn [combine fold_left]; try reflexivity.
  rewrite pearsonStep_exchanged. apply IH.
Qed.

(** The coefficient does not depend on the order of the two columns. *)
Lemma pearson_sym (values1 values2 : list float) :
  List.length values1 = List.length values2 ->
  pearson values1 values2 = pearson values2 values1.
Proof.
  intros L. unfold pearson. rewrite <- L.
  set (n := JS.Number_of_nat (List.length values1)).
  set (mean1 := sumOf values1 / n). set (mean2 := sumOf values2 / n).
  pose proof (pearson_fold_exchanged mean1 mean2 values1 values2
                {| numerator := 0; denom1 := 0; denom2 := 0 |}) as E.
  change (exchanged {| numerator := 0; denom1 := 0; denom2 := 0 |})
    with {| numerator := 0; denom1 := 0; denom2 := 0 |} in E.
  rewrite E. cbn [exchanged numerator denom1 denom2].
  f_equal. apply fmul_comm.
Qed.

Lemma correlate_kept (data : list DataItem) (c : string * string) (pair : CorrelationPair) :
  In pair (correlate data c) ->
  JS.isNaN (coefficient pair) = false /\ (0.5 <? JS.Math_abs (coefficient pair)) = true.
Proof.
  unfold correlate.
  destruct (_ && _)%bool; [ | intros []].
  destruct (negb (JS.isNaN _) && _)%bool eqn:K; [ | intros []].
  intros [<- | []]. cbn [coefficient]. apply andb_true_iff in K. destruct K as [K1 K2].
  split; [destruct (JS.isNaN _); [discriminate | reflexivity] | exact K2].
Qed.

(** C8, as the code has it.  The coefficient is the same whichever of the
    two columns comes first, and a kept pair has a coefficient that is not
    [NaN] and whose absolute value exceeds 0.5. *)
Theorem correlation_symmetric_and_kept (data : list DataItem) :
  (forall column1 column2,
     map coefficient (correlate data (column1, column2))
     = map coefficient (correlate data (column2, column1))) /\
  (forall pair, In pair (findCorrelations data) ->
     JS.isNaN (coefficient pair) = false /\
     (0.5 <? JS.Math_abs (coefficient pair)) = true).
Proof.
  split.
  - intros column1 column2. unfold correlate. cbn [fst snd].
    set (values1 := numericColumn data column1). set (values2 := numericColumn data column2).
    destruct (Nat.eqb_spec (List.length values1) (List.length values2)) as [L | L].
    + rewrite <- L, Nat.eqb_refl, (pearson_sym values1 values2 L).
      destruct (1 <? List.length values1)%nat; cbn [andb]; [ | reflexivity].
      destruct (negb (JS.isNaN _) && _)%bool; reflexivity.
    + destruct (Nat.eqb_spec (List.length values2) (List.length values1)) as [L' | _];
        [congruence | reflexivity].
  - intros pair H. unfold findCorrelations in H.
    rewrite <- (Array_sort_perm byStrength) in H. apply in_flat_map in H.
    destruct H as (c & _ & H). eapply correlate_kept. exact H.
Qed.

(** C8 as stated fails: on two equal columns the coefficient is above 1. *)
Lemma correlation_above_one :
  exists pair,
    findCorrelations (columnsOf "x" "y" [(0, 0); (3, 3)]) = [pair] /\
    coefficient pair = 1.0000000000000002 /\ (1 <? coefficient pair) = true.
Proof. eexists. split; [vm_compute; reflexivity|]. split; reflexivity. Qed.

(** A denominator that underflows to zero gives a kept pair with
    coefficient [Infinity]. *)
Lemma correlation_infinite :
  exists pair,
    findCorrelations (columnsOf "x" "y" [(0, 0); (1e-170, 1)]) = [pair] /\
    coefficient pair = infinity.
Proof. eexists. split; [vm_compute; reflexivity | reflexivity]. Qed.

(** C3 at the failing input: the columns [a] and [b] of [misaligned] are
    numeric at different rows (the first row has a number in [a] only, the
    second in [b] only), both have three numbers, and a pair is made of
    them. *)
Lemma correlation_of_misaligned_rows :
  map (fun item => JS.isNaN (toNumeric (get item "a"))) misaligned = [false; true; false; false] /\
  map (fun item => JS.isNaN (toNumeric (get item "b"))) misaligned = [true; false; false; false] /\
  findCorrelations misaligned =
  [{| col1 := "a"; col2 := "b"; coefficient := 0.99999999999999978 |}].
Proof. repeat split. Qed.

(** Pairs whose filtered sequences differ in length are skipped. *)
Lemma correlate_length_mismatch (data : list DataItem) (c : string * string) :
  List.length (numericColumn data (fst c)) <> List.length (numericColumn data (snd c)) ->
  correlate data c = [].
Proof.
  intros H. unfold correlate. apply Nat.eqb_neq in H. rewrite H. reflexivity.
Qed.

End CorrelationFacts.

Section GuardExamples.
Local Open Scope string_scope.
Local Open Scope float_scope.

(** C5 at the failing input: the first parsed value is 0, the growth rate
    is [(4/0 - 1) * 100], and the trend insight reads [Infinity%]. *)
Lemma analyzeData_infinite_growth_rate :
  detectTrends (columnOf "x" [0; 1; 2; 3; 4]) "x" = Some (upward 100 infinity) /\
  exists insights,
    analyzeData JS.toLocaleString_enUS (columnOf "x" [0; 1; 2; 3; 4]) = Resolved insights /\
    nth_error insights 1 =
    Some ("Trend analysis of " ++ quoted "x" ++ " shows a clear upward trend with 100.0% of data points increasing. The overall growth rate is approximately Infinity%. To visualize this trend effectively, we recommend using a line chart with a trend line overlay.")%string /\
    existsb (fun s => JS.includes s "Infinity") insights = true.
Proof. split; [vm_compute; reflexivity|]. eexists. split; [vm_compute; reflexivity|]. split; reflexivity. Qed.

(** A single row: the standard deviation is 0 and the z-score [0/0]. *)
Lemma analyzeData_nan_zscore :
  exists insights,
    analyzeData JS.toLocaleString_enUS (columnOf "x" [5]) = Resolved insights /\
    existsb (fun s => JS.includes s "z-score of NaN") insights = true.
Proof. eexists. split; [vm_compute; reflexivity | reflexivity]. Qed.

End GuardExamples.
(** ** More of the arithmetic: signs and bounds *)

Section SignFacts.
Local Open Scope Z_scope.

(** The difference of two finite binary64 values: correctly enclosed. *)
Lemma SFsub_sandwich (x y : spec_float) :
  valid_binary x = true -> valid_binary y = true ->
  SFis_finite x = true -> SFis_finite y = true ->
  let r := SF64sub x y in
  SFis_nan r = false /\
  forall f, valid_binary f = true -> SFis_finite f = true ->
    (SFval f <= SFval x - SFval y -> SFval f <= SFval r) /\
    (SFval x - SFval y <= SFval f -> SFval r <= SFval f).
Proof.
  intros Hx Hy Fx Fy. cbn zeta. unfold SF64sub.
  destruct x as [sx | | | sx mx ex], y as [sy | | | sy my ey]; try discriminate; cbn [SFsub].
  - split; [destruct sx, sy; reflexivity|].
    replace (SFval (if _ : bool then _ else _)) with 0 by (destruct sx, sy; reflexivity).
    cbn [SFval]. repeat split; lia.
  - split; [reflexivity|]. cbn [SFval]. destruct sy; cbn [negb cond_Zopp]; repeat split; lia.
  - split; [reflexivity|]. cbn [SFval]. repeat split; lia.
  - destruct (valid_finite _ _ _ Hx) as (Hex & _). destruct (valid_finite _ _ _ Hy) as (Hey & _).
    set (ez := Z.min ex ey).
    pose proof (aligned_val sx mx ex ez ltac:(lia) ltac:(lia)) as Ax.
    pose proof (aligned_val sy my ey ez ltac:(lia) ltac:(lia)) as Ay.
    destruct (binary_normalize_sandwich
                (cond_Zopp sx (Zpos (fst (shl_align mx ex ez))) - cond_Zopp sy (Zpos (fst (shl_align my ey ez))))
                ez ltac:(lia)) as (N & _ & _ & _ & _ & _ & S).
    rewrite Z.mul_sub_distr_r, Ax, Ay in S. split; [exact N | exact S].
Qed.

(** What rounding to a sign [false] returns is never below zero. *)
Lemma binary_round_aux_nonneg (m e : Z) (l : location) :
  0 <= SFval (binary_round_aux prec emax false m e l).
Proof.
  unfold binary_round_aux.
  destruct (shr_fexp prec emax m e l) as [mrs1 e1].
  destruct (shr_fexp prec emax _ e1 loc_Exact) as [mrs2 e2].
  pose proof bounds_order.
  destruct (shr_m mrs2) as [ | p | p]; [ | destruct (e2 <=? emax - prec) | ];
    cbn [SFval cond_Zopp]; lia.
Qed.

(** A square root is never below zero. *)
Lemma SFsqrt_nonneg (x : spec_float) : 0 <= SFval (SF64sqrt x).
Proof.
  unfold SF64sqrt. pose proof bounds_order.
  destruct x as [s | [ | ] | | [ | ] m e]; cbn [SFsqrt SFval cond_Zopp]; try lia.
  destruct (SFsqrt_core_binary prec emax (Zpos m) e) as [[mz ez] lz].
  apply binary_round_aux_nonneg.
Qed.

(** A product with a positive finite factor has the sign of the other. *)
Lemma SFmul_nonneg (m : positive) (e : Z) (y : spec_float) :
  valid_binary y = true ->
  0 <= SFval y -> 0 <= SFval (SF64mul (S754_finite false m e) y).
Proof.
  intros Vy Hy. unfold SF64mul. pose proof bounds_order.
  destruct y as [sy | sy | | sy my ey]; cbn [SFmul SFval xorb] in *; try lia.
  destruct (binary_round_aux_sign sy (Zpos (m * my)) (e + ey) loc_Exact) as [_ V].
  cbn zeta in V. rewrite V.
  pose proof (binary_round_aux_nonneg (Zpos (m * my)) (e + ey) loc_Exact).
  destruct (valid_finite _ _ _ Vy) as (Hey & _).
  destruct sy; cbn [cond_Zopp] in *; [ | lia].
  assert (0 < Zpos my * 2 ^ (ey + 1074)).
  { apply Z.mul_pos_pos; [lia | apply Z.pow_pos_nonneg; lia]. }
  lia.
Qed.

(** The difference of two binary64 values other than [NaN] is below zero
    exactly when the exact difference is. *)
Lemma SFsub_negative (x y : spec_float) :
  valid_binary x = true -> valid_binary y = true ->
  SFis_nan x = false -> SFis_nan y = false ->
  let r := SF64sub x y in
  SFis_nan r = false -> (SFval r < 0 <-> SFval x < SFval y).
Proof.
  intros Hx Hy Nx Ny. cbn zeta. unfold SF64sub.
  pose proof bounds_order as P.
  destruct x as [sx | sx | | sx mx ex], y as [sy | sy | | sy my ey]; try discriminate;
    try (pose proof (finite_val_bound _ Hx eq_refl)); try (pose proof (finite_val_bound _ Hy eq_refl));
    try (pose proof (valid_finite_bounds _ _ _ Hx)); try (pose proof (valid_finite_bounds _ _ _ Hy));
    cbn [SFsub].
  1-8: try destruct sx; try destruct sy; cbn [SFis_nan SFval cond_Zopp negb] in *;
       intros; try discriminate; lia.
  destruct (valid_finite _ _ _ Hx) as (Hex & _). destruct (valid_finite _ _ _ Hy) as (Hey & _).
  set (ez := Z.min ex ey).
  pose proof (aligned_val sx mx ex ez ltac:(lia) ltac:(lia)) as Ax.
  pose proof (aligned_val sy my ey ez ltac:(lia) ltac:(lia)) as Ay.
  set (M := cond_Zopp sx (Zpos (fst (shl_align mx ex ez))) - cond_Zopp sy (Zpos (fst (shl_align my ey ez)))) in *.
  destruct (binary_normalize_sandwich M ez ltac:(lia)) as (N & S1 & S2 & S3 & _ & _ & _).
  assert (EM : M * 2 ^ (ez + 1074) = SFval (S754_finite sx mx ex) - SFval (S754_finite sy my ey)).
  { unfold M. rewrite Z.mul_sub_distr_r, Ax, Ay. reflexivity. }
  pose proof (pow2_pos (ez + 1074) ltac:(lia)) as Pz.
  intros _.
  destruct (Z.lt_trichotomy M 0) as [C | [C | C]].
  - specialize (S2 C). split; [intros; nia | intros; lia].
  - specialize (S3 C). split; [lia|]. intros. nia.
  - specialize (S1 C). split; [lia|]. intros. nia.
Qed.

(** Taking away a value that is not below zero does not give more. *)
Lemma SFsub_le (x y : spec_float) :
  valid_binary x = true -> valid_binary y = true ->
  SFis_nan x = false -> 0 <= SFval y ->
  let r := SF64sub x y in
  SFis_nan r = false -> SFval r <= SFval x.
Proof.
  intros Hx Hy Nx Py. cbn zeta. intros Nr.
  pose proof bounds_order as P.
  destruct (SFis_finite x) eqn:Fx; [destruct (SFis_finite y) eqn:Fy | ].
  - destruct (SFsub_sandwich x y Hx Hy Fx Fy) as [_ S]. apply (S x Hx Fx). lia.
  - pose proof (finite_val_bound x Hx Fx).
    unfold SF64sub in *.
    destruct y as [sy | sy | | sy my ey]; try discriminate;
      destruct x as [sx | sx | | sx mx ex]; try discriminate;
      destruct sy; cbn [SFsub SFval cond_Zopp negb SFis_nan] in *; try discriminate; lia.
  - unfold SF64sub in *.
    destruct x as [sx | sx | | sx mx ex]; try discriminate;
      destruct y as [sy | sy | | sy my ey]; cbn [SFsub SFval] in *; try discriminate; try lia;
      destruct sx, sy; cbn [SFval cond_Zopp negb SFis_nan] in *; try discriminate; lia.
Qed.

(** Adding a value that is not below zero does not give less. *)
Lemma SFadd_ge (x y : spec_float) :
  valid_binary x = true -> valid_binary y = true ->
  SFis_nan x = false -> 0 <= SFval y ->
  let r := SF64add x y in
  SFis_nan r = false -> SFval x <= SFval r.
Proof.
  intros Hx Hy Nx Py. cbn zeta. intros Nr.
  pose proof bounds_order as P.
  destruct (SFis_finite x) eqn:Fx; [destruct (SFis_finite y) eqn:Fy | ].
  - destruct (SFadd_sandwich x y Hx Hy Fx Fy) as (_ & _ & _ & S). apply (S x Hx Fx). lia.
  - pose proof (finite_val_bound x Hx Fx).
    unfold SF64add in *.
    destruct y as [sy | sy | | sy my ey]; try discriminate;
      destruct x as [sx | sx | | sx mx ex]; try discriminate;
      destruct sy; cbn [SFadd SFval cond_Zopp negb SFis_nan] in *; try discriminate; lia.
  - unfold SF64add in *.
    destruct x as [sx | sx | | sx mx ex]; try discriminate;
      destruct y as [sy | sy | | sy my ey]; cbn [SFadd SFval] in *; try discriminate; try lia;
      destruct sx, sy; cbn [SFval cond_Zopp negb SFis_nan] in *; try discriminate; lia.
Qed.

End SignFacts.

Section BoundFacts.
Local Open Scope float_scope.

Lemma abs_nan (x : float) : JS.isNaN (JS.Math_abs x) = JS.isNaN x.
Proof.
  rewrite !isNaN_spec. unfold JS.Math_abs. rewrite FloatAxioms.abs_spec.
  destruct (Prim2SF x); reflexivity.
Qed.

Lemma abs_val (x : float) : Fval (JS.Math_abs x) = Z.abs (Fval x).
Proof.
  unfold Fval, JS.Math_abs. rewrite FloatAxioms.abs_spec. pose proof bounds_order.
  pose proof (Prim2SF_valid x) as V.
  destruct (Prim2SF x) as [s | s | | s m e]; cbn [SFabs SFval cond_Zopp]; try lia.
  - destruct s; cbn [cond_Zopp]; lia.
  - destruct (valid_finite _ _ _ V) as (He & _).
    pose proof (pow2_pos (e + 1074) ltac:(lia)).
    destruct s; cbn [cond_Zopp]; nia.
Qed.

(** [a - b] is below zero exactly when [a < b]. *)
Lemma sub_negative (a b : float) :
  JS.isNaN a = false -> JS.isNaN b = false -> (a - b <? 0) = (a <? b).
Proof.
  intros Na Nb.
  pose proof (SFsub_negative (Prim2SF a) (Prim2SF b) (Prim2SF_valid a) (Prim2SF_valid b)) as S.
  rewrite <- !isNaN_spec in S. specialize (S Na Nb). cbn zeta in S.
  rewrite <- FloatAxioms.sub_spec, <- isNaN_spec in S. fold (Fval (a - b)) (Fval a) (Fval b) in S.
  rewrite (ltb_val a b Na Nb).
  destruct (JS.isNaN (a - b)) eqn:Nr.
  - rewrite ltb_nan by auto. symmetry. apply Z.ltb_ge.
    pose proof (SFsub_sign (Prim2SF a) (Prim2SF b) (Prim2SF_valid a) (Prim2SF_valid b)) as S'.
    rewrite <- !isNaN_spec in S'. specialize (S' Na Nb). cbn zeta in S'.
    rewrite <- FloatAxioms.sub_spec, <- isNaN_spec in S'. destruct S' as [S' _].
    specialize (S' Nr). fold (Fval a) (Fval b) in S'. lia.
  - rewrite (ltb_val (a - b) 0 Nr eq_refl). change (Fval 0) with 0%Z.
    apply Bool.eq_iff_eq_true. rewrite !Z.ltb_lt. apply S. reflexivity.
Qed.

(** A square root is never below zero. *)
Lemma sqrt_not_negative (x : float) : (JS.Math_sqrt x <? 0) = false.
Proof.
  destruct (JS.isNaN (JS.Math_sqrt x)) eqn:N; [apply ltb_nan; auto|].
  rewrite (ltb_val _ 0 N eq_refl). change (Fval 0) with 0%Z. apply Z.ltb_ge.
  unfold Fval, JS.Math_sqrt. rewrite FloatAxioms.sqrt_spec. apply SFsqrt_nonneg.
Qed.

(** Whatever lies below [q - 1.5 * d], for a [d] that is not below zero,
    lies below [q]; likewise above [q + 1.5 * d]. *)
Lemma below_fence (q d v : float) :
  JS.isNaN q = false -> (d <? 0) = false ->
  (v <? q - 1.5 * d) = true -> (v <? q) = true.
Proof.
  intros Nq Pd H. destruct (ltb_true_not_nan _ _ H) as [Nv Nr].
  rewrite (ltb_val _ _ Nv Nr) in H. rewrite (ltb_val _ _ Nv Nq). apply Z.ltb_lt in H. apply Z.ltb_lt.
  assert (Nt : JS.isNaN (1.5 * d) = false).
  { destruct (JS.isNaN (1.5 * d)) eqn:E; [ | reflexivity].
    rewrite isNaN_spec in Nr, E. rewrite FloatAxioms.sub_spec in Nr.
    destruct (Prim2SF (1.5 * d)); try discriminate;
      unfold SF64sub in Nr; destruct (Prim2SF q); discriminate. }
  assert (Nd : JS.isNaN d = false).
  { destruct (JS.isNaN d) eqn:E; [ | reflexivity].
    rewrite isNaN_spec in Nt, E. rewrite FloatAxioms.mul_spec in Nt.
    destruct (Prim2SF d); try discriminate;
      unfold SF64mul in Nt; destruct (Prim2SF 1.5); discriminate. }
  rewrite (ltb_val d 0 Nd eq_refl) in Pd. change (Fval 0) with 0%Z in Pd. apply Z.ltb_ge in Pd.
  assert (Pt : (0 <= Fval (1.5 * d))%Z).
  { unfold Fval. rewrite FloatAxioms.mul_spec.
    change (Prim2SF 1.5) with (S754_finite false 6755399441055744 (-52)).
    apply SFmul_nonneg; [apply Prim2SF_valid | exact Pd]. }
  pose proof (SFsub_le (Prim2SF q) (Prim2SF (1.5 * d)) (Prim2SF_valid _) (Prim2SF_valid _)) as L.
  rewrite <- isNaN_spec in L. specialize (L Nq Pt). cbn zeta in L.
  rewrite <- FloatAxioms.sub_spec, <- isNaN_spec in L. specialize (L Nr).
  fold (Fval (q - 1.5 * d)) (Fval q) in L. lia.
Qed.

Lemma above_fence (q d v : float) :
  JS.isNaN q = false -> (d <? 0) = false ->
  (q + 1.5 * d <? v) = true -> (q <? v) = true.
Proof.
  intros Nq Pd H. destruct (ltb_true_not_nan _ _ H) as [Nr Nv].
  rewrite (ltb_val _ _ Nr Nv) in H. rewrite (ltb_val _ _ Nq Nv). apply Z.ltb_lt in H. apply Z.ltb_lt.
  assert (Nt : JS.isNaN (1.5 * d) = false).
  { destruct (JS.isNaN (1.5 * d)) eqn:E; [ | reflexivity].
    rewrite isNaN_spec in Nr, E. rewrite FloatAxioms.add_spec in Nr.
    destruct (Prim2SF (1.5 * d)); try discriminate;
      unfold SF64add in Nr; destruct (Prim2SF q); discriminate. }
  assert (Nd : JS.isNaN d = false).
  { destruct (JS.isNaN d) eqn:E; [ | reflexivity].
    rewrite isNaN_spec in Nt, E. rewrite FloatAxioms.mul_spec in Nt.
    destruct (Prim2SF d); try discriminate;
      unfold SF64mul in Nt; destruct (Prim2SF 1.5); discriminate. }
  rewrite (ltb_val d 0 Nd eq_refl) in Pd. change (Fval 0) with 0%Z in Pd. apply Z.ltb_ge in Pd.
  assert (Pt : (0 <= Fval (1.5 * d))%Z).
  { unfold Fval. rewrite FloatAxioms.mul_spec.
    change (Prim2SF 1.5) with (S754_finite false 6755399441055744 (-52)).
    apply SFmul_nonneg; [apply Prim2SF_valid | exact Pd]. }
  pose proof (SFadd_ge (Prim2SF q) (Prim2SF (1.5 * d)) (Prim2SF_valid _) (Prim2SF_valid _)) as L.
  rewrite <- isNaN_spec in L. specialize (L Nq Pt). cbn zeta in L.
  rewrite <- FloatAxioms.add_spec, <- isNaN_spec in L. specialize (L Nr).
  fold (Fval (q + 1.5 * d)) (Fval q) in L. lia.
Qed.

End BoundFacts.
(** ** calculateStats: the extremes, the spreads, the outliers and the
    order of the rows *)

Section StatsMore.
Local Open Scope float_scope.

Lemma at_index_In (l : list float) (i : nat) :
  (i < List.length l)%nat -> In (at_index l i) l.
Proof. intros H. unfold at_index. apply nth_In. exact H. Qed.

Lemma In_at_index (l : list float) (v : float) :
  In v l -> exists i, (i < List.length l)%nat /\ at_index l i = v.
Proof. intros H. unfold at_index. apply In_nth. exact H. Qed.

Lemma fltb_fle_false (a b : float) : fle a b -> (b <? a) = false.
Proof.
  unfold fle. intros H. destruct (leb_true_not_nan _ _ H) as [Na Nb].
  rewrite leb_val in H by assumption. rewrite ltb_val by assumption.
  apply Z.leb_le in H. apply Z.ltb_ge. exact H.
Qed.

Lemma filter_length_lt {A : Type} (f : A -> bool) (l : list A) (x : A) :
  In x l -> f x = false -> (List.length (filter f l) < List.length l)%nat.
Proof.
  induction l as [ | y t IH]; intros Hin Hx; [destruct Hin|].
  cbn [filter List.length]. pose proof (filter_length_le f t).
  destruct Hin as [-> | Hin].
  - rewrite Hx. lia.
  - specialize (IH Hin Hx). destruct (f y); cbn [List.length]; lia.
Qed.

(** The smallest and the largest value of the column are [min] and [max]:
    each is a value of the column, and every value lies between them. *)
Theorem calculateStats_extremes (data : list DataItem) (key : string) (stats : Stats) :
  calculateStats data key = Some stats ->
  In (min stats) (numericColumn data key) /\ In (max stats) (numericColumn data key) /\
  forall v, In v (numericColumn data key) -> fle (min stats) v /\ fle v (max stats).
Proof.
  intros H. destruct (calculateStats_Some data key stats H) as (E & Hn & Nn & Hs).
  cbn zeta in *. pose proof (Array_sort_perm ascending (numericColumn data key)) as P.
  set (sorted := Array_sort ascending (numericColumn data key)) in *.
  subst stats. cbn [statsOfSorted min max]. set (n := List.length sorted) in *.
  split; [apply (Permutation_in _ (Permutation_sym P)), at_index_In; lia|].
  split; [apply (Permutation_in _ (Permutation_sym P)), at_index_In; lia|].
  intros v Hv. apply (Permutation_in _ P) in Hv.
  destruct (In_at_index sorted v Hv) as (i & Hi & <-).
  split; apply sorted_at_index; try assumption; lia.
Qed.

(** The range, the interquartile range and the standard deviation are
    never below zero. *)
Theorem calculateStats_spreads_not_negative
  (data : list DataItem) (key : string) (stats : Stats) :
  calculateStats data key = Some stats ->
  (range stats <? 0) = false /\ (iqr stats <? 0) = false /\ (stdDev stats <? 0) = false.
Proof.
  intros H. destruct (calculateStats_Some data key stats H) as (E & Hn & Nn & Hs).
  cbn zeta in *. set (sorted := Array_sort ascending (numericColumn data key)) in *.
  subst stats. cbn [statsOfSorted range iqr stdDev]. set (n := List.length sorted) in *.
  destruct (index_order n Hn) as (I1 & I2 & I3 & I4). unfold q1Index, q3Index.
  assert (S : forall i j, (i <= j)%nat -> (j < n)%nat ->
              (at_index sorted j - at_index sorted i <? 0) = false).
  { intros i j Hij Hj.
    pose proof (sorted_at_index sorted i j Nn Hs Hij Hj) as L.
    destruct (leb_true_not_nan _ _ L) as [Ni Nj].
    rewrite (sub_negative _ _ Nj Ni). apply fltb_fle_false. exact L. }
  split; [apply S; lia|]. split; [apply S; lia|]. apply sqrt_not_negative.
Qed.

(** Every outlier is a value of the column that lies below the first
    quartile or above the third; so the column has more values than
    outliers, and what is left when they are taken away is not empty. *)
Theorem calculateStats_outliers_outside_quartiles
  (data : list DataItem) (key : string) (stats : Stats) :
  calculateStats data key = Some stats ->
  (forall v, In v (outliers stats) ->
     In v (numericColumn data key) /\ ((v <? q1 stats) = true \/ (q3 stats <? v) = true)) /\
  (List.length (outliers stats) < count stats)%nat.
Proof.
  intros H. destruct (calculateStats_Some data key stats H) as (E & Hn & Nn & Hs).
  cbn zeta in *. pose proof (Array_sort_perm ascending (numericColumn data key)) as P.
  set (sorted := Array_sort ascending (numericColumn data key)) in *.
  subst stats. cbn [statsOfSorted outliers q1 q3 count]. set (n := List.length sorted) in *.
  destruct (index_order n Hn) as (I1 & I2 & I3 & I4). unfold q1Index, q3Index.
  set (q1 := at_index sorted (n / 4)). set (q3 := at_index sorted (3 * n / 4)).
  pose proof (sorted_at_index sorted (n / 4) (3 * n / 4) Nn Hs I4 ltac:(lia)) as Q. fold q1 q3 in Q.
  destruct (leb_true_not_nan _ _ Q) as [N1 N3].
  assert (D : (q3 - q1 <? 0) = false).
  { rewrite (sub_negative _ _ N3 N1). apply fltb_fle_false. exact Q. }
  assert (Out : forall v, ((v <? q1 - 1.5 * (q3 - q1)) || (q3 + 1.5 * (q3 - q1) <? v)) = true ->
                          (v <? q1) = true \/ (q3 <? v) = true).
  { intros v Hv. apply orb_true_iff in Hv. destruct Hv as [Hv | Hv].
    - left. exact (below_fence q1 (q3 - q1) v N1 D Hv).
    - right. exact (above_fence q3 (q3 - q1) v N3 D Hv). }
  split.
  - intros v Hv. apply filter_In in Hv. destruct Hv as [Hin Hv].
    split; [apply (Permutation_in _ (Permutation_sym P)); exact Hin | apply Out; exact Hv].
  - apply (filter_length_lt _ sorted q1); [apply at_index_In; lia|].
    destruct ((q1 <? q1 - 1.5 * (q3 - q1)) || (q3 + 1.5 * (q3 - q1) <? q1)) eqn:B; [ | reflexivity].
    destruct (Out q1 B) as [C | C].
    + rewrite (ltb_val _ _ N1 N1), Z.ltb_irrefl in C. discriminate.
    + rewrite (fltb_fle_false _ _ Q) in C. discriminate.
Qed.

(** Two numbers that compare equal are the same number, or both are a
    zero. *)
Lemma eqb_identical (v w : float) :
  (v =? w) = true -> v = w \/ ((v = 0 \/ v = -0) /\ (w = 0 \/ w = -0)).
Proof.
  rewrite FloatAxioms.eqb_spec. unfold SFeqb. intros H.
  assert (C : Prim2SF v = Prim2SF w \/
              exists s1 s2, Prim2SF v = S754_zero s1 /\ Prim2SF w = S754_zero s2).
  { revert H.
    destruct (Prim2SF v) as [s1 | s1 | | s1 m1 e1], (Prim2SF w) as [s2 | s2 | | s2 m2 e2];
      cbn [SFcompare]; try discriminate;
      try (destruct s1; discriminate); try (destruct s2; discriminate).
    - intros _. right. exists s1, s2. split; reflexivity.
    - destruct s1, s2; try discriminate; auto.
    - destruct s1, s2; try discriminate;
        destruct (Z.compare_spec e1 e2) as [-> | | ]; try discriminate;
        destruct (Pos.compare_cont Eq m1 m2) eqn:C; try discriminate;
        apply Pos.compare_eq in C; subst; auto. }
  destruct C as [E | (s1 & s2 & E1 & E2)]; [left; apply Prim2SF_inj; exact E|].
  right. rewrite <- (SF2Prim_Prim2SF v), <- (SF2Prim_Prim2SF w), E1, E2.
  split; [destruct s1 | destruct s2]; auto.
Qed.

(** Reordering the rows reorders what a filter keeps of them. *)
Lemma filter_reordered {A : Type} (keep : A -> bool) (rows rows' : list A) :
  Permutation rows rows' -> Permutation (filter keep rows) (filter keep rows').
Proof.
  intros P. induction P as [ | x l l' _ IH | x y l | l l' l'' _ IH1 _ IH2]; cbn [filter].
  - constructor.
  - destruct (keep x); [apply perm_skip|]; exact IH.
  - destruct (keep x), (keep y); try reflexivity. apply perm_swap.
  - etransitivity; eassumption.
Qed.

(** An ascending array is determined by its elements, when those that
    compare equal are the same. *)
Lemma sorted_unique (l l' : list float) :
  (forall v w, In v l -> In w l -> (v =? w) = true -> v = w) ->
  Forall notNaN l -> StronglySorted fle l -> StronglySorted fle l' ->
  Permutation l l' -> l = l'.
Proof.
  intros Hid Nl Hs. revert l'.
  induction Hs as [ | x t Hs IH Hx]; intros l' Hs' P.
  - apply Permutation_nil in P. subst. reflexivity.
  - destruct l' as [ | y t']; [apply Permutation_sym, Permutation_nil in P; discriminate|].
    apply StronglySorted_inv in Hs'. destruct Hs' as [Hs' Hy].
    inversion Nl as [ | ? ? Nx Nt]; subst.
    assert (Hyin : In y (x :: t)) by (apply (Permutation_in _ (Permutation_sym P)); left; reflexivity).
    assert (Hxin : In x (y :: t')) by (apply (Permutation_in _ P); left; reflexivity).
    assert (Ny : notNaN y) by (rewrite Forall_forall in Nl; apply Nl; exact Hyin).
    assert (Lxy : fle x y).
    { destruct Hyin as [<- | Hyin]; [apply fle_refl; exact Nx|].
      rewrite Forall_forall in Hx. apply Hx. exact Hyin. }
    assert (Lyx : fle y x).
    { destruct Hxin as [<- | Hxin]; [apply fle_refl; exact Ny|].
      rewrite Forall_forall in Hy. apply Hy. exact Hxin. }
    assert (Exy : x = y).
    { apply Hid; [left; reflexivity | exact Hyin|].
      unfold fle, notNaN in *. rewrite leb_val in Lxy, Lyx by assumption.
      rewrite eqb_val by assumption. apply Z.leb_le in Lxy, Lyx. apply Z.eqb_eq. lia. }
    subst y. f_equal. apply IH.
    + intros v w Hv Hw. apply Hid; right; assumption.
    + exact Nt.
    + exact Hs'.
    + apply Permutation_cons_inv with x. exact P.
Qed.

(** The statistics of a column do not depend on the order of the rows:
    the values are sorted before anything is computed.  Only a column
    that holds both [0] and [-0], which sort as equal, can tell. *)
Theorem calculateStats_row_order (data data' : list DataItem) (key : string) :
  Permutation data data' ->
  ~ (In 0 (numericColumn data key) /\ In (-0) (numericColumn data key)) ->
  calculateStats data' key = calculateStats data key.
Proof.
  intros P Hz.
  assert (PV : Permutation (numericColumn data key) (numericColumn data' key)).
  { unfold numericColumn. apply filter_reordered, Permutation_map. exact P. }
  unfold calculateStats. rewrite <- (Permutation_length PV).
  destruct (List.length (numericColumn data key) =? 0)%nat; [reflexivity|].
  f_equal. f_equal. symmetry.
  pose proof (Array_sort_perm ascending (numericColumn data key)) as P1.
  pose proof (Array_sort_perm ascending (numericColumn data' key)) as P2.
  apply sorted_unique.
  - intros v w Hv Hw E. apply (Permutation_in _ (Permutation_sym P1)) in Hv, Hw.
    destruct (eqb_identical v w E) as [-> | [[Zv | Zv] [Zw | Zw]]]; subst; try reflexivity;
      exfalso; apply Hz; split; assumption.
  - rewrite <- P1. apply numericColumn_notNaN.
  - apply Array_sort_sorted, numericColumn_notNaN.
  - apply Array_sort_sorted. rewrite <- PV. apply numericColumn_notNaN.
  - rewrite <- P1, <- P2. exact PV.
Qed.

End StatsMore.

Section StatsExamples.
Local Open Scope string_scope.
Local Open Scope float_scope.

(** The column 4, 1, 3, 2: the extremes are 1 and 4, and 3 lies between
    them. *)
Lemma calculateStats_extremes_witness :
  exists stats,
    calculateStats (columnOf "x" [4; 1; 3; 2]) "x" = Some stats /\
    min stats = 1 /\ max stats = 4 /\ fle (min stats) 3 /\ fle 3 (max stats).
Proof.
  eexists. split; [vm_compute; reflexivity|].
  destruct (calculateStats_extremes (columnOf "x" [4; 1; 3; 2]) "x" _ eq_refl) as (_ & _ & H).
  split; [reflexivity|]. split; [reflexivity|].
  apply H. right. right. left. reflexivity.
Defined.

(** The same column: a range of 3, an interquartile range of 2. *)
Lemma calculateStats_spreads_not_negative_witness :
  exists stats,
    calculateStats (columnOf "x" [4; 1; 3; 2]) "x" = Some stats /\
    range stats = 3 /\ iqr stats = 2 /\
    (range stats <? 0) = false /\ (iqr stats <? 0) = false /\ (stdDev stats <? 0) = false.
Proof.
  eexists. split; [vm_compute; reflexivity|].
  split; [reflexivity|]. split; [reflexivity|].
  exact (calculateStats_spreads_not_negative (columnOf "x" [4; 1; 3; 2]) "x" _ eq_refl).
Defined.

(** A column with one outlier, 100, above the third quartile 4. *)
Lemma calculateStats_outliers_outside_quartiles_witness :
  exists stats,
    calculateStats (columnOf "x" [1; 2; 3; 4; 100]) "x" = Some stats /\
    outliers stats = [100] /\ q3 stats = 4 /\
    ((100 <? q1 stats) = true \/ (q3 stats <? 100) = true) /\
    (List.length (outliers stats) < count stats)%nat.
Proof.
  eexists. split; [vm_compute; reflexivity|].
  destruct (calculateStats_outliers_outside_quartiles
              (columnOf "x" [1; 2; 3; 4; 100]) "x" _ eq_refl) as [H L].
  split; [reflexivity|]. split; [reflexivity|]. split; [ | exact L].
  apply (H 100). left. reflexivity.
Defined.

(** Three rows in two orders. *)
Lemma calculateStats_row_order_witness :
  calculateStats (columnOf "x" [1; 2; 3]) "x" = calculateStats (columnOf "x" [3; 1; 2]) "x".
Proof.
  apply calculateStats_row_order.
  - unfold columnOf. cbn [map].
    eapply perm_trans; [apply perm_swap|]. apply perm_skip. apply perm_swap.
  - intros [H _]. vm_compute in H. destruct H as [H | [H | [H | []]]]; discriminate.
Defined.

End StatsExamples.
(** ** findMissingData *)

Section MissingFacts.
Local Open Scope string_scope.

Lemma trimStart_head (s : string) :
  match JS.trimStart s with
  | String c _ => JS.isWhiteSpace c = false
  | EmptyString => True
  end.
Proof.
  induction s as [ | c s IH]; cbn [JS.trimStart]; [exact I|].
  destruct (JS.isWhiteSpace c) eqn:W; [exact IH | exact W].
Qed.

Lemma trimEnd_empty (s : string) :
  JS.trimEnd s = "" ->
  match s with
  | String c _ => JS.isWhiteSpace c = true
  | EmptyString => True
  end.
Proof.
  destruct s as [ | c s]; [intros; exact I|]. cbn [JS.trimEnd].
  destruct (JS.trimEnd s); [ | discriminate].
  destruct (JS.isWhiteSpace c); [reflexivity | discriminate].
Qed.

(** A string that trims to nothing has nothing after its leading white
    space. *)
Lemma trim_empty (s : string) : JS.trim s = "" -> JS.trimStart s = "".
Proof.
  unfold JS.trim. intros H. apply trimEnd_empty in H.
  pose proof (trimStart_head s) as T.
  destruct (JS.trimStart s) as [ | c t]; [reflexivity | congruence].
Qed.

(** A cell that counts as missing does not coerce to a number. *)
Lemma missing_not_numeric (v : JsValue) :
  isMissing v = true -> JS.isNaN (toNumeric v) = true.
Proof.
  destruct v as [x | s | | ]; cbn [isMissing toNumeric];
    [discriminate | | intros _; vm_compute; reflexivity | intros _; vm_compute; reflexivity].
  intros H. assert (T : JS.trimStart s = "").
  { apply orb_true_iff in H. destruct H as [H | H]; apply String.eqb_eq in H.
    - subst s. reflexivity.
    - apply trim_empty. exact H. }
  unfold JS.parseFloat. rewrite T. vm_compute. reflexivity.
Qed.

Lemma filter_disjoint_length {A : Type} (f g : A -> bool) (l : list A) :
  (forall x, In x l -> f x = true -> g x = false) ->
  (List.length (filter f l) + List.length (filter g l) <= List.length l)%nat.
Proof.
  induction l as [ | x t IH]; intros H; cbn [filter List.length]; [lia|].
  specialize (IH (fun y Hy => H y (or_intror Hy))).
  specialize (H x (or_introl eq_refl)).
  destruct (f x); [rewrite (H eq_refl) | destruct (g x)]; cbn [List.length]; lia.
Qed.





(** No cell is both missing and numeric: in every column, the rows that
    miss it and the rows [calculateStats] counts are different rows. *)
Theorem missing_cells_are_not_numeric (data : list DataItem) (column : string) :
  (missingCount data column + List.length (numericColumn data column) <= List.length data)%nat /\
  forall stats, calculateStats data column = Some stats ->
    (missingCount data column + count stats <= List.length data)%nat.
Proof.
  assert (L : (missingCount data column + List.length (numericColumn data column)
               <= List.length data)%nat).
  { unfold missingCount, numericColumn.
    rewrite filter_map_swap, length_map.
    apply filter_disjoint_length. intros item _ M. cbv beta.
    rewrite (missing_not_numeric _ M). reflexivity. }
  split; [exact L|]. intros stats H.
  destruct (calculateStats_Some data column stats H) as (E & _). cbn zeta in E. subst stats.
  cbn [statsOfSorted count].
  rewrite <- (Permutation_length (Array_sort_perm ascending (numericColumn data column))).
  exact L.
Qed.

End MissingFacts.

Section MissingExamples.
Local Open Scope string_scope.


End MissingExamples.
(** ** findCorrelations: the order of what it returns *)

Section CorrelationOrder.
Local Open Scope float_scope.

(** [a] may stand before [b]: it is at least as strong. *)
Let stronger (a b : CorrelationPair) : Prop := fle (strength b) (strength a).

Lemma correlations_strength (data : list DataItem) :
  Forall (fun pair => notNaN (strength pair)) (correlations data).
Proof.
  apply Forall_forall. intros pair H. unfold correlations in H. apply in_flat_map in H.
  destruct H as (c & _ & H). destruct (correlate_kept data c pair H) as [N _].
  unfold notNaN, strength. rewrite abs_nan. exact N.
Qed.

(** The comparator moves [x] behind [y] exactly when [y] is stronger. *)
Lemma byStrength_sign (x y : CorrelationPair) :
  notNaN (strength x) -> notNaN (strength y) ->
  (0 <? byStrength x y) = (strength x <? strength y).
Proof. intros Nx Ny. unfold byStrength. apply (sub_sign (strength y) (strength x) Ny Nx). Qed.

Lemma insert_byStrength_sorted (x : CorrelationPair) (l : list CorrelationPair) :
  notNaN (strength x) -> Forall (fun pair => notNaN (strength pair)) l ->
  StronglySorted stronger l -> StronglySorted stronger (insert byStrength x l).
Proof.
  intros Nx Nl Hs. induction Hs as [ | y t Hs IH Hy]; cbn [insert].
  - constructor; constructor.
  - inversion Nl as [ | ? ? Ny Nt]; subst.
    rewrite (byStrength_sign x y Nx Ny). destruct (strength x <? strength y) eqn:C.
    + constructor; [apply IH; assumption|].
      rewrite <- (insert_perm byStrength x t). constructor; [apply ltb_fle; exact C | exact Hy].
    + pose proof (not_ltb_fle _ _ Ny Nx C) as Hxy.
      constructor; [constructor; assumption|]. constructor; [exact Hxy|].
      eapply Forall_impl; [ | exact Hy]. intros z Hz. unfold stronger in *.
      eapply fle_trans; eassumption.
Qed.

Lemma Array_sort_byStrength_sorted (l : list CorrelationPair) :
  Forall (fun pair => notNaN (strength pair)) l ->
  StronglySorted stronger (Array_sort byStrength l).
Proof.
  induction l as [ | x t IH]; intros Nl; cbn [Array_sort fold_right]; [constructor|].
  inversion Nl as [ | ? ? Nx Nt]; subst.
  apply insert_byStrength_sorted; [exact Nx | | apply IH; exact Nt].
  rewrite <- (Array_sort_perm byStrength t). exact Nt.
Qed.

(** The first of the sorted array is the first among the strongest of the
    array. *)
Lemma Array_sort_byStrength_head (l : list CorrelationPair) :
  Forall (fun pair => notNaN (strength pair)) l ->
  match Array_sort byStrength l with
  | [] => l = []
  | strongest :: _ =>
      exists before after,
        l = before ++ strongest :: after /\
        Forall (fun pair => (strength pair <? strength strongest) = true) before /\
        Forall (fun pair => fle (strength pair) (strength strongest)) after
  end.
Proof.
  induction l as [ | x t IH]; intros Nl; cbn [Array_sort fold_right]; [reflexivity|].
  inversion Nl as [ | ? ? Nx Nt]; subst. specialize (IH Nt).
  fold (Array_sort byStrength t).
  pose proof (Array_sort_perm byStrength t) as P.
  destruct (Array_sort byStrength t) as [ | s rest] eqn:E; cbn [insert].
  - subst t. exists [], []. split; [reflexivity|]. split; apply Forall_nil.
  - destruct IH as (before & after & Et & Hb & Ha).
    assert (Ns : notNaN (strength s)).
    { rewrite Forall_forall in Nt. apply Nt. apply (Permutation_in _ (Permutation_sym P)).
      left. reflexivity. }
    rewrite (byStrength_sign x s Nx Ns). destruct (strength x <? strength s) eqn:C.
    + exists (x :: before), after. rewrite Et. split; [reflexivity|].
      split; [constructor; assumption | exact Ha].
    + pose proof (not_ltb_fle _ _ Ns Nx C) as Hsx.
      exists [], t. split; [reflexivity|]. split; [apply Forall_nil|].
      rewrite Et. apply Forall_app. split; [ | constructor].
      * eapply Forall_impl; [ | exact Hb]. intros z Hz.
        eapply fle_trans; [apply ltb_fle; exact Hz | exact Hsx].
      * exact Hsx.
      * eapply Forall_impl; [ | exact Ha]. intros z Hz. exact (fle_trans _ _ _ Hz Hsx).
Qed.

(** What [findCorrelations] returns is what its loops kept, strongest
    first: the absolute value of the coefficient never grows along it. *)
Theorem findCorrelations_strongest_first (data : list DataItem) :
  Permutation (correlations data) (findCorrelations data) /\
  StronglySorted (fun a b => (strength b <=? strength a) = true) (findCorrelations data).
Proof.
  split; [apply Array_sort_perm|].
  apply (Array_sort_byStrength_sorted (correlations data)), correlations_strength.
Qed.

(** The sort is stable: of several pairs with the greatest strength, the
    one of the earliest pair of columns comes first, and it is the one the
    correlation insight speaks of. *)
Theorem findCorrelations_first_of_strongest (data : list DataItem) :
  match findCorrelations data with
  | [] => correlations data = []
  | strongest :: _ =>
      exists before after,
        correlations data = before ++ strongest :: after /\
        Forall (fun pair => (strength pair <? strength strongest) = true) before /\
        Forall (fun pair => (strength pair <=? strength strongest) = true) after
  end.
Proof. apply (Array_sort_byStrength_head (correlations data)), correlations_strength. Qed.

End CorrelationOrder.
(** ** findCorrelations: the pairs of columns *)

Section CorrelationPairs.
Local Open Scope float_scope.

Lemma pairsOf_In {A : Type} (l : list A) (a b : A) :
  In (a, b) (pairsOf l) -> exists l1 l2 l3, l = l1 ++ a :: l2 ++ b :: l3.
Proof.
  induction l as [ | x t IH]; cbn [pairsOf]; [intros []|].
  intros H. apply in_app_or in H. destruct H as [H | H].
  - apply in_map_iff in H. destruct H as (y & E & Hy). injection E as -> ->.
    apply in_split in Hy. destruct Hy as (l2 & l3 & ->). exists [], l2, l3. reflexivity.
  - destruct (IH H) as (l1 & l2 & l3 & ->). exists (x :: l1), l2, l3. reflexivity.
Qed.

Lemma pairsOf_members {A : Type} (l : list A) (a b : A) :
  In (a, b) (pairsOf l) -> In a l /\ In b l.
Proof.
  intros H. destruct (pairsOf_In l a b H) as (l1 & l2 & l3 & ->).
  split; apply in_or_app; right; [left; reflexivity|].
  right. apply in_or_app. right. left. reflexivity.
Qed.

(** In an array without repetition no pair comes in both orders, nor an
    element with itself. *)
Lemma pairsOf_one_order {A : Type} (l : list A) (a b : A) :
  NoDup l -> In (a, b) (pairsOf l) -> ~ In (b, a) (pairsOf l).
Proof.
  induction l as [ | x t IH]; cbn [pairsOf]; [intros _ []|].
  intros N H1 H2. apply NoDup_cons_iff in N. destruct N as [Nx Nt].
  apply in_app_or in H1. apply in_app_or in H2.
  destruct H1 as [H1 | H1], H2 as [H2 | H2].
  - apply in_map_iff in H1. destruct H1 as (y & E & Hy). injection E as -> ->.
    apply in_map_iff in H2. destruct H2 as (z & E & Hz). injection E as -> _.
    apply Nx. exact Hy.
  - apply in_map_iff in H1. destruct H1 as (y & E & Hy). injection E as -> ->.
    apply pairsOf_members in H2. apply Nx. apply H2.
  - apply in_map_iff in H2. destruct H2 as (y & E & Hy). injection E as -> ->.
    apply pairsOf_members in H1. apply Nx. apply H1.
  - exact (IH Nt H1 H2).
Qed.

Lemma pairsOf_NoDup {A : Type} (l : list A) : NoDup l -> NoDup (pairsOf l).
Proof.
  induction l as [ | x t IH]; cbn [pairsOf]; intros N; [constructor|].
  apply NoDup_cons_iff in N. destruct N as [Nx Nt].
  apply NoDup_app; [ | apply IH; exact Nt | ].
  - apply Finite.Injective_map_NoDup; [ | exact Nt]. intros a b E. injection E as ->. reflexivity.
  - intros [a b] H1 H2. apply in_map_iff in H1. destruct H1 as (y & E & _). injection E as -> ->.
    apply pairsOf_members in H2. apply Nx. apply H2.
Qed.

Lemma filter_split {A : Type} (f : A -> bool) (l : list A) (a b : A) (l1 l2 l3 : list A) :
  filter f l = l1 ++ a :: l2 ++ b :: l3 ->
  exists k1 k2 k3, l = k1 ++ a :: k2 ++ b :: k3.
Proof.
  revert l1. induction l as [ | x t IH]; intros l1; cbn [filter].
  - destruct l1; discriminate.
  - destruct (f x).
    + destruct l1 as [ | y l1]; cbn [app]; intros E; injection E as -> E.
      * assert (Hb : In b t).
        { assert (Hb : In b (filter f t)) by (rewrite E; apply in_or_app; right; left; reflexivity).
          apply filter_In in Hb. apply Hb. }
        apply in_split in Hb. destruct Hb as (k2 & k3 & ->). exists [], k2, k3. reflexivity.
      * destruct (IH l1 E) as (k1 & k2 & k3 & ->). exists (y :: k1), k2, k3. reflexivity.
    + intros E. destruct (IH l1 E) as (k1 & k2 & k3 & ->). exists (x :: k1), k2, k3. reflexivity.
Qed.

(** The columns of what one pair of columns contributes are that pair. *)
Lemma correlate_columns (data : list DataItem) (c : string * string) (pair : CorrelationPair) :
  In pair (correlate data c) -> (col1 pair, col2 pair) = c.
Proof.
  unfold correlate. destruct (_ && _)%bool; [ | intros []].
  destruct (negb _ && _)%bool; [ | intros []].
  intros [<- | []]. destruct c. reflexivity.
Qed.

Lemma correlate_at_most_one (data : list DataItem) (c : string * string) :
  map (fun pair => (col1 pair, col2 pair)) (correlate data c) = [c] \/ correlate data c = [].
Proof.
  unfold correlate. destruct (_ && _)%bool; [ | right; reflexivity].
  destruct (negb _ && _)%bool; [ | right; reflexivity].
  left. destruct c. reflexivity.
Qed.

Lemma correlations_columns_NoDup (data : list DataItem) (pairs : list (string * string)) :
  NoDup pairs ->
  NoDup (map (fun pair => (col1 pair, col2 pair)) (flat_map (correlate data) pairs)).
Proof.
  induction pairs as [ | c t IH]; intros N; cbn [flat_map map]; [constructor|].
  apply NoDup_cons_iff in N. destruct N as [Nc Nt]. rewrite map_app.
  destruct (correlate_at_most_one data c) as [E | E]; rewrite E; cbn [app map]; [ | apply IH; exact Nt].
  constructor; [ | apply IH; exact Nt].
  intros H. apply in_map_iff in H. destruct H as (pair & Ec & H).
  apply in_flat_map in H. destruct H as (c' & Hc' & H).
  apply correlate_columns in H. apply Nc. congruence.
Qed.

(** Each pair that [findCorrelations] returns is a pair of numeric columns
    of the first row, [col1] standing before [col2] there.  As the keys of
    a row are distinct, no column is paired with itself, no pair comes in
    both orders and none comes twice. *)
Theorem findCorrelations_pairs (data : list DataItem) :
  let columns := Object_keys (firstRow data) in
  (forall pair, In pair (findCorrelations data) ->
     isNumericColumn data (col1 pair) = true /\ isNumericColumn data (col2 pair) = true /\
     exists l1 l2 l3, columns = l1 ++ col1 pair :: l2 ++ col2 pair :: l3) /\
  (NoDup columns ->
   NoDup (map (fun pair => (col1 pair, col2 pair)) (findCorrelations data)) /\
   forall pair other, In pair (findCorrelations data) -> In other (findCorrelations data) ->
     ~ (col1 other = col2 pair /\ col2 other = col1 pair)).
Proof.
  cbn zeta. set (columns := Object_keys (firstRow data)).
  set (numericColumns := filter (isNumericColumn data) columns).
  assert (M : forall pair, In pair (findCorrelations data) ->
                In (col1 pair, col2 pair) (pairsOf numericColumns)).
  { intros pair H. unfold findCorrelations in H.
    apply (Permutation_in _ (Permutation_sym (Array_sort_perm byStrength _))) in H.
    apply in_flat_map in H. destruct H as (c & Hc & H).
    rewrite (correlate_columns data c pair H). exact Hc. }
  split.
  - intros pair H. specialize (M pair H).
    destruct (pairsOf_members _ _ _ M) as [H1 H2].
    apply filter_In in H1, H2. split; [apply H1|]. split; [apply H2|].
    destruct (pairsOf_In _ _ _ M) as (l1 & l2 & l3 & E).
    exact (filter_split _ _ _ _ _ _ _ E).
  - intros N. assert (Nn : NoDup numericColumns) by (apply NoDup_filter; exact N). split.
    + unfold findCorrelations. fold columns numericColumns.
      eapply Permutation_NoDup;
        [apply Permutation_map, (Array_sort_perm byStrength) | ].
      apply correlations_columns_NoDup, pairsOf_NoDup, Nn.
    + intros pair other H1 H2 [E1 E2]. apply M in H1, H2. rewrite E1, E2 in H2.
      exact (pairsOf_one_order _ _ _ Nn H1 H2).
Qed.

End CorrelationPairs.
(** ** analyzeData: the columns its insights speak of *)

Section ChosenColumns.
Variable toLocaleString : float -> string.
Local Open Scope Z_scope.

(** A [reduce] that moves on a strictly greater element ends on the first
    of the greatest elements. *)
Lemma reduce_first_greatest {A : Type} (P : A -> Prop) (lt : A -> A -> bool) (m : A -> Z)
  (l seenBefore seenAfter : list A) (acc : A) :
  (forall a b, P a -> P b -> lt a b = (m a <? m b)) ->
  Forall P (seenBefore ++ acc :: seenAfter ++ l) ->
  Forall (fun x => m x < m acc) seenBefore -> Forall (fun x => m x <= m acc) seenAfter ->
  let best := fold_left (fun acc x => if lt acc x then x else acc) l acc in
  exists before after,
    seenBefore ++ acc :: seenAfter ++ l = before ++ best :: after /\
    Forall (fun x => m x < m best) before /\ Forall (fun x => m x <= m best) after.
Proof.
  intros Hlt. revert seenBefore seenAfter acc.
  induction l as [ | x t IH]; intros seenBefore seenAfter acc HP Hb Ha; cbn [fold_left].
  - exists seenBefore, (seenAfter ++ []). rewrite app_nil_r. auto.
  - assert (Pacc : P acc).
    { rewrite Forall_forall in HP. apply HP. apply in_or_app. right. left. reflexivity. }
    assert (Px : P x).
    { rewrite Forall_forall in HP. apply HP. apply in_or_app. right. right.
      apply in_or_app. right. left. reflexivity. }
    rewrite (Hlt acc x Pacc Px). destruct (Z.ltb_spec (m acc) (m x)) as [C | C].
    + replace (seenBefore ++ acc :: seenAfter ++ x :: t)
        with ((seenBefore ++ acc :: seenAfter) ++ x :: [] ++ t)
        by (rewrite <- app_assoc; reflexivity).
      apply IH.
      * rewrite <- app_assoc. exact HP.
      * apply Forall_app. split; [ | constructor].
        -- eapply Forall_impl; [ | exact Hb]. cbv beta. intros; lia.
        -- exact C.
        -- eapply Forall_impl; [ | exact Ha]. cbv beta. intros; lia.
      * constructor.
    + replace (seenBefore ++ acc :: seenAfter ++ x :: t)
        with (seenBefore ++ acc :: (seenAfter ++ [x]) ++ t)
        by (rewrite <- app_assoc; reflexivity).
      apply IH.
      * rewrite <- app_assoc. exact HP.
      * exact Hb.
      * apply Forall_app. split; [exact Ha|]. constructor; [exact C | constructor].
Qed.

Lemma numericColumnsOf_In (data : list DataItem) (columns : list string)
  (column : string) (stats : Stats) :
  In (column, stats) (numericColumnsOf data columns) ->
  In column columns /\ calculateStats data column = Some stats.
Proof.
  unfold numericColumnsOf. intros H. apply in_flat_map in H. destruct H as (c & Hc & H).
  destruct (calculateStats data c) as [s | ] eqn:E; [ | destruct H].
  destruct H as [H | []]. injection H as -> ->. auto.
Qed.

Lemma calculateStats_max_notNaN (data : list DataItem) (column : string) (stats : Stats) :
  calculateStats data column = Some stats -> notNaN (max stats).
Proof.
  intros H. destruct (calculateStats_Some data column stats H) as (E & Hn & Nn & _).
  cbn zeta in *. subst stats. cbn [statsOfSorted max].
  rewrite Forall_forall in Nn. apply Nn. unfold at_index. apply nth_In. lia.
Qed.

(** The column the first insight names has the greatest maximum of the
    numeric columns, and is the first of those that have it. *)
Theorem highestValueColumn_first_greatest (data : list DataItem) (columns : list string)
  (first : string * Stats) (rest : list (string * Stats)) :
  numericColumnsOf data columns = first :: rest ->
  let highest := highestValueColumn (first :: rest) first in
  (exists before after,
     first :: rest = before ++ highest :: after /\
     Forall (fun column => (max (snd column) <? max (snd highest))%float = true) before /\
     Forall (fun column => (max (snd column) <=? max (snd highest))%float = true) after) /\
  exists text,
    extremesInsight toLocaleString (first :: rest) []
    = [("The column " ++ quoted (fst highest) ++ " has the highest value at " ++ text)%string].
Proof.
  intros E. cbn zeta. split; [ | eexists; reflexivity].
  set (P := fun column : string * Stats => notNaN (max (snd column))).
  assert (HP : Forall P (first :: rest)).
  { rewrite <- E. apply Forall_forall. intros [column stats] H.
    apply numericColumnsOf_In in H. destruct H as [_ H].
    exact (calculateStats_max_notNaN _ _ _ H). }
  assert (Hlt : forall a b, P a -> P b ->
                  (max (snd a) <? max (snd b))%float = (Fval (max (snd a)) <? Fval (max (snd b)))).
  { intros a b Pa Pb. apply ltb_val; assumption. }
  unfold highestValueColumn. cbn [fold_left].
  assert (Pf : P first) by (inversion HP; assumption).
  rewrite (Hlt first first Pf Pf), Z.ltb_irrefl.
  destruct (reduce_first_greatest P _ _ rest [] [] first Hlt HP (Forall_nil _) (Forall_nil _))
    as (before & after & Es & Hb & Ha).
  cbn zeta in *. cbn [app] in Es.
  set (highest := fold_left _ rest first) in *.
  assert (Ph : P highest).
  { rewrite Forall_forall in HP. apply HP. rewrite Es. apply in_or_app. right. left. reflexivity. }
  assert (HP' : Forall P (before ++ highest :: after)) by (rewrite <- Es; exact HP).
  apply Forall_app in HP'. destruct HP' as [Pb Pa]. apply Forall_cons_iff in Pa. destruct Pa as [_ Pa].
  exists before, after. split; [exact Es|].
  rewrite Forall_forall in Pb, Pa, Hb, Ha. split; apply Forall_forall; intros c Hc.
  - rewrite (ltb_val _ _ (Pb c Hc) Ph). apply Z.ltb_lt. exact (Hb c Hc).
  - rewrite (leb_val _ _ (Pa c Hc) Ph). apply Z.leb_le. exact (Ha c Hc).
Qed.

(** The column the outlier insight names has the most outliers of the
    columns that have any, and is the first of those that have as many. *)
Theorem significantOutlierColumn_first_most (data : list DataItem)
  (numericColumns : list (string * Stats))
  (first : string * Stats) (rest : list (string * Stats)) :
  filter (fun column => hasOutliers (snd column)) numericColumns = first :: rest ->
  let most := significantOutlierColumn (first :: rest) first in
  (exists before after,
     first :: rest = before ++ most :: after /\
     Forall (fun column =>
               (List.length (outliers (snd column)) < List.length (outliers (snd most)))%nat)
            before /\
     Forall (fun column =>
               (List.length (outliers (snd column)) <= List.length (outliers (snd most)))%nat)
            after) /\
  exists text,
    outliersInsight toLocaleString data numericColumns []
    = [("Outlier analysis for " ++ quoted (fst most) ++ ": Detected "
        ++ showCount (List.length (outliers (snd most))) ++ " outliers (" ++ text)%string].
Proof.
  intros E. cbn zeta. split; [ | unfold outliersInsight; rewrite E; eexists; reflexivity].
  set (m := fun column : string * Stats => Z.of_nat (List.length (outliers (snd column)))).
  assert (Hlt : forall a b : string * Stats, True -> True ->
                  (List.length (outliers (snd a)) <? List.length (outliers (snd b)))%nat
                  = (m a <? m b)).
  { intros a b _ _. unfold m.
    destruct (Nat.ltb_spec (List.length (outliers (snd a))) (List.length (outliers (snd b))));
      symmetry; [apply Z.ltb_lt | apply Z.ltb_ge]; lia. }
  unfold significantOutlierColumn. cbn [fold_left]. rewrite Nat.ltb_irrefl.
  assert (HP : Forall (fun _ : string * Stats => True) ([] ++ first :: [] ++ rest)).
  { apply Forall_forall. intros; exact I. }
  destruct (reduce_first_greatest _ _ m rest [] [] first Hlt HP (Forall_nil _) (Forall_nil _))
    as (before & after & Es & Hb & Ha).
  cbn zeta in *. cbn [app] in Es.
  exists before, after. split; [exact Es|]. unfold m in *. split.
  - eapply Forall_impl; [ | exact Hb]. cbv beta. intros; lia.
  - eapply Forall_impl; [ | exact Ha]. cbv beta. intros; lia.
Qed.

End ChosenColumns.

Section ChosenColumnExamples.
Local Open Scope string_scope.

(** In the scenario, [y] has the greatest maximum, 10, and the first
    insight names it. *)
Lemma highestValueColumn_first_greatest_witness :
  exists first rest,
    numericColumnsOf scenario (Object_keys (firstRow scenario)) = first :: rest /\
    fst (highestValueColumn (first :: rest) first) = "y" /\
    exists text,
      extremesInsight JS.toLocaleString_enUS (first :: rest) []
      = ["The column " ++ quoted "y" ++ " has the highest value at " ++ text].
Proof.
  eexists. eexists. split; [vm_compute; reflexivity|]. split; [reflexivity|].
  destruct (highestValueColumn_first_greatest JS.toLocaleString_enUS
              scenario (Object_keys (firstRow scenario)) _ _ eq_refl) as [_ [text E]].
  exists text. exact E.
Defined.

(** In [fourColumns] three columns have outliers: [q] one, [r] and [s]
    two each.  The insight names [r], the first of the two with the most;
    [q] comes before it with fewer, [s] after it with as many. *)
Lemma significantOutlierColumn_first_most_witness :
  exists first rest,
    filter (fun column => hasOutliers (snd column))
           (numericColumnsOf fourColumns (Object_keys (firstRow fourColumns))) = first :: rest /\
    map (fun column => (fst column, List.length (outliers (snd column)))) (first :: rest)
    = [("q", 1%nat); ("r", 2%nat); ("s", 2%nat)] /\
    fst (significantOutlierColumn (first :: rest) first) = "r" /\
    (exists before after,
       first :: rest
       = (before ++ significantOutlierColumn (first :: rest) first :: after)%list /\
       Forall (fun column =>
                 (List.length (outliers (snd column))
                  < List.length (outliers (snd (significantOutlierColumn (first :: rest) first))))%nat)
              before /\
       Forall (fun column =>
                 (List.length (outliers (snd column))
                  <= List.length (outliers (snd (significantOutlierColumn (first :: rest) first))))%nat)
              after) /\
    exists text,
      outliersInsight JS.toLocaleString_enUS fourColumns
        (numericColumnsOf fourColumns (Object_keys (firstRow fourColumns))) []
      = ["Outlier analysis for " ++ quoted "r" ++ ": Detected 2 outliers (" ++ text].
Proof.
  eexists. eexists. split; [vm_compute; reflexivity|]. split; [reflexivity|].
  split; [reflexivity|].
  destruct (significantOutlierColumn_first_most JS.toLocaleString_enUS fourColumns
              (numericColumnsOf fourColumns (Object_keys (firstRow fourColumns))) _ _ eq_refl)
    as [Chosen [text E]].
  split; [exact Chosen|]. exists text. exact E.
Defined.

End ChosenColumnExamples.
(** ** analyzeData: how many insights, and which one the cut can take *)

Section InsightCount.
Variable toLocaleString : float -> string.

Lemma extremesInsight_one (first : string * Stats) (rest : list (string * Stats)) :
  List.length (extremesInsight toLocaleString (first :: rest) []) = 1%nat.
Proof. reflexivity. Qed.

Lemma outliersInsight_one (data : list DataItem)
  (first : string * Stats) (rest : list (string * Stats)) :
  List.length (outliersInsight toLocaleString data (first :: rest) []) = 1%nat.
Proof.
  unfold outliersInsight. destruct (filter _ (first :: rest)); reflexivity.
Qed.

Lemma correlationsInsight_one (data : list DataItem)
  (first second : string * Stats) (rest : list (string * Stats)) :
  List.length (correlationsInsight data (first :: second :: rest) []) = 1%nat.
Proof.
  unfold correlationsInsight. destruct (findCorrelations data); reflexivity.
Qed.

(** Without numeric columns there are no correlations. *)
Lemma findCorrelations_none (data : list DataItem) :
  numericColumnsOf data (Object_keys (firstRow data)) = [] -> findCorrelations data = [].
Proof.
  intros E. unfold findCorrelations.
  replace (filter (isNumericColumn data) (Object_keys (firstRow data))) with (@nil string);
    [reflexivity|].
  symmetry. unfold numericColumnsOf in E.
  induction (Object_keys (firstRow data)) as [ | c t IH]; [reflexivity|].
  cbn [flat_map filter] in *. unfold isNumericColumn at 1.
  destruct (calculateStats data c); [discriminate|]. apply IH. exact E.
Qed.

(** The steps before the correlation step leave at most five insights,
    so the cut to five takes none of them: the insights that come back are
    theirs, then that of the correlation step if there is room. *)
Lemma analyzeData_kept (data : list DataItem) :
  data <> [] ->
  let columns := Object_keys (firstRow data) in
  let numericColumns := numericColumnsOf data columns in
  let kept := beforeCorrelations toLocaleString data in
  kept = extremesInsight toLocaleString numericColumns []
         ++ trendInsight data numericColumns []
         ++ seasonalityInsight data numericColumns []
         ++ missingDataInsight data columns []
         ++ outliersInsight toLocaleString data numericColumns [] /\
  (List.length kept <= 5)%nat /\
  analyzeData toLocaleString data
  = Resolved (kept ++ (if (List.length kept <? 5)%nat
                       then correlationsInsight data numericColumns [] else [])).
Proof.
  intros Hne. cbn zeta. rewrite (analyzeData_insights toLocaleString data Hne). cbn zeta.
  set (columns := Object_keys (firstRow data)).
  set (numericColumns := numericColumnsOf data columns).
  destruct (extremesInsight_appends toLocaleString numericColumns) as [L1 E1].
  destruct (trendInsight_appends data numericColumns) as [L2 E2].
  destruct (seasonalityInsight_appends data numericColumns) as [L3 E3].
  destruct (missingDataInsight_appends data columns) as [[_ E4] L4].
  destruct (outliersInsight_appends toLocaleString data numericColumns) as [L5 E5].
  destruct (correlationsInsight_appends data numericColumns) as [L6 _].
  assert (K : beforeCorrelations toLocaleString data
              = extremesInsight toLocaleString numericColumns []
                ++ trendInsight data numericColumns []
                ++ seasonalityInsight data numericColumns []
                ++ missingDataInsight data columns []
                ++ outliersInsight toLocaleString data numericColumns []).
  { unfold beforeCorrelations. fold columns numericColumns.
    rewrite E5, E4, E3, E2. rewrite <- !app_assoc. reflexivity. }
  split; [exact K|]. rewrite K.
  set (e := extremesInsight toLocaleString numericColumns []) in *.
  set (t := trendInsight data numericColumns []) in *.
  set (s := seasonalityInsight data numericColumns []) in *.
  set (m := missingDataInsight data columns []) in *.
  set (o := outliersInsight toLocaleString data numericColumns []) in *.
  set (c := correlationsInsight data numericColumns []) in *.
  assert (L : (List.length (e ++ t ++ s ++ m ++ o) <= 5)%nat) by (rewrite !length_app; lia).
  split; [exact L|]. f_equal.
  replace (e ++ t ++ s ++ m ++ o ++ c) with ((e ++ t ++ s ++ m ++ o) ++ c)
    by (rewrite <- !app_assoc; reflexivity).
  destruct (Nat.ltb_spec (List.length (e ++ t ++ s ++ m ++ o)) 5) as [C | C].
  - apply firstn_all2. rewrite length_app. lia.
  - rewrite firstn_app, firstn_all2 by lia.
    replace (5 - List.length (e ++ t ++ s ++ m ++ o))%nat with 0%nat by lia. reflexivity.
Qed.

(** Only the correlation insight is ever cut: what comes back is what the
    five steps before it made, followed by the correlation insight when
    they made fewer than five.  The data-quality insight is always among
    them. *)
Theorem analyzeData_cuts_only_correlations (data : list DataItem) :
  data <> [] ->
  let columns := Object_keys (firstRow data) in
  let numericColumns := numericColumnsOf data columns in
  let kept := beforeCorrelations toLocaleString data in
  analyzeData toLocaleString data
  = Resolved (kept ++ (if (List.length kept <? 5)%nat
                       then correlationsInsight data numericColumns [] else [])) /\
  exists quality,
    missingDataInsight data columns [] = [quality] /\ In quality kept /\
    prefix "Data quality analysis: " quality = true.
Proof.
  intros Hne. cbn zeta. destruct (analyzeData_kept data Hne) as (K & _ & E). cbn zeta in *.
  split; [exact E|]. rewrite K.
  assert (Q : exists quality,
             missingDataInsight data (Object_keys (firstRow data)) [] = [quality] /\
             prefix "Data quality analysis: " quality = true).
  { unfold missingDataInsight, push.
    destruct (findMissingData data); cbn [app]; eexists; split; reflexivity. }
  destruct Q as (quality & Eq & P). exists quality. split; [exact Eq|]. split; [ | exact P].
  rewrite Eq. apply in_or_app. right. apply in_or_app. right. apply in_or_app. right.
  left. reflexivity.
Qed.

(** How many insights come back: one, the data-quality insight, when no
    column is numeric; at least three with a numeric column; at least four
    with two; never more than five. *)
Theorem analyzeData_number_of_insights (data : list DataItem) :
  data <> [] ->
  let columns := Object_keys (firstRow data) in
  let numericColumns := numericColumnsOf data columns in
  exists insights,
    analyzeData toLocaleString data = Resolved insights /\
    (List.length insights <= 5)%nat /\
    (numericColumns = [] -> insights = missingDataInsight data columns []) /\
    (1 <= List.length numericColumns -> 3 <= List.length insights)%nat /\
    (2 <= List.length numericColumns -> 4 <= List.length insights)%nat.
Proof.
  intros Hne. cbn zeta. destruct (analyzeData_kept data Hne) as (K & L & E). cbn zeta in *.
  rewrite E. eexists. split; [reflexivity|]. clear E.
  set (columns := Object_keys (firstRow data)) in *.
  set (numericColumns := numericColumnsOf data columns) in *.
  destruct (trendInsight_appends data numericColumns) as [L2 _].
  destruct (seasonalityInsight_appends data numericColumns) as [L3 _].
  destruct (missingDataInsight_appends data columns) as [_ L4].
  destruct (correlationsInsight_appends data numericColumns) as [L6 _].
  set (kept := beforeCorrelations toLocaleString data) in *.
  assert (Lk : List.length kept
               = (List.length (extremesInsight toLocaleString numericColumns [])
                  + List.length (trendInsight data numericColumns [])
                  + List.length (seasonalityInsight data numericColumns [])
                  + List.length (missingDataInsight data columns [])
                  + List.length (outliersInsight toLocaleString data numericColumns []))%nat).
  { rewrite K, !length_app. lia. }
  split; [ | split; [ | split]].
  - rewrite length_app. destruct (List.length kept <? 5)%nat eqn:C; cbn [List.length]; [ | lia].
    apply Nat.ltb_lt in C. lia.
  - intros En. rewrite K.
    pose proof (findCorrelations_none data) as F. fold columns numericColumns in F.
    unfold correlationsInsight. rewrite (F En), En.
    cbn [extremesInsight trendInsight seasonalityInsight outliersInsight filter
         List.length Nat.ltb Nat.leb app].
    rewrite !app_nil_r. destruct (Nat.leb _ 4); rewrite app_nil_r; reflexivity.
  - intros Hn. rewrite length_app.
    destruct numericColumns as [ | first rest] eqn:En; [cbn [List.length] in Hn; lia|].
    rewrite extremesInsight_one, outliersInsight_one in Lk. lia.
  - intros Hn. rewrite length_app.
    destruct numericColumns as [ | first [ | second rest]] eqn:En; cbn [List.length] in Hn; try lia.
    rewrite extremesInsight_one, outliersInsight_one in Lk.
    pose proof (correlationsInsight_one data first second rest) as Lc.
    destruct (Nat.ltb_spec (List.length kept) 5); cbn [List.length]; lia.
Qed.

End InsightCount.

Section InsightCountExamples.
Local Open Scope string_scope.

(** On [sixInsights] the five steps before the correlation step each make
    an insight, and the correlation insight is the one that is cut. *)
Lemma analyzeData_cuts_only_correlations_witness :
  analyzeData JS.toLocaleString_enUS sixInsights
  = Resolved (beforeCorrelations JS.toLocaleString_enUS sixInsights) /\
  List.length (beforeCorrelations JS.toLocaleString_enUS sixInsights) = 5%nat /\
  List.length (correlationsInsight sixInsights
                 (numericColumnsOf sixInsights (Object_keys (firstRow sixInsights))) []) = 1%nat.
Proof.
  destruct (analyzeData_cuts_only_correlations JS.toLocaleString_enUS sixInsights
              ltac:(discriminate)) as [E _].
  split; [rewrite E; vm_compute; reflexivity|]. split; vm_compute; reflexivity.
Defined.

(** The scenario has two numeric columns, and five insights come back. *)
Lemma analyzeData_number_of_insights_witness :
  exists insights,
    analyzeData JS.toLocaleString_enUS scenario = Resolved insights /\
    List.length insights = 5%nat /\ (4 <= List.length insights <= 5)%nat.
Proof.
  destruct (analyzeData_number_of_insights JS.toLocaleString_enUS scenario ltac:(discriminate))
    as (insights & E & L5 & _ & _ & L4).
  exists insights. split; [exact E|].
  assert (L : List.length insights = 5%nat).
  { vm_compute in E. injection E as <-. reflexivity. }
  split; [exact L|]. split; [apply L4; vm_compute; lia | exact L5].
Defined.

End InsightCountExamples.
(** ** The caller: generateInsights and handleRefreshInsights *)

Section CallerFacts.
Variable toLocaleString : float -> string.

(** On a dataset that is not empty neither error of the [try] block is
    thrown: the insights are those of [analyzeData], one to five of them. *)
Lemma tryGenerate_resolves (dataToAnalyze : list DataItem) :
  dataToAnalyze <> [] ->
  exists generatedInsights,
    analyzeData toLocaleString dataToAnalyze = Resolved generatedInsights /\
    App.tryGenerate toLocaleString dataToAnalyze = Resolved generatedInsights /\
    (1 <= List.length generatedInsights <= 5)%nat.
Proof.
  intros Hne. destruct (analyzeData_kept toLocaleString dataToAnalyze Hne) as (K & L & E).
  cbn zeta in *. eexists. split; [exact E|].
  set (kept := beforeCorrelations toLocaleString dataToAnalyze) in *.
  set (numericColumns := numericColumnsOf dataToAnalyze _) in *.
  destruct (correlationsInsight_appends dataToAnalyze numericColumns) as [L6 _].
  destruct (missingDataInsight_appends dataToAnalyze (Object_keys (firstRow dataToAnalyze)))
    as [_ L4].
  assert (Lk : (1 <= List.length kept)%nat) by (rewrite K, !length_app; lia).
  assert (Lr : (1 <= List.length (kept ++ (if (List.length kept <? 5)%nat
                                           then correlationsInsight dataToAnalyze numericColumns []
                                           else [])) <= 5)%nat).
  { rewrite length_app. destruct (Nat.ltb_spec (List.length kept) 5); cbn [List.length]; lia. }
  split; [ | exact Lr].
  unfold App.tryGenerate. rewrite E.
  destruct dataToAnalyze as [ | row rest]; [contradiction|]. cbn [List.length Nat.eqb].
  destruct (List.length _ =? 0)%nat eqn:Z; [apply Nat.eqb_eq in Z; lia | reflexivity].
Qed.

(** [generateInsights] always ends with the loading flag off and the
    dataset untouched.  On a dataset that is not empty it sets the
    insights of [analyzeData], one to five of them, and no error: the
    sample insights and the error message appear for the empty dataset
    only. *)
Theorem generateInsights_settles (dataToAnalyze : list DataItem) (st : App.State) :
  let st' := App.generateInsights toLocaleString dataToAnalyze st in
  App.isLoading st' = false /\ App.data st' = App.data st /\
  (dataToAnalyze <> [] ->
   App.error st' = None /\
   analyzeData toLocaleString dataToAnalyze = Resolved (App.insights st') /\
   (1 <= List.length (App.insights st') <= 5)%nat) /\
  (dataToAnalyze = [] ->
   App.error st' = Some App.errorMessage /\ App.insights st' = App.fallbackInsights).
Proof.
  cbn zeta. unfold App.generateInsights. split; [reflexivity|]. split.
  - destruct (App.tryGenerate toLocaleString dataToAnalyze); reflexivity.
  - split.
    + intros Hne. destruct (tryGenerate_resolves dataToAnalyze Hne) as (g & Ea & Et & Lg).
      rewrite Et. cbn. auto.
    + intros ->. cbn. auto.
Qed.

(** Refreshing never fails: without a dataset it leaves the state as it
    is, and with one it sets the insights of [analyzeData] and clears the
    error. *)
Theorem handleRefreshInsights_never_fails (st : App.State) :
  let st' := App.handleRefreshInsights toLocaleString st in
  (App.data st = [] -> st' = st) /\
  (App.data st <> [] ->
   App.error st' = None /\ App.isLoading st' = false /\ App.data st' = App.data st /\
   analyzeData toLocaleString (App.data st) = Resolved (App.insights st')).
Proof.
  cbn zeta. unfold App.handleRefreshInsights. split.
  - intros ->. reflexivity.
  - intros Hne. destruct (App.data st) as [ | row rest] eqn:Ed; [contradiction|].
    cbn [List.length Nat.ltb Nat.leb]. unfold App.generateInsights.
    destruct (tryGenerate_resolves (row :: rest) Hne) as (g & Ea & Et & Lg).
    rewrite Et. cbn. auto.
Qed.

End CallerFacts.
(** ** Ratios of counts

    The percentages of the service are quotients of two counts, times
    100.  Both operations are correctly rounded; this is what that gives
    for them. *)

Section RatioFacts.
Local Open Scope Z_scope.

(** Rounding leaves a mantissa alone that is canonical already. *)
Lemma binary_round_aux_canonical (s : bool) (m : positive) (e : Z) :
  bounded prec emax m e = true ->
  binary_round_aux prec emax s (Zpos m) e loc_Exact = S754_finite s m e.
Proof.
  intros B. unfold bounded in B. apply andb_true_iff in B. destruct B as [C L].
  unfold canonical_mantissa in C. apply Z.eqb_eq in C.
  unfold binary_round_aux, shr_fexp. cbn [Zdigits2]. rewrite C, Z.sub_diag.
  cbn [shr shr_record_of_loc shr_m loc_of_shr_record round_nearest_even Zdigits2].
  rewrite C, Z.sub_diag. cbn [shr shr_m]. rewrite L. reflexivity.
Qed.

(** A count below 2^53 is a binary64 value: its mantissa has 53 digits
    and its exponent lies between -52 and 0. *)
Lemma Number_of_nat_spec (n : nat) :
  0 < Z.of_nat n < 2 ^ 53 ->
  exists m e,
    Prim2SF (JS.Number_of_nat n) = S754_finite false m e /\
    valid_binary (S754_finite false m e) = true /\
    -52 <= e <= 0 /\ Zpos m = Z.of_nat n * 2 ^ (- e) /\ 2 ^ 52 <= Zpos m < 2 ^ 53.
Proof.
  intros [Hp Hb]. unfold JS.Number_of_nat, JS.Number_of_Z.
  destruct (Z.of_nat n) as [ | p | p] eqn:Ep; try lia. cbn [binary_normalize].
  unfold binary_round.
  pose proof (shl_align_spec p 0 (fexp prec emax (Zpos (digits2_pos p) + 0))) as A.
  destruct (shl_align p 0 _) as [mz ez]. destruct A as [Ez Emz].
  pose proof (digits2_pos_bounds p) as [Dl Du]. set (d := Zpos (digits2_pos p)) in *.
  assert (Hd : d <= 53).
  { change d with (Zdigits2 (Zpos p)). apply Zdigits2_le; lia. }
  assert (Hd1 : 1 <= d) by (unfold d; lia).
  rewrite fexp64 in Ez. assert (Eez : ez = d - 53) by lia.
  assert (Dz : Zdigits2 (Zpos mz) = 53).
  { rewrite Emz, Zdigits2_shift by lia. cbn [Zdigits2]. fold d. lia. }
  assert (B : bounded prec emax mz ez = true).
  { unfold bounded, canonical_mantissa. cbn [Zdigits2] in Dz. rewrite Dz, fexp64.
    apply andb_true_iff. split; [apply Z.eqb_eq | apply Z.leb_le; change (emax - prec) with 971]; lia. }
  rewrite (binary_round_aux_canonical false mz ez B).
  exists mz, ez. split; [apply Prim2SF_SF2Prim; exact B|]. split; [exact B|].
  split; [lia|]. split; [rewrite Emz; f_equal; f_equal; lia|].
  destruct (Zdigits2_bounds (Zpos mz) ltac:(lia)) as (_ & Bl & Bu). rewrite Dz in Bl, Bu.
  change (53 - 1) with 52 in Bl. lia.
Qed.

Lemma Number_of_nat_val (n : nat) :
  Z.of_nat n < 2 ^ 53 ->
  JS.isNaN (JS.Number_of_nat n) = false /\
  JS.Number_isFinite (JS.Number_of_nat n) = true /\
  Fval (JS.Number_of_nat n) = Z.of_nat n * 2 ^ 1074.
Proof.
  intros Hb. destruct n as [ | n'].
  - repeat split.
  - destruct (Number_of_nat_spec (S n') ltac:(lia)) as (m & e & E & V & He & Em & Bm).
    rewrite isNaN_spec, isFinite_spec. unfold Fval. rewrite E. cbn [SFis_nan SFis_finite SFval cond_Zopp].
    split; [reflexivity|]. split; [reflexivity|]. rewrite Em.
    replace 1074 with (- e + (e + 1074)) at 2 by lia. rewrite (pow2_split (- e)) by lia. ring.
Qed.

(** Rounding a mantissa [q] that the exact value [N / D] lies at or just
    above (below [q + 1], and the location exact when it is at [q]): the
    result lies between any two finite binary64 values that enclose the
    exact value. *)
Lemma binary_round_aux_enclosed (q e : Z) (l : location) (N D : Z) :
  0 < q -> -1074 <= e -> e <= fexp prec emax (Zdigits2 q + e) ->
  0 < D ->
  q * 2 ^ (e + 1074) * D <= N < (q + 1) * 2 ^ (e + 1074) * D ->
  (N = q * 2 ^ (e + 1074) * D -> l = loc_Exact) ->
  let r := binary_round_aux prec emax false q e l in
  SFis_nan r = false /\ 0 < SFval r /\
  forall f, valid_binary f = true -> SFis_finite f = true ->
    (SFval f * D <= N -> SFval f <= SFval r) /\
    (N <= SFval f * D -> SFval r <= SFval f).
Proof.
  intros Hq He Hn HD [HN1 HN2] Hex. cbn zeta.
  destruct (binary_round_aux_spec q e l Hq He Hn) as (m2 & Hm2 & Hr).
  destruct (shift_canonical q e Hq He Hn) as (Hk & Hm1 & Hdiv & Hcan & _).
  set (k := shift_of q e) in *. set (m1 := q / 2 ^ k) in *.
  set (r := binary_round_aux prec emax false q e l) in *.
  pose proof (pow2_pos (e + 1074) ltac:(lia)) as Pe. pose proof (pow2_pos k Hk) as Pk.
  assert (Esplit : 2 ^ (e + k + 1074) = 2 ^ k * 2 ^ (e + 1074)).
  { replace (e + k + 1074) with (k + (e + 1074)) by lia. apply pow2_split; lia. }
  pose proof (pow2_pos (e + k + 1074) ltac:(lia)) as Pg.
  set (G := 2 ^ (e + k + 1074)) in *. set (B := 2 ^ (e + 1074)) in *. set (K := 2 ^ k) in *.
  assert (HLq : m1 * G <= q * B) by (rewrite Esplit; nia).
  assert (HqU : (q + 1) * B <= (m1 + 1) * G) by (rewrite Esplit; nia).
  assert (HL : m1 * G * D <= N).
  { eapply Z.le_trans; [ | exact HN1]. apply Z.mul_le_mono_nonneg_r; lia. }
  assert (HU : N < (m1 + 1) * G * D).
  { eapply Z.lt_le_trans; [exact HN2|]. apply Z.mul_le_mono_nonneg_r; lia. }
  assert (Hm2' : m2 = m1 \/ m2 = m1 + 1) by tauto.
  assert (Hm12 : m1 * G <= m2 * G /\ m2 * G <= (m1 + 1) * G) by (destruct Hm2' as [-> | ->]; nia).
  assert (Exact : N = q * B * D -> q = m1 * K -> m2 = m1).
  { intros E1 E2. destruct Hm2 as [E | [_ Nx]]; [exact E|]. exfalso. apply Nx. split; [ | exact E2].
    apply Hex. exact E1. }
  assert (Nan : SFis_nan r = false).
  { destruct Hr as [(m3 & e3 & -> & _) | [-> _]]; reflexivity. }
  assert (Pos : 0 < SFval r).
  { pose proof bounds_order.
    destruct Hr as [(m3 & e3 & -> & E) | [-> _]]; cbn [SFval cond_Zopp]; [ | lia].
    fold G in E. rewrite E. destruct Hm2' as [-> | ->]; nia. }
  pose proof bounds_order as Q.
  split; [exact Nan|]. split; [exact Pos|].
  intros f Hv Hf. destruct (float_grid f m1 (e + k) Hv Hf Hm1 ltac:(lia) Hcan) as [G1 G2].
  fold G in G1, G2.
  pose proof (finite_val_bound f Hv Hf) as Bf.
  split; intros H1.
  - assert (SFval f < (m1 + 1) * G).
    { apply Z.mul_lt_mono_pos_r with D; [exact HD|]. lia. }
    specialize (G1 ltac:(assumption)).
    destruct Hr as [(m3 & e3 & -> & E) | [-> _]]; cbn [SFval cond_Zopp]; [fold G in E | ]; lia.
  - assert (Lf : m1 * G <= SFval f).
    { apply Z.mul_le_mono_pos_r with D; [exact HD|]. lia. }
    destruct (Z_le_lt_eq_dec _ _ Lf) as [Lt | Eq].
    + specialize (G2 Lt).
      destruct Hr as [(m3 & e3 & -> & E) | [-> Hov]]; cbn [SFval cond_Zopp];
        [fold G in E | fold G in Hov]; lia.
    + assert (E1 : N = q * B * D).
      { assert (q * B * D <= SFval f * D).
        { eapply Z.le_trans; [exact HN1 | exact H1]. }
        assert (SFval f * D <= q * B * D).
        { rewrite <- Eq. apply Z.mul_le_mono_nonneg_r; lia. }
        lia. }
      assert (E2 : q = m1 * K).
      { assert (q * B = m1 * G).
        { apply Z.mul_reg_r with D; [lia|]. rewrite <- E1, Eq. lia. }
        rewrite Esplit in H. apply Z.mul_reg_r with B; [lia|]. lia. }
      rewrite (Exact E1 E2) in Hr.
      destruct Hr as [(m3 & e3 & -> & E) | [-> Hov]]; cbn [SFval cond_Zopp];
        [fold G in E | fold G in Hov]; lia.
Qed.

Lemma new_location_zero (n : Z) : new_location n 0 = loc_Exact.
Proof. unfold new_location, new_location_even, new_location_odd. destruct (Z.even n); reflexivity. Qed.

Lemma new_location_exact (n k : Z) : new_location n k = loc_Exact -> k = 0.
Proof.
  unfold new_location, new_location_even, new_location_odd.
  destruct (Z.even n); destruct (Z.eqb_spec k 0); auto; discriminate.
Qed.

Lemma shifted_mantissa (m s : Z) :
  0 <= s ->
  match s with Z0 => m | Zpos _ => Z.shiftl m s | Zneg _ => 0 end = m * 2 ^ s.
Proof.
  intros Hs. destruct s as [ | p | p]; [ | | lia].
  - rewrite Z.pow_0_r. lia.
  - apply Z.shiftl_mul_pow2. lia.
Qed.

(** The quotient of two positive finite binary64 values, when it is not
    below the least positive one: correctly enclosed. *)
Lemma SFdiv_enclosed (mx my : positive) (ex ey : Z) :
  let x := S754_finite false mx ex in
  let y := S754_finite false my ey in
  valid_binary x = true -> valid_binary y = true ->
  -1074 <= ex - ey -> SFval y <= SFval x * 2 ^ 1074 ->
  let r := SF64div x y in
  SFis_nan r = false /\ 0 < SFval r /\
  forall f, valid_binary f = true -> SFis_finite f = true ->
    (SFval f * SFval y <= SFval x * 2 ^ 1074 -> SFval f <= SFval r) /\
    (SFval x * 2 ^ 1074 <= SFval f * SFval y -> SFval r <= SFval f).
Proof.
  cbn zeta. intros Vx Vy Hexy Hmin.
  destruct (valid_finite _ _ _ Vx) as (Hex & Hdx & _).
  destruct (valid_finite _ _ _ Vy) as (Hey & Hdy & _).
  unfold SF64div. cbn [SFdiv xorb]. unfold SFdiv_core_binary. cbn [Zdigits2].
  pose proof (digits2_pos_bounds mx) as [Lx Ux]. pose proof (digits2_pos_bounds my) as [Ly Uy].
  set (d1 := Zpos (digits2_pos mx)) in *. set (d2 := Zpos (digits2_pos my)) in *.
  assert (Hd1 : 1 <= d1) by (unfold d1; lia). assert (Hd2 : 1 <= d2) by (unfold d2; lia).
  rewrite fexp64.
  set (e' := Z.min (Z.max (d1 + ex - (d2 + ey) - 53) (-1074)) (ex - ey)).
  set (s := ex - ey - e').
  assert (He' : -1074 <= e') by (unfold e'; lia).
  assert (Hs : 0 <= s) by (unfold s, e'; lia).
  set (m' := match s with Z0 => Zpos mx | Zpos _ => Z.shiftl (Zpos mx) s | Zneg _ => 0 end).
  assert (Em' : m' = Zpos mx * 2 ^ s) by (apply shifted_mantissa; exact Hs).
  rewrite div_eucl_pair.
  set (q := m' / Zpos my). set (rem := m' mod Zpos my).
  pose proof (Z.div_mod m' (Zpos my) ltac:(lia)) as Edm. fold q rem in Edm.
  pose proof (Z.mod_pos_bound m' (Zpos my) ltac:(lia)) as Brem. fold rem in Brem.
  pose proof (pow2_pos s Hs) as Ps.
  pose proof (pow2_pos (ey + 1074) ltac:(lia)) as Py.
  pose proof (pow2_pos (e' + 1074) ltac:(lia)) as Pe'.
  (* the scaled exact quotient is [m' * 2^(e' + 1074) / my] *)
  assert (Escale : m' * 2 ^ (e' + 1074) * 2 ^ (ey + 1074)
                   = SFval (S754_finite false mx ex) * 2 ^ 1074).
  { cbn [SFval cond_Zopp]. rewrite Em'.
    assert (P : 2 ^ s * 2 ^ (e' + 1074) * 2 ^ (ey + 1074) = 2 ^ (ex + 1074) * 2 ^ 1074).
    { rewrite <- !pow2_split by lia. f_equal. unfold s. lia. }
    rewrite <- !Z.mul_assoc. rewrite <- P. ring. }
  assert (Ey : SFval (S754_finite false my ey) = Zpos my * 2 ^ (ey + 1074)) by reflexivity.
  (* the quotient is positive *)
  assert (Hq : 0 < q).
  { apply Z.div_str_pos. split; [lia|].
    destruct (Z_le_gt_dec (-1074) (d1 + ex - (d2 + ey) - 53)) as [C | C].
    - assert (d2 - d1 + 53 <= s) by (unfold s, e'; lia).
      assert (2 ^ (d2 + 52) <= m').
      { rewrite Em'. replace (d2 + 52) with ((d1 - 1) + (d2 - d1 + 53)) by lia.
        rewrite pow2_split by lia.
        assert (2 ^ (d2 - d1 + 53) <= 2 ^ s) by (apply Z.pow_le_mono_r; lia).
        pose proof (pow2_pos (d1 - 1) ltac:(lia)). pose proof (pow2_pos (d2 - d1 + 53) ltac:(lia)).
        nia. }
      assert (2 ^ d2 <= 2 ^ (d2 + 52)) by (apply Z.pow_le_mono_r; lia). lia.
    - rewrite Ey, <- Escale in Hmin.
      assert (Ee : e' = -1074) by (unfold e'; lia). rewrite Ee in Hmin.
      change (2 ^ (-1074 + 1074)) with 1 in Hmin. nia. }
  (* the quotient has enough digits *)
  assert (Hn : e' <= fexp prec emax (Zdigits2 q + e')).
  { rewrite fexp64.
    destruct (Z_le_gt_dec (-1074) (d1 + ex - (d2 + ey) - 53)) as [C | C]; [ | unfold e'; lia].
    assert (Hd : d1 + s - d2 <= Zdigits2 q).
    { destruct (Zdigits2_bounds q Hq) as (_ & _ & Uq).
      destruct (Z_le_gt_dec (d1 + s - d2) (Zdigits2 q)) as [L | G]; [exact L | exfalso].
      assert (2 ^ Zdigits2 q <= 2 ^ (d1 + s - d2 - 1)) by (apply Z.pow_le_mono_r; lia).
      assert (0 <= d1 + s - d2 - 1) by (destruct (Zdigits2_bounds q Hq); lia).
      assert (2 ^ (d1 - 1 + s) = 2 ^ (d1 + s - d2 - 1) * 2 ^ d2).
      { rewrite <- pow2_split by lia. f_equal. lia. }
      assert (2 ^ (d1 - 1 + s) <= m').
      { rewrite Em', (pow2_split (d1 - 1) s) by lia. nia. }
      pose proof (pow2_pos d2 ltac:(lia)).
      assert (q + 1 <= 2 ^ (d1 + s - d2 - 1)) by lia.
      assert (m' < (q + 1) * Zpos my) by lia.
      assert ((q + 1) * Zpos my < 2 ^ (d1 + s - d2 - 1) * 2 ^ d2) by nia.
      lia. }
    unfold e', s in *. lia. }
  assert (Hloc : m' * 2 ^ (e' + 1074) = q * 2 ^ (e' + 1074) * Zpos my ->
                 new_location (Zpos my) rem = loc_Exact).
  { intros E. assert (rem = 0) by nia. subst rem. rewrite H. apply new_location_zero. }
  destruct (binary_round_aux_enclosed q e' (new_location (Zpos my) rem)
              (m' * 2 ^ (e' + 1074)) (Zpos my) Hq He' Hn ltac:(lia) ltac:(nia) Hloc)
    as (Nan & Pos & S).
  cbn zeta in *. split; [exact Nan|]. split; [exact Pos|].
  intros f Hv Hf. destruct (S f Hv Hf) as [S1 S2]. rewrite <- Escale, Ey.
  split; intros H; [apply S1 | apply S2];
    apply Z.mul_le_mono_pos_r with (2 ^ (ey + 1074)); try exact Py; lia.
Qed.

(** The product of two positive finite binary64 values, when it is not
    below the least positive one: correctly enclosed. *)
Lemma SFmul_enclosed (mx my : positive) (ex ey : Z) :
  let x := S754_finite false mx ex in
  let y := S754_finite false my ey in
  valid_binary x = true -> valid_binary y = true ->
  -1074 <= ex + ey ->
  let r := SF64mul x y in
  SFis_nan r = false /\ 0 < SFval r /\
  forall f, valid_binary f = true -> SFis_finite f = true ->
    (SFval f * 2 ^ 1074 <= SFval x * SFval y -> SFval f <= SFval r) /\
    (SFval x * SFval y <= SFval f * 2 ^ 1074 -> SFval r <= SFval f).
Proof.
  cbn zeta. intros Vx Vy Hexy.
  destruct (valid_finite _ _ _ Vx) as (Hex & Hdx & Nx).
  destruct (valid_finite _ _ _ Vy) as (Hey & Hdy & Ny).
  unfold SF64mul. cbn [SFmul xorb].
  pose proof (digits2_pos_bounds mx) as [Lx Ux]. pose proof (digits2_pos_bounds my) as [Ly Uy].
  set (d1 := Zpos (digits2_pos mx)) in *. set (d2 := Zpos (digits2_pos my)) in *.
  assert (Hd1 : 1 <= d1) by (unfold d1; lia). assert (Hd2 : 1 <= d2) by (unfold d2; lia).
  assert (Hd : 53 <= Zdigits2 (Zpos (mx * my))).
  { destruct (Zdigits2_bounds (Zpos (mx * my)) ltac:(lia)) as (_ & _ & Um).
    set (D := Zdigits2 (Zpos (mx * my))) in *.
    destruct (Z_le_gt_dec 53 D) as [L | G]; [exact L | exfalso].
    assert (2 ^ D <= 2 ^ 52) by (apply Z.pow_le_mono_r; lia).
    assert (53 <= d1 + d2 - 1) by lia.
    assert (2 ^ 52 <= 2 ^ (d1 - 1 + (d2 - 1))) by (apply Z.pow_le_mono_r; lia).
    rewrite pow2_split in H1 by lia. rewrite Pos2Z.inj_mul in Um.
    pose proof (pow2_pos (d1 - 1) ltac:(lia)). pose proof (pow2_pos (d2 - 1) ltac:(lia)).
    assert (2 ^ (d1 - 1) * 2 ^ (d2 - 1) <= Zpos mx * Zpos my) by nia. lia. }
  assert (Hn : ex + ey <= fexp prec emax (Zdigits2 (Zpos (mx * my)) + (ex + ey))).
  { rewrite fexp64. lia. }
  destruct (binary_round_aux_sandwich (Zpos (mx * my)) (ex + ey) ltac:(lia) Hexy Hn)
    as (Nan & Pos & _ & S).
  cbn zeta in *. split; [exact Nan|]. split; [exact Pos|].
  assert (E : SFval (S754_finite false mx ex) * SFval (S754_finite false my ey)
              = Zpos (mx * my) * 2 ^ (ex + ey + 1074) * 2 ^ 1074).
  { cbn [SFval cond_Zopp]. rewrite Pos2Z.inj_mul.
    assert (P : 2 ^ (ex + 1074) * 2 ^ (ey + 1074) = 2 ^ (ex + ey + 1074) * 2 ^ 1074).
    { rewrite <- !pow2_split by lia. f_equal. lia. }
    rewrite <- !Z.mul_assoc, <- P. ring. }
  pose proof (pow2_pos 1074 ltac:(lia)) as P1.
  intros f Hv Hf. destruct (S f Hv Hf) as [S1 S2]. rewrite E.
  split; intros H; [apply S1 | apply S2];
    apply Z.mul_le_mono_pos_r with (2 ^ 1074); try exact P1; lia.
Qed.

End RatioFacts.

Section CountRatios.
Local Open Scope float_scope.

(** A number other than [NaN] whose value is within the finite ones is
    finite. *)
Lemma finite_by_value (x : float) :
  JS.isNaN x = false -> (- finite_bound < Fval x < finite_bound)%Z ->
  JS.Number_isFinite x = true.
Proof.
  rewrite isNaN_spec, isFinite_spec. unfold Fval. pose proof bounds_order.
  destruct (Prim2SF x) as [s | s | | s m e]; cbn [SFis_nan SFis_finite SFval];
    try reflexivity; try discriminate.
  destruct s; cbn [cond_Zopp]; lia.
Qed.

(** The quotient of two counts below 2^53: correctly rounded, so it keeps
    to the side of every finite number that the exact quotient is on. *)
Lemma count_ratio (a b : nat) :
  (0 < Z.of_nat b < 2 ^ 53)%Z -> (Z.of_nat a < 2 ^ 53)%Z ->
  let r := JS.Number_of_nat a / JS.Number_of_nat b in
  JS.isNaN r = false /\ JS.Number_isFinite r = true /\
  (a = 0%nat -> r = 0) /\ ((0 < a)%nat -> (2 ^ 1021 <= Fval r)%Z) /\
  forall f, JS.Number_isFinite f = true ->
    ((Fval f * Z.of_nat b <= Z.of_nat a * 2 ^ 1074)%Z -> (Fval f <= Fval r)%Z) /\
    ((Z.of_nat a * 2 ^ 1074 <= Fval f * Z.of_nat b)%Z -> (Fval r <= Fval f)%Z).
Proof.
  intros Hb Ha. cbn zeta.
  destruct (Number_of_nat_spec b Hb) as (my & ey & Ey & Vy & Hey & Emy & Bmy).
  pose proof (pow2_pos 1074 ltac:(lia)) as P.
  destruct a as [ | a'].
  - assert (E0 : JS.Number_of_nat 0 / JS.Number_of_nat b = 0).
    { apply Prim2SF_inj. rewrite FloatAxioms.div_spec, Ey. reflexivity. }
    rewrite E0. repeat split; try lia; try reflexivity.
    + intros Hf0. change (Fval 0) with 0%Z. change (Z.of_nat 0) with 0%Z in Hf0. nia.
    + intros Hf0. change (Fval 0) with 0%Z. change (Z.of_nat 0) with 0%Z in Hf0. nia.
  - destruct (Number_of_nat_spec (S a') ltac:(lia)) as (mx & ex & Ex & Vx & Hex & Emx & Bmx).
    pose proof (Number_of_nat_val (S a') Ha) as (_ & _ & Vax).
    pose proof (Number_of_nat_val b ltac:(lia)) as (_ & _ & Vby).
    unfold Fval in Vax, Vby. rewrite Ex in Vax. rewrite Ey in Vby.
    assert (Hmin : (SFval (S754_finite false my ey)
                    <= SFval (S754_finite false mx ex) * 2 ^ 1074)%Z).
    { rewrite Vax, Vby. nia. }
    destruct (SFdiv_enclosed mx my ex ey Vx Vy ltac:(lia) Hmin) as (Nan & Pos & Sw).
    cbn zeta in Sw. rewrite <- Ex, <- Ey, <- FloatAxioms.div_spec in Nan, Pos, Sw.
    set (r := JS.Number_of_nat (S a') / JS.Number_of_nat b) in *.
    fold (Fval r) in Pos, Sw. rewrite <- isNaN_spec in Nan.
    assert (S' : forall f, JS.Number_isFinite f = true ->
              ((Fval f * Z.of_nat b <= Z.of_nat (S a') * 2 ^ 1074)%Z -> (Fval f <= Fval r)%Z) /\
              ((Z.of_nat (S a') * 2 ^ 1074 <= Fval f * Z.of_nat b)%Z -> (Fval r <= Fval f)%Z)).
    { intros f Hf. rewrite isFinite_spec in Hf.
      destruct (Sw (Prim2SF f) (Prim2SF_valid f) Hf) as [S1 S2].
      rewrite Ex, Ey, Vax, Vby in S1, S2. fold (Fval f) in S1, S2.
      split; intros H; [apply S1 | apply S2]; nia. }
    assert (Lo : (2 ^ 1021 <= Fval r)%Z).
    { destruct (S' 0x1p-53 eq_refl) as [L _].
      change (Fval 0x1p-53) with (2 ^ 1021)%Z in L. apply L.
      change (2 ^ 1074)%Z with (2 ^ 1021 * 2 ^ 53)%Z. nia. }
    assert (Hi : (Fval r <= 2 ^ 1127)%Z).
    { destruct (S' 9007199254740992 eq_refl) as [_ U].
      change (Fval 9007199254740992) with (2 ^ 1127)%Z in U. apply U.
      change (2 ^ 1127)%Z with (2 ^ 53 * 2 ^ 1074)%Z. nia. }
    split; [exact Nan|]. split; [ | split; [discriminate | split; [intros _; exact Lo | exact S']]].
    apply finite_by_value; [exact Nan|].
    assert (2 ^ 1127 < finite_bound)%Z by (apply Z.pow_lt_mono_r; lia).
    pose proof (pow2_pos 1021 ltac:(lia)). lia.
Qed.

(** The percentage [a / b * 100] of two counts: both roundings keep it on
    the side of [g] when the quotient is on the side of [t] and [t * 100]
    on the side of [g]. *)
Lemma count_percent (a b : nat) :
  (0 < Z.of_nat b < 2 ^ 53)%Z -> (Z.of_nat a < 2 ^ 53)%Z ->
  let p := JS.Number_of_nat a / JS.Number_of_nat b * 100 in
  JS.isNaN p = false /\ (a = 0%nat -> p = 0) /\ ((0 < a)%nat -> (0 < Fval p)%Z) /\
  forall t g, JS.Number_isFinite t = true -> JS.Number_isFinite g = true ->
    ((Z.of_nat a * 2 ^ 1074 <= Fval t * Z.of_nat b)%Z -> (Fval t * 100 <= Fval g)%Z ->
     (Fval p <= Fval g)%Z) /\
    ((Fval t * Z.of_nat b <= Z.of_nat a * 2 ^ 1074)%Z -> (Fval g <= Fval t * 100)%Z ->
     (Fval g <= Fval p)%Z).
Proof.
  intros Hb Ha. cbn zeta.
  destruct (count_ratio a b Hb Ha) as (Nr & Fr & Zr & Lr & Sr). cbn zeta in *.
  pose proof (pow2_pos 1074 ltac:(lia)) as P.
  destruct a as [ | a'].
  - rewrite (Zr eq_refl). change (0 * 100) with 0.
    split; [reflexivity|]. split; [reflexivity|]. split; [lia|].
    intros t g _ _. change (Fval 0) with 0%Z. change (Z.of_nat 0) with 0%Z. split; intros; nia.
  - set (r := JS.Number_of_nat (S a') / JS.Number_of_nat b) in *.
    specialize (Lr ltac:(lia)).
    pose proof (Prim2SF_valid r) as Vr. rewrite isFinite_spec in Fr. unfold Fval in Lr.
    pose proof (pow2_pos 1021 ltac:(lia)) as P1.
    destruct (Prim2SF r) as [s | s | | s m e] eqn:Er; try discriminate;
      [cbn [SFval] in Lr; lia|].
    assert (s = false) by (destruct s; [cbn [SFval cond_Zopp] in Lr; lia | reflexivity]). subst s.
    destruct (valid_finite _ _ _ Vr) as (He & Hd & _).
    pose proof (digits2_pos_bounds m) as [_ Um].
    assert (Hm : (Zpos m < 2 ^ 53)%Z).
    { eapply Z.lt_le_trans; [exact Um|]. apply Z.pow_le_mono_r; lia. }
    assert (Hlow : (-106 < e)%Z).
    { cbn [SFval cond_Zopp] in Lr.
      destruct (Z_lt_le_dec (-106) e) as [C | C]; [exact C | exfalso].
      assert (2 ^ (e + 1074) <= 2 ^ 968)%Z by (apply Z.pow_le_mono_r; lia).
      change (2 ^ 1021)%Z with (2 ^ 53 * 2 ^ 968)%Z in Lr.
      pose proof (pow2_pos 968 ltac:(lia)). pose proof (pow2_pos (e + 1074) ltac:(lia)).
      nia. }
    pose proof (SFmul_enclosed m 7036874417766400 e (-46) Vr eq_refl ltac:(lia)) as M.
    cbn zeta in M. rewrite <- Er in M.
    change (S754_finite false 7036874417766400 (-46)) with (Prim2SF 100) in M.
    rewrite <- FloatAxioms.mul_spec in M. destruct M as (Np & Pp & Sp).
    fold (Fval (r * 100)) (Fval r) in Pp, Sp. rewrite <- isNaN_spec in Np.
    change (SFval (Prim2SF 100)) with (100 * 2 ^ 1074)%Z in Sp.
    split; [exact Np|]. split; [discriminate|]. split; [intros _; exact Pp|].
    intros t g Ft Fg. destruct (Sr t Ft) as [R1 R2].
    rewrite isFinite_spec in Fg. destruct (Sp (Prim2SF g) (Prim2SF_valid g) Fg) as [M1 M2].
    fold (Fval g) in M1, M2.
    split; intros H1 H2.
    + apply M2. specialize (R2 H1). nia.
    + apply M1. specialize (R1 H1). nia.
Qed.

End CountRatios.
(** ** detectTrends: the two percentages *)

Section TrendPercentages.
Local Open Scope float_scope.

Lemma consecutive_length (values : list float) :
  List.length (consecutive values) = (List.length values - 1)%nat.
Proof.
  unfold consecutive. rewrite length_combine. destruct values as [ | v rest]; cbn [tl List.length]; lia.
Qed.

(** A change is an increase or a decrease, not both, and there is one
    change less than values at most. *)
Lemma changes_bound (values : list float) :
  (strictIncreases values + strictDecreases values <= List.length values - 1)%nat.
Proof.
  unfold strictIncreases, strictDecreases. rewrite <- consecutive_length.
  apply filter_disjoint_length. intros p _ H. apply fltb_asym. exact H.
Qed.

Lemma numericColumn_length (data : list DataItem) (column : string) :
  (List.length (numericColumn data column) <= List.length data)%nat.
Proof.
  unfold numericColumn. etransitivity; [apply filter_length_le|]. rewrite length_map. lia.
Qed.

(** What [detectTrends] returns, in terms of the two percentages. *)
Lemma detectTrends_unfold (data : list DataItem) (column : string) :
  let values := numericColumn data column in
  (5 <= List.length values)%nat ->
  (1 <= strictIncreases values + strictDecreases values)%nat ->
  detectTrends data column =
  if 60 <? increasePercent values then Some (upward (increasePercent values) (growthRate values))
  else if 60 <? decreasePercent values
       then Some (downward (decreasePercent values) (declineRate values))
       else Some (fluctuating (increasePercent values) (decreasePercent values)).
Proof.
  cbn zeta. intros H5 H1. unfold detectTrends.
  pose proof (numericColumn_length data column) as L.
  destruct (Nat.ltb_spec (List.length data) 5); [lia|].
  destruct (Nat.ltb_spec (List.length (numericColumn data column)) 5); [lia|].
  rewrite changesOf_spec.
  destruct (Nat.eqb_spec (strictIncreases (numericColumn data column)
                          + strictDecreases (numericColumn data column)) 0); [lia|].
  reflexivity.
Qed.

Lemma percent_at_most_half (a b : nat) :
  (0 < Z.of_nat b < 2 ^ 53)%Z -> (2 * a <= b)%nat ->
  (60 <? JS.Number_of_nat a / JS.Number_of_nat b * 100) = false.
Proof.
  intros Hb Hab. destruct (count_percent a b Hb ltac:(lia)) as (Np & _ & _ & Sp). cbn zeta in *.
  destruct (Sp 0.5 50 eq_refl eq_refl) as [U _].
  change (Fval 0.5) with (2 ^ 1073)%Z in U. change (Fval 50) with (50 * 2 ^ 1074)%Z in U.
  change (2 ^ 1074)%Z with (2 * 2 ^ 1073)%Z in U.
  pose proof (pow2_pos 1073 ltac:(lia)) as P.
  specialize (U ltac:(nia) ltac:(lia)).
  rewrite (ltb_val 60 _ eq_refl Np). change (Fval 60) with (60 * (2 * 2 ^ 1073))%Z.
  apply Z.ltb_ge. lia.
Qed.

Lemma percent_in_range (a b : nat) :
  (0 < Z.of_nat b < 2 ^ 53)%Z -> (a <= b)%nat ->
  let p := JS.Number_of_nat a / JS.Number_of_nat b * 100 in
  (0 <=? p) = true /\ (p <=? 100) = true /\ ((0 < a)%nat -> (0 <? p) = true).
Proof.
  intros Hb Hab. destruct (count_percent a b Hb ltac:(lia)) as (Np & _ & Pp & Sp). cbn zeta in *.
  pose proof (pow2_pos 1074 ltac:(lia)) as P.
  destruct (Sp 1 100 eq_refl eq_refl) as [U _].
  change (Fval 1) with (2 ^ 1074)%Z in U. change (Fval 100) with (100 * 2 ^ 1074)%Z in U.
  specialize (U ltac:(nia) ltac:(lia)).
  destruct (Sp 0 0 eq_refl eq_refl) as [_ L]. change (Fval 0) with 0%Z in L.
  specialize (L ltac:(lia) ltac:(lia)).
  rewrite (leb_val 0 _ eq_refl Np), (leb_val _ 100 Np eq_refl), (ltb_val 0 _ eq_refl Np).
  change (Fval 0) with 0%Z. change (Fval 100) with (100 * 2 ^ 1074)%Z.
  split; [apply Z.leb_le; exact L|]. split; [apply Z.leb_le; exact U|].
  intros Ha. apply Z.ltb_lt. apply Pp. exact Ha.
Qed.

Lemma percent_of_all (a : nat) :
  (0 < Z.of_nat a < 2 ^ 53)%Z -> JS.Number_of_nat a / JS.Number_of_nat a * 100 = 100.
Proof.
  intros Ha. destruct (count_percent a a Ha ltac:(lia)) as (Np & _ & _ & Sp). cbn zeta in *.
  destruct (Sp 1 100 eq_refl eq_refl) as [U L].
  change (Fval 1) with (2 ^ 1074)%Z in U, L. change (Fval 100) with (100 * 2 ^ 1074)%Z in U, L.
  specialize (U ltac:(lia) ltac:(lia)). specialize (L ltac:(lia) ltac:(lia)).
  assert (E : (JS.Number_of_nat a / JS.Number_of_nat a * 100 =? 100) = true).
  { rewrite (eqb_val _ 100 Np eq_refl). change (Fval 100) with (100 * 2 ^ 1074)%Z.
    apply Z.eqb_eq. lia. }
  destruct (eqb_identical _ _ E) as [-> | [_ [Z | Z]]]; [reflexivity | discriminate | discriminate].
Qed.

Lemma percent_of_none (b : nat) :
  (0 < Z.of_nat b < 2 ^ 53)%Z -> JS.Number_of_nat 0 / JS.Number_of_nat b * 100 = 0.
Proof.
  intros Hb. destruct (count_percent 0 b Hb ltac:(lia)) as (_ & Zp & _). cbn zeta in *.
  apply Zp. reflexivity.
Qed.

(** The two percentages lie between 0 and 100 and cannot both exceed 60:
    the test for an upward trend, which comes first, never hides a
    downward one.  So the result is downward exactly when more than 60% of
    the changes are decreases. *)
Theorem detectTrends_percentages (data : list DataItem) (column : string) :
  let values := numericColumn data column in
  (Z.of_nat (List.length data) < 2 ^ 53)%Z ->
  (5 <= List.length values)%nat ->
  (1 <= strictIncreases values + strictDecreases values)%nat ->
  ((0 <=? increasePercent values) = true /\ (increasePercent values <=? 100) = true) /\
  ((0 <=? decreasePercent values) = true /\ (decreasePercent values <=? 100) = true) /\
  ((60 <? increasePercent values) && (60 <? decreasePercent values))%bool = false /\
  ((60 <? decreasePercent values) = true <->
   detectTrends data column = Some (downward (decreasePercent values) (declineRate values))).
Proof.
  cbn zeta. intros Hlen H5 H1. set (values := numericColumn data column) in *.
  pose proof (changes_bound values) as Hc.
  pose proof (numericColumn_length data column) as Hl. fold values in Hl.
  set (i := strictIncreases values) in *. set (d := strictDecreases values) in *.
  assert (Hb : (0 < Z.of_nat (i + d) < 2 ^ 53)%Z) by lia.
  destruct (percent_in_range i (i + d) Hb ltac:(lia)) as (I0 & I100 & _).
  destruct (percent_in_range d (i + d) Hb ltac:(lia)) as (D0 & D100 & _).
  cbn zeta in *. fold i d in I0, I100, D0, D100.
  assert (X : ((60 <? increasePercent values) && (60 <? decreasePercent values))%bool = false).
  { unfold increasePercent, decreasePercent. cbn zeta. fold i d.
    destruct (Nat.le_gt_cases (2 * i) (i + d)) as [C | C].
    - rewrite (percent_at_most_half i (i + d) Hb C). reflexivity.
    - rewrite (percent_at_most_half d (i + d) Hb ltac:(lia)). apply andb_false_r. }
  split; [split; assumption|]. split; [split; assumption|]. split; [exact X|].
  rewrite (detectTrends_unfold data column H5 H1). fold values.
  destruct (60 <? increasePercent values) eqn:Ei; destruct (60 <? decreasePercent values) eqn:Ed;
    cbn [andb] in X; try discriminate; split; intros H; try reflexivity; discriminate.
Qed.

End TrendPercentages.
(** ** Monotone columns, and the share of missing rows *)

Section MoreRatios.
Local Open Scope float_scope.

Lemma filter_all {A : Type} (f : A -> bool) (l : list A) :
  (forall x, In x l -> f x = true) -> filter f l = l.
Proof.
  induction l as [ | x t IH]; intros H; cbn [filter]; [reflexivity|].
  rewrite (H x (or_introl eq_refl)), IH; [reflexivity|]. intros y Hy. apply H. right. exact Hy.
Qed.

Lemma filter_none {A : Type} (f : A -> bool) (l : list A) :
  (forall x, In x l -> f x = false) -> filter f l = [].
Proof.
  induction l as [ | x t IH]; intros H; cbn [filter]; [reflexivity|].
  rewrite (H x (or_introl eq_refl)). apply IH. intros y Hy. apply H. right. exact Hy.
Qed.

(** A column whose values strictly increase from row to row has an upward
    trend with a consistency of exactly 100, and one whose values strictly
    decrease a downward trend with a consistency of exactly 100. *)
Theorem detectTrends_monotone (data : list DataItem) (column : string) :
  let values := numericColumn data column in
  (Z.of_nat (List.length data) < 2 ^ 53)%Z ->
  (5 <= List.length values)%nat ->
  ((forall p, In p (consecutive values) -> (fst p <? snd p) = true) ->
   detectTrends data column = Some (upward 100 (growthRate values))) /\
  ((forall p, In p (consecutive values) -> (snd p <? fst p) = true) ->
   detectTrends data column = Some (downward 100 (declineRate values))).
Proof.
  cbn zeta. intros Hlen H5. set (values := numericColumn data column) in *.
  pose proof (numericColumn_length data column) as Hl. fold values in Hl.
  pose proof (consecutive_length values) as Lc.
  assert (Hb : (0 < Z.of_nat (List.length values - 1) < 2 ^ 53)%Z) by lia.
  split; intros H.
  - assert (Ei : strictIncreases values = (List.length values - 1)%nat).
    { unfold strictIncreases. rewrite filter_all; [exact Lc | exact H]. }
    assert (Ed : strictDecreases values = 0%nat).
    { unfold strictDecreases. rewrite filter_none; [reflexivity|].
      intros p Hp. apply fltb_asym. apply H. exact Hp. }
    rewrite (detectTrends_unfold data column H5); fold values; [ | lia].
    unfold increasePercent. cbn zeta. rewrite Ei, Ed, Nat.add_0_r.
    rewrite (percent_of_all _ Hb). reflexivity.
  - assert (Ed : strictDecreases values = (List.length values - 1)%nat).
    { unfold strictDecreases. rewrite filter_all; [exact Lc | exact H]. }
    assert (Ei : strictIncreases values = 0%nat).
    { unfold strictIncreases. rewrite filter_none; [reflexivity|].
      intros p Hp. apply fltb_asym. apply H. exact Hp. }
    rewrite (detectTrends_unfold data column H5); fold values; [ | lia].
    unfold increasePercent, decreasePercent. cbn zeta. rewrite Ei, Ed, Nat.add_0_l.
    rewrite (percent_of_none _ Hb), (percent_of_all _ Hb). reflexivity.
Qed.


(** A share of the rows is above 0.2, in binary64, exactly when it is
    above a fifth. *)
Lemma fraction_above_fifth (n rows : nat) :
  (0 < Z.of_nat rows < 2 ^ 32)%Z -> (n <= rows)%nat ->
  (0.2 <? JS.Number_of_nat n / JS.Number_of_nat rows) = (rows <? 5 * n)%nat.
Proof.
  intros Hr Hn.
  destruct (count_ratio n rows ltac:(lia) ltac:(lia)) as (Nr & _ & _ & _ & Sr). cbn zeta in *.
  pose proof (pow2_pos 1019 ltac:(lia)) as P.
  rewrite (ltb_val 0.2 _ eq_refl Nr).
  change (Fval 0.2) with (7205759403792794 * 2 ^ 1019)%Z.
  destruct (Nat.ltb_spec rows (5 * n)) as [C | C].
  - destruct (Sr 0x1.999999999999bp-3 eq_refl) as [L _].
    change (Fval 0x1.999999999999bp-3) with (7205759403792795 * 2 ^ 1019)%Z in L.
    change (2 ^ 1074)%Z with (36028797018963968 * 2 ^ 1019)%Z in L.
    assert (7205759403792795 * Z.of_nat rows <= 36028797018963968 * Z.of_nat n)%Z by lia.
    specialize (L ltac:(nia)). apply Z.ltb_lt. lia.
  - destruct (Sr 0.2 eq_refl) as [_ U].
    change (Fval 0.2) with (7205759403792794 * 2 ^ 1019)%Z in U.
    change (2 ^ 1074)%Z with (36028797018963968 * 2 ^ 1019)%Z in U.
    assert (36028797018963968 * Z.of_nat n <= 7205759403792794 * Z.of_nat rows)%Z by lia.
    specialize (U ltac:(nia)). apply Z.ltb_ge. lia.
Qed.

(** The impact of the missing data is called significant exactly when
    some column misses more than a fifth of the rows; at a fifth itself it
    is minimal. *)
Theorem impact_significant_iff (data : list DataItem) :
  (Z.of_nat (List.length data) < 2 ^ 32)%Z ->
  (impactIsSignificant data = true <->
   exists column n, In (column, n) (findMissingData data) /\ (List.length data < 5 * n)%nat) /\
  (findMissingData data <> [] ->
   exists details advice,
     missingDataInsight data (Object_keys (firstRow data)) []
     = [("Data quality analysis: Missing or incomplete data detected in columns: "
         ++ details ++ ". The impact on analysis is likely "
         ++ (if impactIsSignificant data then "significant" else "minimal")
         ++ ". " ++ advice)%string]).
Proof.
  intros Hlen.
  assert (B : forall column n, In (column, n) (findMissingData data) ->
              (1 <= n <= List.length data)%nat).
  { intros column n H. unfold findMissingData in H. apply filter_In in H.
    destruct H as [H P]. cbn [snd] in P.
    apply in_map_iff in H. destruct H as (c & E & _). injection E as _ <-.
    apply Nat.ltb_lt in P. split; [lia|]. unfold missingCount. apply filter_length_le. }
  split.
  - unfold impactIsSignificant. rewrite existsb_exists. split.
    + intros ([column n] & Hin & H). cbn [snd] in H. exists column, n. split; [exact Hin|].
      pose proof (B column n Hin) as Hn. unfold fractionOf in H.
      rewrite (fraction_above_fifth n (List.length data) ltac:(lia) ltac:(lia)) in H.
      apply Nat.ltb_lt in H. exact H.
    + intros (column & n & Hin & H). exists (column, n). split; [exact Hin|]. cbn [snd].
      pose proof (B column n Hin) as Hn. unfold fractionOf.
      rewrite (fraction_above_fifth n (List.length data) ltac:(lia) ltac:(lia)).
      apply Nat.ltb_lt. exact H.
  - intros Hne. unfold missingDataInsight, impactIsSignificant, push.
    destruct (findMissingData data) as [ | entry rest]; [contradiction|].
    cbn [app]. eexists. eexists. reflexivity.
Qed.

End MoreRatios.
(** ** detectSeasonality: the confidence *)

Section SeasonalityConfidence.
Local Open Scope float_scope.

Lemma patternMatches_bound (directions : list Direction) (p : nat) :
  (patternMatches directions p <= List.length directions - p * 2 + 1)%nat.
Proof.
  unfold patternMatches. etransitivity; [apply filter_length_le|]. rewrite length_seq. lia.
Qed.

(** Inside the loop the number of occurrences is at least 2, so the
    confidence is a quotient of two counts, the second at least 1. *)
Lemma confidenceOf_ratio (directions : list Direction) (p : nat) :
  (1 <= p)%nat -> (p * 2 <= List.length directions)%nat ->
  (1 <= List.length directions / p - 1)%nat /\
  confidenceOf directions p
  = JS.Number_of_nat (patternMatches directions p)
    / JS.Number_of_nat (List.length directions / p - 1).
Proof.
  intros Hp Hd.
  assert (H2 : (2 <= List.length directions / p)%nat).
  { apply Nat.div_le_lower_bound; lia. }
  split; [lia|]. unfold confidenceOf, JS.Number_of_nat. cbn zeta.
  rewrite (Nat2Z.inj_sub _ 1) by lia. reflexivity.
Qed.

(** What the confidence of a period is between: 0 and the period. *)
Lemma confidenceOf_range (directions : list Direction) (p : nat) :
  (1 <= p)%nat -> (p * 2 <= List.length directions)%nat ->
  (Z.of_nat (List.length directions) < 2 ^ 53)%Z ->
  let c := confidenceOf directions p in
  JS.isNaN c = false /\ JS.Number_isFinite c = true /\
  (0 <=? c) = true /\ (c <=? JS.Number_of_nat p) = true.
Proof.
  intros Hp Hd Hlen. cbn zeta.
  destruct (confidenceOf_ratio directions p Hp Hd) as [Hb ->].
  set (d := List.length directions) in *.
  pose proof (patternMatches_bound directions p) as Hm. fold d in Hm.
  set (a := patternMatches directions p) in *. set (b := (d / p - 1)%nat) in *.
  assert (Hbd : (d / p <= d)%nat) by (apply Nat.Div0.div_le_upper_bound; nia).
  assert (Hab : (a <= p * b)%nat).
  { pose proof (Nat.div_mod_eq d p). pose proof (Nat.mod_upper_bound d p ltac:(lia)).
    unfold b. nia. }
  destruct (count_ratio a b ltac:(lia) ltac:(lia)) as (Nr & Fr & _ & _ & Sr). cbn zeta in *.
  destruct (Number_of_nat_val p ltac:(lia)) as (Np & Fp & Vp).
  pose proof (pow2_pos 1074 ltac:(lia)) as P.
  split; [exact Nr|]. split; [exact Fr|].
  rewrite (leb_val 0 _ eq_refl Nr), (leb_val _ _ Nr Np). change (Fval 0) with 0%Z.
  split; apply Z.leb_le.
  - destruct (Sr 0 eq_refl) as [L _]. change (Fval 0) with 0%Z in L. apply L. lia.
  - destruct (Sr (JS.Number_of_nat p) Fp) as [_ U]. apply U. rewrite Vp. nia.
Qed.

(** What a result of [detectSeasonality] is made of. *)
Lemma detectSeasonality_Some (data : list DataItem) (column : string)
  (result : SeasonalityResult) :
  detectSeasonality data column = Some result ->
  let directions := directionsOf (numericColumn data column) in
  (10 <= List.length (numericColumn data column))%nat /\
  In (patternLength result) [2; 3; 4]%nat /\
  confidence result = confidenceOf directions (patternLength result).
Proof.
  unfold detectSeasonality. intros H. cbn zeta.
  destruct (Nat.ltb_spec (List.length data) 10) as [ | _]; [discriminate|].
  set (values := numericColumn data column) in *.
  destruct (Nat.ltb_spec (List.length values) 10) as [ | Hv]; [discriminate|].
  set (directions := directionsOf values) in *.
  assert (Hlen : forall p, In p [2; 3; 4]%nat -> (List.length directions <? p * 2)%nat = false).
  { intros p Hp. apply Nat.ltb_ge. unfold directions. rewrite directionsOf_length.
    cbn [In] in Hp. lia. }
  assert (Hs : StronglySorted le [2; 3; 4]%nat) by (repeat constructor; lia).
  destruct (seasonality_fold directions [2; 3; 4]%nat (0%nat, 0) Hlen Hs eq_refl)
    as (_ & _ & _ & Hcase).
  cbn zeta in Hcase. fold (bestPattern directions) in Hcase.
  destruct (bestPattern directions) as [maxPatternLength patternConfidence] eqn:Eb.
  destruct (0.3 <? patternConfidence) eqn:Hconf; [ | discriminate].
  injection H as <-. cbn [patternLength confidence fst snd] in *.
  split; [exact Hv|].
  destruct Hcase as [E | (_ & Hin & Hc & _)].
  - injection E as _ E. rewrite E in Hconf. discriminate.
  - split; [exact Hin | exact Hc].
Qed.

(** The confidence of a reported pattern is a finite number, never
    [Infinity]: the loop divides by one less than a number of occurrences
    that is at least 2.  It is at most the period, so at most 4, and it
    can exceed 1. *)
Theorem detectSeasonality_confidence_range (data : list DataItem) (column : string)
  (result : SeasonalityResult) :
  detectSeasonality data column = Some result ->
  (Z.of_nat (List.length data) < 2 ^ 53)%Z ->
  JS.Number_isFinite (confidence result) = true /\
  (confidence result <=? JS.Number_of_nat (patternLength result)) = true /\
  (confidence result <=? 4) = true.
Proof.
  intros H Hlen. destruct (detectSeasonality_Some data column result H) as (Hv & Hin & Hc).
  cbn zeta in *. set (values := numericColumn data column) in *.
  pose proof (numericColumn_length data column) as Hl. fold values in Hl.
  pose proof (directionsOf_length values) as Hd.
  assert (Hp : (2 <= patternLength result <= 4)%nat) by (cbn [In] in Hin; lia).
  destruct (confidenceOf_range (directionsOf values) (patternLength result))
    as (Nc & Fc & _ & Uc); try lia.
  cbn zeta in *. rewrite <- Hc in Nc, Fc, Uc.
  split; [exact Fc|]. split; [exact Uc|].
  destruct (Number_of_nat_val (patternLength result) ltac:(lia)) as (Np & _ & Vp).
  rewrite (leb_val _ _ Nc Np) in Uc. apply Z.leb_le in Uc.
  rewrite (leb_val _ 4 Nc eq_refl). apply Z.leb_le.
  change (Fval 4) with (4 * 2 ^ 1074)%Z. pose proof (pow2_pos 1074 ltac:(lia)). nia.
Qed.

Lemma all_the_same {A : Type} (l : list A) (x : A) :
  (forall y, In y l -> y = x) -> l = repeat x (List.length l).
Proof.
  induction l as [ | y t IH]; intros H; cbn [repeat List.length]; [reflexivity|].
  rewrite (H y (or_introl eq_refl)). f_equal. apply IH. intros z Hz. apply H. right. exact Hz.
Qed.

Lemma sameDirection_refl (d : Direction) : sameDirection (Some d) (Some d) = true.
Proof. destruct d; reflexivity. Qed.

(** When all directions are the same every window repeats. *)
Lemma patternMatches_repeat (direction : Direction) (d p : nat) :
  (p * 2 <= d)%nat -> patternMatches (repeat direction d) p = (d - p * 2 + 1)%nat.
Proof.
  intros Hd. unfold patternMatches. rewrite repeat_length.
  rewrite filter_all; [apply length_seq|].
  intros i Hi. apply in_seq in Hi. unfold isMatch. apply forallb_forall.
  intros j Hj. apply in_seq in Hj.
  rewrite !nth_error_repeat by lia. apply sameDirection_refl.
Qed.

(** A column of ten values or more that only rises, only falls or does
    not change at all is reported as cyclical, with a confidence of 1 at
    least: its directions repeat at every period. *)
Theorem detectSeasonality_one_direction (data : list DataItem) (column : string)
  (direction : Direction) :
  let values := numericColumn data column in
  (10 <= List.length values)%nat -> (Z.of_nat (List.length data) < 2 ^ 53)%Z ->
  (forall x, In x (directionsOf values) -> x = direction) ->
  exists result,
    detectSeasonality data column = Some result /\ (1 <=? confidence result) = true.
Proof.
  cbn zeta. intros Hv Hlen Hall. set (values := numericColumn data column) in *.
  pose proof (numericColumn_length data column) as Hl. fold values in Hl.
  pose proof (directionsOf_length values) as Hd.
  pose proof (all_the_same _ _ Hall) as Er.
  set (directions := directionsOf values) in *. set (d := List.length directions) in *.
  assert (Hlen' : forall p, In p [2; 3; 4]%nat -> (d <? p * 2)%nat = false).
  { intros p Hp. apply Nat.ltb_ge. cbn [In] in Hp. lia. }
  assert (Hs : StronglySorted le [2; 3; 4]%nat) by (repeat constructor; lia).
  destruct (seasonality_fold directions [2; 3; 4]%nat (0%nat, 0) Hlen' Hs eq_refl)
    as (Nb & _ & Hno & _).
  cbn zeta in Nb, Hno. fold (bestPattern directions) in Nb, Hno.
  specialize (Hno 2%nat (or_introl eq_refl)).
  destruct (confidenceOf_ratio directions 2 ltac:(lia) ltac:(fold d; lia)) as [Hb Ec].
  fold d in Hb, Ec. rewrite Ec in Hno.
  assert (Em : patternMatches directions 2 = (d - 3)%nat).
  { rewrite Er. fold d. rewrite patternMatches_repeat by lia. lia. }
  rewrite Em in Hno.
  assert (Hh : (d / 2 <= d)%nat) by (apply Nat.Div0.div_le_upper_bound; lia).
  assert (Hq : (d / 2 - 1 <= d - 3)%nat).
  { pose proof (Nat.div_mod_eq d 2). pose proof (Nat.mod_upper_bound d 2 ltac:(lia)). lia. }
  destruct (count_ratio (d - 3) (d / 2 - 1) ltac:(lia) ltac:(lia)) as (Nr & _ & _ & _ & Sr).
  cbn zeta in *.
  destruct (Sr 1 eq_refl) as [L _]. change (Fval 1) with (2 ^ 1074)%Z in L.
  pose proof (pow2_pos 1074 ltac:(lia)) as P. specialize (L ltac:(nia)).
  unfold notNaN in Nb. rewrite (ltb_val _ _ Nb Nr) in Hno. apply Z.ltb_ge in Hno.
  assert (Hbest : (2 ^ 1074 <= Fval (snd (bestPattern directions)))%Z) by lia.
  unfold detectSeasonality.
  destruct (Nat.ltb_spec (List.length data) 10); [lia|].
  fold values. destruct (Nat.ltb_spec (List.length values) 10); [lia|].
  fold directions. destruct (bestPattern directions) as [maxPatternLength patternConfidence].
  cbn [snd] in *.
  assert (C : (0.3 <? patternConfidence) = true).
  { rewrite (ltb_val 0.3 _ eq_refl Nb). apply Z.ltb_lt.
    assert (Fval 0.3 < 2 ^ 1074)%Z by (vm_compute; reflexivity). lia. }
  rewrite C. eexists. split; [reflexivity|]. cbn [confidence].
  rewrite (leb_val 1 _ eq_refl Nb). apply Z.leb_le. exact Hbest.
Qed.

End SeasonalityConfidence.

Section RatioExamples.
Local Open Scope string_scope.
Local Open Scope float_scope.

(** One increase and four decreases: 20% and 80%, a downward trend. *)
Lemma detectTrends_percentages_witness :
  increasePercent [5; 4; 3; 4; 1; 0] = 20 /\ decreasePercent [5; 4; 3; 4; 1; 0] = 80 /\
  detectTrends (columnOf "x" [5; 4; 3; 4; 1; 0]) "x"
  = Some (downward (decreasePercent [5; 4; 3; 4; 1; 0]) (declineRate [5; 4; 3; 4; 1; 0])).
Proof.
  split; [reflexivity|]. split; [reflexivity|].
  destruct (detectTrends_percentages (columnOf "x" [5; 4; 3; 4; 1; 0]) "x")
    as (_ & _ & _ & H).
  - vm_compute. reflexivity.
  - vm_compute. lia.
  - vm_compute. lia.
  - apply H. reflexivity.
Defined.

(** The column [x] of the scenario, 1 to 5: upward, with a consistency of
    100 and a growth rate of 400. *)
Lemma detectTrends_monotone_witness :
  detectTrends scenario "x" = Some (upward 100 400).
Proof.
  destruct (detectTrends_monotone scenario "x") as [H _].
  - vm_compute. reflexivity.
  - vm_compute. lia.
  - apply H. intros p Hp. vm_compute in Hp.
    destruct Hp as [<- | [<- | [<- | [<- | []]]]]; reflexivity.
Defined.


(** One blank cell in two rows is more than a fifth. *)
Lemma impact_significant_iff_witness : impactIsSignificant blankFirst = true.
Proof.
  destruct (impact_significant_iff blankFirst ltac:(vm_compute; reflexivity)) as [[_ H] _].
  apply H. exists "a"%string, 1%nat. split; [left; reflexivity | vm_compute; lia].
Defined.

(** Ten values going up and down: the confidence is 2, that is 200%. *)
Lemma detectSeasonality_confidence_range_witness :
  exists result,
    detectSeasonality (columnOf "x" [1; 2; 1; 2; 1; 2; 1; 2; 1; 2]) "x" = Some result /\
    confidence result = 2 /\ JS.Number_isFinite (confidence result) = true /\
    (confidence result <=? 4) = true.
Proof.
  eexists. split; [vm_compute; reflexivity|]. split; [reflexivity|].
  destruct (detectSeasonality_confidence_range
              (columnOf "x" [1; 2; 1; 2; 1; 2; 1; 2; 1; 2]) "x" _ eq_refl)
    as (F & _ & U); [vm_compute; reflexivity|].
  split; [exact F | exact U].
Defined.

(** Ten values that only rise: reported as cyclical. *)
Lemma detectSeasonality_one_direction_witness :
  exists result,
    detectSeasonality (columnOf "x" [1; 2; 3; 4; 5; 6; 7; 8; 9; 10]) "x" = Some result /\
    (1 <=? confidence result) = true.
Proof.
  apply (detectSeasonality_one_direction
           (columnOf "x" [1; 2; 3; 4; 5; 6; 7; 8; 9; 10]) "x" up).
  - vm_compute. lia.
  - vm_compute. reflexivity.
  - intros x Hx. vm_compute in Hx.
    repeat (destruct Hx as [<- | Hx]; [reflexivity|]). destruct Hx.
Defined.

End RatioExamples.
(** ** analyzeData: the most extreme outlier, and the wording of the
    correlation insight *)

Section InsightWording.
Local Open Scope float_scope.




(** The strongest correlation is never called weak: its strength is
    above 0.5, so the last branch of the wording is never taken; and one
    that is called negative has a coefficient below -0.5. *)
Theorem correlation_wording (data : list DataItem) (numericColumns : list (string * Stats))
  (strongest : CorrelationPair) (rest : list CorrelationPair) :
  findCorrelations data = strongest :: rest ->
  let r := coefficient strongest in
  (exists strengthDescription text,
     correlationsInsight data numericColumns []
     = [("Correlation analysis: Discovered a " ++ strengthDescription ++ " "
         ++ (if (0 <? r)%float then "positive" else "negative")
         ++ " correlation (r = " ++ text)%string] /\
     (strengthDescription = "very strong"%string /\ (0.9 <? JS.Math_abs r) = true \/
      strengthDescription = "strong"%string /\ (0.9 <? JS.Math_abs r) = false
        /\ (0.7 <? JS.Math_abs r) = true \/
      strengthDescription = "moderate"%string /\ (0.7 <? JS.Math_abs r) = false
        /\ (0.5 <? JS.Math_abs r) = true)) /\
  ((0 <? r) = false -> (r <? -0.5) = true).
Proof.
  intros E. cbn zeta.
  assert (K : JS.isNaN (coefficient strongest) = false /\
              (0.5 <? JS.Math_abs (coefficient strongest)) = true).
  { assert (Hin : In strongest (findCorrelations data)) by (rewrite E; left; reflexivity).
    unfold findCorrelations in Hin.
    apply (Permutation_in _ (Permutation_sym (Array_sort_perm byStrength _))) in Hin.
    apply in_flat_map in Hin. destruct Hin as (c & _ & Hin). exact (correlate_kept data c _ Hin). }
  destruct K as [Nr K5]. split.
  - unfold correlationsInsight. rewrite E. unfold push. cbn [app].
    destruct (0.9 <? JS.Math_abs (coefficient strongest)) eqn:E9;
      [ | destruct (0.7 <? JS.Math_abs (coefficient strongest)) eqn:E7;
          [ | rewrite K5 ] ];
      eexists; eexists; (split; [reflexivity|]); auto.
  - intros Hpos. rewrite (ltb_val 0 _ eq_refl Nr) in Hpos. change (Fval 0) with 0%Z in Hpos.
    apply Z.ltb_ge in Hpos.
    assert (Na : JS.isNaN (JS.Math_abs (coefficient strongest)) = false) by (rewrite abs_nan; exact Nr).
    rewrite (ltb_val 0.5 _ eq_refl Na), abs_val in K5. apply Z.ltb_lt in K5.
    rewrite (ltb_val _ (-0.5) Nr eq_refl). apply Z.ltb_lt.
    change (Fval (-0.5)) with (- Fval 0.5)%Z. lia.
Qed.

End InsightWording.

Section WordingExamples.
Local Open Scope string_scope.
Local Open Scope float_scope.


(** The two columns of the scenario: a very strong positive correlation. *)
Lemma correlation_wording_witness :
  exists strongest text,
    findCorrelations scenario = [strongest] /\
    correlationsInsight scenario (numericColumnsOf scenario (Object_keys (firstRow scenario))) []
    = [("Correlation analysis: Discovered a very strong positive correlation (r = "
        ++ text)%string].
Proof.
  eexists. 
  destruct (correlation_wording scenario
              (numericColumnsOf scenario (Object_keys (firstRow scenario))) _ [] eq_refl)
    as [(description & text & E & D) _].
  exists text. split; [reflexivity|]. rewrite E.
  destruct D as [[-> _] | [(_ & C & _) | (_ & C & _)]];
    [reflexivity | vm_compute in C; discriminate | vm_compute in C; discriminate].
Defined.

End WordingExamples.
(** ** Which columns, and which rows, the correlation is taken over *)

Section CorrelationInputs.
Local Open Scope float_scope.

(** [findCorrelations] and [analyzeData] classify the columns alike: the
    test on [stats.count] that the first adds never fails, since
    [calculateStats] returns no statistics of an empty column. *)
Theorem numeric_columns_agree (data : list DataItem) (columns : list string) :
  filter (isNumericColumn data) columns = map fst (numericColumnsOf data columns).
Proof.
  unfold numericColumnsOf, isNumericColumn.
  induction columns as [ | c t IH]; cbn [filter flat_map map]; [reflexivity|].
  destruct (calculateStats data c) as [stats | ] eqn:E; cbn [app map fst]; [ | exact IH].
  destruct (calculateStats_Some data c stats E) as (Es & Hn & _). cbn zeta in *.
  assert (C : (0 <? count stats)%nat = true).
  { subst stats. cbn [statsOfSorted count]. apply Nat.ltb_lt. lia. }
  rewrite C, IH. reflexivity.
Qed.

(** When two columns are numeric in the same rows, the loop over [k]
    pairs the two values of each of those rows. *)
Theorem same_rows_are_paired (data : list DataItem) (column1 column2 : string) :
  (forall item, In item data ->
     JS.isNaN (toNumeric (get item column1)) = JS.isNaN (toNumeric (get item column2))) ->
  List.length (numericColumn data column1) = List.length (numericColumn data column2) /\
  combine (numericColumn data column1) (numericColumn data column2)
  = map (fun item => (toNumeric (get item column1), toNumeric (get item column2)))
        (filter (fun item => negb (JS.isNaN (toNumeric (get item column1)))) data).
Proof.
  unfold numericColumn. induction data as [ | item rest IH]; intros H; [split; reflexivity|].
  cbn [map filter].
  rewrite <- (H item (or_introl eq_refl)).
  destruct (IH (fun x Hx => H x (or_intror Hx))) as [L C].
  destruct (JS.isNaN (toNumeric (get item column1))); cbn [negb].
  - split; [exact L | exact C].
  - cbn [List.length combine map]. split; [f_equal; exact L | f_equal; exact C].
Qed.

End CorrelationInputs.

Section CorrelationInputExamples.
Local Open Scope string_scope.

(** In [misaligned] the columns are numeric in different rows, and the
    pairs are not those of the rows; in the scenario they are. *)
Lemma same_rows_are_paired_witness :
  combine (numericColumn scenario "x") (numericColumn scenario "y")
  = [(1, 2); (2, 4); (3, 6); (4, 8); (5, 10)]%float.
Proof.
  destruct (same_rows_are_paired scenario "x" "y") as [_ E].
  - intros item H. vm_compute in H.
    repeat (destruct H as [<- | H]; [reflexivity|]). destruct H.
  - rewrite E. reflexivity.
Defined.

End CorrelationInputExamples.
